(** * mcp-boilerplate: the example tools, the response formatter and the
      two registered tool handlers, embedded and verified.

    Sources embedded here:
    - [src/tools/example-tools.ts]  ([exampleDataOperation], the fixture)
    - [src/utils/formatter.ts]      ([formatResponse])
    - [src/server.ts]               (the [get_data] and [get_system_info]
                                     registrations: schemas and handlers;
                                     [createServer] of [src/test-server-setup.ts]
                                     registers the same two tools again)
    - the integration tests         (their helpers [sendRequest],
                                     [mockServerResponse] and [mockToolCall])

    JavaScript built-ins the code calls ([Array.prototype.slice],
    [String.prototype.includes], [String.prototype.split], [Array.prototype.join],
    [JSON.stringify], [JSON.parse]) are written out after ECMA-262.
    [String.prototype.toLowerCase] depends on the Unicode tables; it is a
    parameter, constrained only on ASCII text where a theorem needs it. *)

From Stdlib Require Import String Ascii QArith.
From stdpp Require Import base list gmap.

Local Open Scope Z_scope.
Local Set Warnings "-register-all".

(** ** JavaScript values and built-ins *)

Module JS.

(** A JavaScript string is a sequence of UTF-16 code units. *)
Definition jsstring := list N.

(** String literals of the source, as code units. *)
Definition lit (s : string) : jsstring :=
  List.map N_of_ascii (list_ascii_of_string s).

(** A JavaScript number: NaN, the two infinities, a finite double as the
    rational it is (zero is [Finite 0]), and negative zero, which is a
    number of its own: [Object.is(-0, 0)] is false. *)
Inductive number :=
| NaN
| PosInfinity
| NegInfinity
| Finite (q : Q)
| NegZero.

Definition ofZ (z : Z) : number := Finite (inject_Z z).

Inductive integerOrInfinity :=
| MinusInf
| Int (z : Z)
| PlusInf.

(** truncate(x): rounding towards zero. *)
Definition truncate (q : Q) : Z := Z.quot (Qnum q) (Zpos (Qden q)).

(** ECMA-262 7.1.5 ToIntegerOrInfinity. *)
Definition ToIntegerOrInfinity (n : number) : integerOrInfinity :=
  match n with
  | NaN => Int 0
  | PosInfinity => PlusInf
  | NegInfinity => MinusInf
  | Finite q => Int (truncate q)
  | NegZero => Int 0
  end.

(** The clamping of a relative index shared by the start and end arguments
    of [Array.prototype.slice] (steps 3-7 of ECMA-262 23.1.3.28). *)
Definition clampIndex (len : Z) (r : integerOrInfinity) : Z :=
  match r with
  | MinusInf => 0
  | Int z => if z <? 0 then Z.max (len + z) 0 else Z.min z len
  | PlusInf => len
  end.

(** [arr.slice(start, end)]; [end_ = None] is an omitted (undefined) end. *)
Definition slice {A} (arr : list A) (start : number) (end_ : option number)
  : list A :=
  let len := Z.of_nat (length arr) in
  let k := clampIndex len (ToIntegerOrInfinity start) in
  let final :=
    match end_ with
    | None => len
    | Some e => clampIndex len (ToIntegerOrInfinity e)
    end in
  let count := Z.max (final - k) 0 in
  take (Z.to_nat count) (drop (Z.to_nat k) arr).

(** [arr.map((x, i) => f i x)]. *)
Fixpoint mapi_from {A B} (i : nat) (f : nat -> A -> B) (arr : list A) : list B :=
  match arr with
  | [] => []
  | x :: rest => f i x :: mapi_from (S i) f rest
  end.

Definition mapi {A B} (f : nat -> A -> B) (arr : list A) : list B :=
  mapi_from 0 f arr.

Fixpoint startsWith (s p : jsstring) {struct p} : bool :=
  match p with
  | [] => true
  | c :: p' =>
      match s with
      | [] => false
      | d :: s' => (c =? d)%N && startsWith s' p'
      end
  end.

(** [s.includes(t)]: [t] occurs in [s] at some position. *)
Fixpoint includes (s t : jsstring) : bool :=
  startsWith s t ||
  match s with
  | [] => false
  | _ :: s' => includes s' t
  end.

Fixpoint str_eqb (s t : jsstring) : bool :=
  match s, t with
  | [], [] => true
  | c :: s', d :: t' => (c =? d)%N && str_eqb s' t'
  | _, _ => false
  end.

(** [s.split(sep)] for a separator of one code unit. The result always has
    at least one element. *)
Fixpoint split (sep : N) (s : jsstring) : list jsstring :=
  match s with
  | [] => [[]]
  | c :: s' =>
      if (c =? sep)%N then [] :: split sep s'
      else match split sep s' with
           | [] => [[c]]
           | piece :: pieces => (c :: piece) :: pieces
           end
  end.

(** [pieces.join(sep)]. *)
Fixpoint join (sep : jsstring) (pieces : list jsstring) : jsstring :=
  match pieces with
  | [] => []
  | [p] => p
  | p :: rest => p ++ sep ++ join sep rest
  end.

(** JavaScript values as far as the tools build and serialize them. An
    object is its own enumerable string-keyed properties in enumeration
    order. *)
Inductive jsvalue :=
| VUndefined
| VNull
| VBool (b : bool)
| VNumber (n : number)
| VBigInt (z : Z)
| VString (s : jsstring)
| VArray (elems : list jsvalue)
| VObject (props : list (jsstring * jsvalue)).

(** Induction on values through their arrays and property lists. *)
Fixpoint jsvalue_nested_ind (P : jsvalue -> Prop)
  (Hundefined : P VUndefined) (Hnull : P VNull)
  (Hbool : forall b, P (VBool b)) (Hnumber : forall n, P (VNumber n))
  (Hbigint : forall z, P (VBigInt z)) (Hstring : forall s, P (VString s))
  (Harray : forall elems, Forall P elems -> P (VArray elems))
  (Hobject : forall props, Forall (fun kv => P (snd kv)) props -> P (VObject props))
  (v : jsvalue) {struct v} : P v :=
  let rec := jsvalue_nested_ind P Hundefined Hnull Hbool Hnumber Hbigint
               Hstring Harray Hobject in
  match v with
  | VUndefined => Hundefined
  | VNull => Hnull
  | VBool b => Hbool b
  | VNumber n => Hnumber n
  | VBigInt z => Hbigint z
  | VString s => Hstring s
  | VArray elems =>
      Harray elems
        ((fix all (l : list jsvalue) : Forall P l :=
            match l with
            | [] => Forall_nil_2 P
            | e :: rest => Forall_cons_2 P e rest (rec e) (all rest)
            end) elems)
  | VObject props =>
      Hobject props
        ((fix all (l : list (jsstring * jsvalue)) : Forall (fun kv => P (snd kv)) l :=
            match l with
            | [] => Forall_nil_2 _
            | kv :: rest => Forall_cons_2 _ kv rest (rec (snd kv)) (all rest)
            end) props)
  end.

Definition object := list (jsstring * jsvalue).

(** [o[k]] as the lookup of an own property. *)
Definition getOwnProperty (o : object) (k : jsstring) : option jsvalue :=
  snd <$> List.find (fun kv => str_eqb k (fst kv)) o.

(** The property read [o.k]: a missing property reads as undefined. *)
Definition Get (o : object) (k : jsstring) : jsvalue :=
  default VUndefined (getOwnProperty o k).

(** A property definition [k: v] of an object literal after earlier
    properties: an existing key keeps its place and takes the new value, a
    new key goes last (no key the code defines is an array index, which
    would be enumerated before the other keys). *)
Fixpoint defineProperty (k : jsstring) (v : jsvalue) (o : object) : object :=
  match o with
  | [] => [(k, v)]
  | (k', v') :: rest =>
      if str_eqb k k' then (k, v) :: rest
      else (k', v') :: defineProperty k v rest
  end.

(** Decimal digits of an array index, most significant first. *)
Fixpoint digitsOf (fuel : nat) (n : N) (acc : jsstring) : jsstring :=
  match fuel with
  | O => acc
  | S fuel' =>
      let acc' := (48 + n mod 10)%N :: acc in
      if (n <? 10)%N then acc' else digitsOf fuel' (n / 10)%N acc'
  end.

Definition indexKey (i : nat) : jsstring :=
  digitsOf (S i) (N.of_nat i) [].

(** The own enumerable properties that a spread [{...v}] copies
    (CopyDataProperties): none for undefined, null and the other
    primitives, the indexed code units of a string, the indexed elements of
    an array. *)
Definition spread (v : jsvalue) : object :=
  match v with
  | VObject props => props
  | VArray elems => mapi (fun i e => (indexKey i, e)) elems
  | VString s => mapi (fun i c => (indexKey i, VString [c])) s
  | _ => []
  end.

(** What a [throw] carries: an instance of [Error] with its message, or any
    other value. *)
Inductive thrown :=
| ErrorInstance (message : jsstring)
| OtherValue (v : jsvalue).

(** The completion of an evaluation: it returns or it throws. *)
Inductive completion (A : Type) :=
| Return (a : A)
| Throw (e : thrown).
Arguments Return {A} a.
Arguments Throw {A} e.

#[export] Instance completion_ret : MRet completion := fun A a => Return a.
#[export] Instance completion_bind : MBind completion := fun A B k c =>
  match c with
  | Return a => k a
  | Throw e => Throw e
  end.

(** [try { body } catch (error) { handler error }]. *)
Definition try_catch {A} (body : completion A) (handler : thrown -> completion A)
  : completion A :=
  match body with
  | Return a => Return a
  | Throw e => handler e
  end.

(** [arr.filter(callback)]: the callback runs on the elements in order and
    the first throw ends the loop. *)
Fixpoint Array_filter {A} (callback : A -> completion bool) (arr : list A)
  : completion (list A) :=
  match arr with
  | [] => Return []
  | x :: rest =>
      keep ← callback x;
      kept ← Array_filter callback rest;
      Return (if keep : bool then x :: kept else kept)
  end.

(** Calling [v.toLowerCase()]: only a string has the method; on undefined
    or null the property read throws, on another value the call does (the
    messages are V8's). *)
Definition callToLowerCase (toLowerCase : jsstring -> jsstring) (v : jsvalue)
  : completion jsstring :=
  match v with
  | VString s => Return (toLowerCase s)
  | VUndefined =>
      Throw (ErrorInstance
               (lit "Cannot read properties of undefined (reading 'toLowerCase')"))
  | VNull =>
      Throw (ErrorInstance
               (lit "Cannot read properties of null (reading 'toLowerCase')"))
  | _ => Throw (ErrorInstance (lit "toLowerCase is not a function"))
  end.

End JS.

(** ** src/tools/example-tools.ts *)

Module ExampleTools.
Import JS.

(** [interface ExampleItem]: a plain object. *)
Definition ExampleItem := object.

(** [z.infer<typeof dataOperationInputSchema>]: [limit] and
    [includeMetadata] carry defaults, so only [filter] may be undefined. *)
Record DataOperationInput := {
  limit : number;
  filter : option jsstring;
  includeMetadata : bool
}.

Record OperationResult := {
  items : list ExampleItem;
  totalFound : nat;
  filters : DataOperationInput
}.

Definition allItems : list ExampleItem := [
  [ (lit "id", VString (lit "1"));
    (lit "title", VString (lit "Example Item 1"));
    (lit "description", VString (lit "This is a sample item for demonstration"));
    (lit "category", VString (lit "sample"));
    (lit "createdAt", VString (lit "2024-01-01T00:00:00Z"));
    (lit "updatedAt", VString (lit "2024-01-01T00:00:00Z")) ];
  [ (lit "id", VString (lit "2"));
    (lit "title", VString (lit "Example Item 2"));
    (lit "description", VString (lit "Another sample item with different category"));
    (lit "category", VString (lit "demo"));
    (lit "createdAt", VString (lit "2024-01-02T00:00:00Z"));
    (lit "updatedAt", VString (lit "2024-01-02T00:00:00Z")) ];
  [ (lit "id", VString (lit "3"));
    (lit "title", VString (lit "Example Item 3"));
    (lit "description", VString (lit "Third sample item for testing filters"));
    (lit "category", VString (lit "test"));
    (lit "metadata",
      VObject [(lit "tags", VArray [VString (lit "important");
                                    VString (lit "featured")])]);
    (lit "createdAt", VString (lit "2024-01-03T00:00:00Z"));
    (lit "updatedAt", VString (lit "2024-01-03T00:00:00Z")) ]
].

(** [if (input.filter)]: undefined and the empty string are falsy. *)
Definition truthy (f : option jsstring) : option jsstring :=
  match f with
  | Some (c :: s) => Some (c :: s)
  | _ => None
  end.

Section Operation.
(** [String.prototype.toLowerCase]. *)
Variable toLowerCase : jsstring -> jsstring.
(** [new Date().toISOString()] at the [i]-th evaluation within one call. *)
Variable clock : nat -> jsstring.

(** [item.k.toLowerCase().includes(input.filter!.toLowerCase())]. *)
Definition fieldIncludes (item : ExampleItem) (k : jsstring) (f : jsstring)
  : completion bool :=
  text ← callToLowerCase toLowerCase (Get item k);
  Return (includes text (toLowerCase f)).

(** The callback of [allItems.filter]; [||] evaluates its right operand
    only when the left one is false. *)
Definition matchesFilter (f : jsstring) (item : ExampleItem) : completion bool :=
  inTitle ← fieldIncludes item (lit "title") f;
  if inTitle : bool then Return true else
  inDescription ← fieldIncludes item (lit "description") f;
  if inDescription : bool then Return true else
  fieldIncludes item (lit "category") f.

(** The callback of [limitedItems.map]. *)
Definition withMetadata (include : bool) (i : nat) (item : ExampleItem)
  : ExampleItem :=
  defineProperty (lit "metadata")
    (if include then
       VObject
         (defineProperty (lit "source") (VString (lit "example-data-source"))
            (defineProperty (lit "processingTime") (VString (clock i))
               (spread (Get item (lit "metadata")))))
     else Get item (lit "metadata"))
    item.

(** The simulated latency ([setTimeout] of 100 ms) has no effect on the
    value the promise settles with and is left out. *)
Definition exampleDataOperation (input : DataOperationInput)
  : completion OperationResult :=
  filteredItems ←
    match truthy (filter input) with
    | Some text => Array_filter (matchesFilter text) allItems
    | None => Return allItems
    end;
  let limitedItems := slice filteredItems (ofZ 0) (Some (limit input)) in
  let finalItems := mapi (withMetadata (includeMetadata input)) limitedItems in
  Return {| items := finalItems;
            totalFound := length filteredItems;
            filters := input |}.
End Operation.

End ExampleTools.

(** ** The same operation over a store of objects

    [exampleDataOperation] builds its fixture, filters, slices and maps it
    by allocating objects and arrays that refer to each other. This model
    keeps the references, so that sharing and mutation can be stated: the
    items of the result share the [tags] array, and with
    [includeMetadata = false] the whole metadata object, with the fixture. *)

Module Store.
Import JS.

Definition loc := nat.

(** A value as a variable or a property holds it: a primitive, or the
    reference to an object or an array. *)
Inductive svalue :=
| SUndefined
| SNull
| SBool (b : bool)
| SNumber (n : number)
| SBigInt (z : Z)
| SString (s : jsstring)
| SRef (l : loc).

Inductive cell :=
| CObject (props : list (jsstring * svalue))
| CArray (elems : list svalue).

Definition heap := gmap loc cell.

(** An evaluation from a heap: [None] when it does not complete normally
    (a throw, or a reference to nothing). *)
Definition M (A : Type) : Type := heap -> option (A * heap).

#[export] Instance M_ret : MRet M := fun A a h => Some (a, h).
#[export] Instance M_bind : MBind M := fun A B k m h =>
  match m h with
  | Some (a, h') => k a h'
  | None => None
  end.

Definition fail {A} : M A := fun _ => None.

Definition alloc (c : cell) : M loc := fun h =>
  let l := fresh (dom h) in Some (l, <[l := c]> h).

Definition read (l : loc) : M cell := fun h =>
  match h !! l with
  | Some c => Some (c, h)
  | None => None
  end.

(** Assignment to an existing object. The operation below never assigns:
    it only builds new objects and arrays. *)
Definition write (l : loc) (c : cell) : M unit := fun h =>
  match h !! l with
  | Some _ => Some (tt, <[l := c]> h)
  | None => None
  end.

(** An object literal and an array literal with their parts evaluated. *)
Definition newObject (props : list (jsstring * svalue)) : M svalue :=
  l ← alloc (CObject props); mret (SRef l).

Definition newArray (elems : list svalue) : M svalue :=
  l ← alloc (CArray elems); mret (SRef l).

Definition elements (arr : svalue) : M (list svalue) :=
  match arr with
  | SRef l =>
      c ← read l;
      match c with
      | CArray elems => mret elems
      | CObject _ => fail
      end
  | _ => fail
  end.

Definition lookupProperty (k : jsstring) (props : list (jsstring * svalue))
  : svalue :=
  default SUndefined (snd <$> List.find (fun kv => str_eqb k (fst kv)) props).

Fixpoint defineProperty (k : jsstring) (v : svalue)
  (props : list (jsstring * svalue)) : list (jsstring * svalue) :=
  match props with
  | [] => [(k, v)]
  | (k', v') :: rest =>
      if str_eqb k k' then (k, v) :: rest
      else (k', v') :: defineProperty k v rest
  end.

(** The property read [o.k] on an object. *)
Definition getProperty (o : svalue) (k : jsstring) : M svalue :=
  match o with
  | SRef l =>
      c ← read l;
      match c with
      | CObject props => mret (lookupProperty k props)
      | CArray _ => fail
      end
  | _ => fail
  end.

(** The properties a spread [{...v}] copies. *)
Definition spread (v : svalue) : M (list (jsstring * svalue)) :=
  match v with
  | SRef l =>
      c ← read l;
      match c with
      | CObject props => mret props
      | CArray elems => mret (mapi (fun i e => (indexKey i, e)) elems)
      end
  | SString s => mret (mapi (fun i c => (indexKey i, SString [c])) s)
  | _ => mret []
  end.

Fixpoint filterM {A} (callback : A -> M bool) (l : list A) : M (list A) :=
  match l with
  | [] => mret []
  | x :: rest =>
      keep ← callback x;
      kept ← filterM callback rest;
      mret (if keep : bool then x :: kept else kept)
  end.

Fixpoint mapiM_from {A B} (i : nat) (callback : nat -> A -> M B) (l : list A)
  : M (list B) :=
  match l with
  | [] => mret []
  | x :: rest =>
      y ← callback i x;
      ys ← mapiM_from (S i) callback rest;
      mret (y :: ys)
  end.

(** [arr.filter(callback)], [arr.slice(0, end)] and [arr.map(callback)]:
    each allocates the array it returns. *)
Definition Array_filter (callback : svalue -> M bool) (arr : svalue) : M svalue :=
  elems ← elements arr;
  kept ← filterM callback elems;
  newArray kept.

Definition Array_slice (arr : svalue) (start : number) (end_ : option number)
  : M svalue :=
  elems ← elements arr;
  newArray (slice elems start end_).

Definition Array_map (callback : nat -> svalue -> M svalue) (arr : svalue)
  : M svalue :=
  elems ← elements arr;
  mapped ← mapiM_from 0 callback elems;
  newArray mapped.

Definition Array_length (arr : svalue) : M nat :=
  elems ← elements arr; mret (length elems).

(** The array literal [allItems]. *)
Definition allItems : M svalue :=
  item1 ← newObject
    [ (lit "id", SString (lit "1"));
      (lit "title", SString (lit "Example Item 1"));
      (lit "description", SString (lit "This is a sample item for demonstration"));
      (lit "category", SString (lit "sample"));
      (lit "createdAt", SString (lit "2024-01-01T00:00:00Z"));
      (lit "updatedAt", SString (lit "2024-01-01T00:00:00Z")) ];
  item2 ← newObject
    [ (lit "id", SString (lit "2"));
      (lit "title", SString (lit "Example Item 2"));
      (lit "description", SString (lit "Another sample item with different category"));
      (lit "category", SString (lit "demo"));
      (lit "createdAt", SString (lit "2024-01-02T00:00:00Z"));
      (lit "updatedAt", SString (lit "2024-01-02T00:00:00Z")) ];
  tags ← newArray [SString (lit "important"); SString (lit "featured")];
  metadata ← newObject [(lit "tags", tags)];
  item3 ← newObject
    [ (lit "id", SString (lit "3"));
      (lit "title", SString (lit "Example Item 3"));
      (lit "description", SString (lit "Third sample item for testing filters"));
      (lit "category", SString (lit "test"));
      (lit "metadata", metadata);
      (lit "createdAt", SString (lit "2024-01-03T00:00:00Z"));
      (lit "updatedAt", SString (lit "2024-01-03T00:00:00Z")) ];
  newArray [item1; item2; item3].

(** The object the operation returns, with the references it holds. *)
Record OperationResult := {
  items : svalue;
  totalFound : nat;
  filters : ExampleTools.DataOperationInput
}.

Section Operation.
Variable toLowerCase : jsstring -> jsstring.
Variable clock : nat -> jsstring.

Definition fieldIncludes (item : svalue) (k : jsstring) (f : jsstring) : M bool :=
  v ← getProperty item k;
  match v with
  | SString text => mret (includes (toLowerCase text) (toLowerCase f))
  | _ => fail
  end.

Definition matchesFilter (f : jsstring) (item : svalue) : M bool :=
  inTitle ← fieldIncludes item (lit "title") f;
  if inTitle : bool then mret true else
  inDescription ← fieldIncludes item (lit "description") f;
  if inDescription : bool then mret true else
  fieldIncludes item (lit "category") f.

(** [{...item, metadata: include ? {...item.metadata, processingTime, source}
    : item.metadata}]: without [include] the new item holds the very
    metadata reference of the old one. *)
Definition withMetadata (include : bool) (i : nat) (item : svalue) : M svalue :=
  copied ← spread item;
  metadata ←
    (if include then
       old ← getProperty item (lit "metadata");
       inherited ← spread old;
       newObject
         (defineProperty (lit "source") (SString (lit "example-data-source"))
            (defineProperty (lit "processingTime") (SString (clock i))
               inherited))
     else getProperty item (lit "metadata"));
  newObject (defineProperty (lit "metadata") metadata copied).

(** The body of [exampleDataOperation] after the fixture is built. *)
Definition operationOn (allItems : svalue) (input : ExampleTools.DataOperationInput)
  : M OperationResult :=
  filteredItems ←
    match ExampleTools.truthy (ExampleTools.filter input) with
    | Some text => Array_filter (matchesFilter text) allItems
    | None => mret allItems
    end;
  limitedItems ← Array_slice filteredItems (ofZ 0)
                   (Some (ExampleTools.limit input));
  finalItems ← Array_map (withMetadata (ExampleTools.includeMetadata input))
                 limitedItems;
  found ← Array_length filteredItems;
  mret {| items := finalItems; totalFound := found; filters := input |}.

Definition exampleDataOperation (input : ExampleTools.DataOperationInput)
  : M OperationResult :=
  fixture ← allItems;
  operationOn fixture input.
End Operation.

(** [V] is what the store value [v] reads as in the heap [h], references
    followed. *)
Fixpoint represents (h : heap) (V : jsvalue) (v : svalue) {struct V} : Prop :=
  match V with
  | VUndefined => v = SUndefined
  | VNull => v = SNull
  | VBool b => v = SBool b
  | VNumber n => v = SNumber n
  | VBigInt z => v = SBigInt z
  | VString s => v = SString s
  | VArray Vs =>
      exists l vs, v = SRef l /\ h !! l = Some (CArray vs)
        /\ (fix each (Vs : list jsvalue) (vs : list svalue) : Prop :=
              match Vs, vs with
              | [], [] => True
              | V' :: Vs', v' :: vs' => represents h V' v' /\ each Vs' vs'
              | _, _ => False
              end) Vs vs
  | VObject Ps =>
      exists l ps, v = SRef l /\ h !! l = Some (CObject ps)
        /\ (fix each (Ps : list (jsstring * jsvalue))
                (ps : list (jsstring * svalue)) : Prop :=
              match Ps, ps with
              | [], [] => True
              | (K, V') :: Ps', (k, v') :: ps' =>
                  K = k /\ represents h V' v' /\ each Ps' ps'
              | _, _ => False
              end) Ps ps
  end.

(** [m] returns from [h], leaves every object of [h] as it was, and its
    result and final heap satisfy [Q]. *)
Definition returns {A} (m : M A) (h : heap) (Q : A -> heap -> Prop) : Prop :=
  exists a h', m h = Some (a, h') /\ h ⊆ h' /\ Q a h'.

(** [m] only reads: it returns [a] and the heap it started from. *)
Definition reads {A} (m : M A) (h : heap) (a : A) : Prop := m h = Some (a, h).

(** Property lists that agree key by key, the values by [represents]. *)
Definition representsProps (h : heap) (Ps : list (jsstring * jsvalue))
  (ps : list (jsstring * svalue)) : Prop :=
  Forall2 (fun P p => fst P = fst p /\ represents h (snd P) (snd p)) Ps ps.

End Store.

(** ** src/utils/formatter.ts *)

Module Formatter.
Import JS.

(** [type OutputFormat = 'json' | 'compact-json']. *)
Inductive OutputFormat :=
| json
| compact_json.

Definition hexDigit (n : N) : N :=
  if (n <? 10)%N then (48 + n)%N else (87 + n)%N.

(** UnicodeEscape: [\u] and four lowercase hexadecimal digits. *)
Definition unicodeEscape (c : N) : jsstring :=
  [92; 117; hexDigit (c / 4096 mod 16); hexDigit (c / 256 mod 16);
   hexDigit (c / 16 mod 16); hexDigit (c mod 16)]%N.

Definition isLeadingSurrogate (c : N) : bool := ((55296 <=? c) && (c <=? 56319))%N.
Definition isTrailingSurrogate (c : N) : bool := ((56320 <=? c) && (c <=? 57343))%N.

(** The body of QuoteJSONString (ECMA-262 25.5.2.3): the short escapes of
    the table, [\uXXXX] for the other control characters and for a
    surrogate that is not part of a pair, the code units themselves
    otherwise. *)
Fixpoint quoteCodeUnits (s : jsstring) : jsstring :=
  match s with
  | [] => []
  | c :: rest =>
      if (c =? 8)%N then lit "\b" ++ quoteCodeUnits rest
      else if (c =? 9)%N then lit "\t" ++ quoteCodeUnits rest
      else if (c =? 10)%N then lit "\n" ++ quoteCodeUnits rest
      else if (c =? 12)%N then lit "\f" ++ quoteCodeUnits rest
      else if (c =? 13)%N then lit "\r" ++ quoteCodeUnits rest
      else if (c =? 34)%N then [92; 34]%N ++ quoteCodeUnits rest
      else if (c =? 92)%N then [92; 92]%N ++ quoteCodeUnits rest
      else if (c <? 32)%N then unicodeEscape c ++ quoteCodeUnits rest
      else if isLeadingSurrogate c then
        match rest with
        | d :: rest' =>
            if isTrailingSurrogate d then c :: d :: quoteCodeUnits rest'
            else unicodeEscape c ++ quoteCodeUnits rest
        | [] => unicodeEscape c
        end
      else if isTrailingSurrogate c then unicodeEscape c ++ quoteCodeUnits rest
      else c :: quoteCodeUnits rest
  end.

Definition QuoteJSONString (s : jsstring) : jsstring :=
  [34%N] ++ quoteCodeUnits s ++ [34%N].

(** The last steps of SerializeJSONObject and SerializeJSONArray: the
    parts between the brackets, on one line without a gap, one per line at
    the new indentation with one. *)
Definition wrapParts (opening closing : N) (gap stepback indent : jsstring)
  (partial : list jsstring) : jsstring :=
  match partial with
  | [] => [opening; closing]
  | _ =>
      match gap with
      | [] => [opening] ++ join [44%N] partial ++ [closing]
      | _ =>
          [opening; 10%N] ++ indent
            ++ join ([44; 10]%N ++ indent) partial
            ++ [10%N] ++ stepback ++ [closing]
      end
  end.

Section Stringify.
(** Number::toString on a finite number; negative zero has the text of
    zero (ECMA-262 6.1.6.1.20, step 2). *)
Variable numberToString : Q -> jsstring.
(** The gap of the serialization state: [space] spaces. *)
Variable gap : jsstring.

Definition member (k : jsstring) (strP : jsstring) : jsstring :=
  QuoteJSONString k ++ [58%N]
    ++ match gap with [] => [] | _ => [32%N] end ++ strP.

(** SerializeJSONProperty (ECMA-262 25.5.2.2) without replacer and
    [toJSON]; [None] is the result undefined. *)
Fixpoint SerializeJSONProperty (indent : jsstring) (value : jsvalue)
  : completion (option jsstring) :=
  match value with
  | VUndefined => Return None
  | VNull => Return (Some (lit "null"))
  | VBool true => Return (Some (lit "true"))
  | VBool false => Return (Some (lit "false"))
  | VString s => Return (Some (QuoteJSONString s))
  | VNumber (Finite q) => Return (Some (numberToString q))
  | VNumber NegZero => Return (Some (numberToString 0))
  | VNumber _ => Return (Some (lit "null"))
  | VBigInt _ =>
      Throw (ErrorInstance (lit "Do not know how to serialize a BigInt"))
  | VArray elems =>
      let stepback := indent in
      let indent := indent ++ gap in
      partial ←
        (fix each (l : list jsvalue) : completion (list jsstring) :=
           match l with
           | [] => Return []
           | e :: rest =>
               strP ← SerializeJSONProperty indent e;
               more ← each rest;
               Return (default (lit "null") strP :: more)
           end) elems;
      Return (Some (wrapParts 91 93 gap stepback indent partial))
  | VObject props =>
      let stepback := indent in
      let indent := indent ++ gap in
      partial ←
        (fix each (l : list (jsstring * jsvalue)) : completion (list jsstring) :=
           match l with
           | [] => Return []
           | (k, e) :: rest =>
               strP ← SerializeJSONProperty indent e;
               more ← each rest;
               Return (match strP with
                       | Some str => member k str :: more
                       | None => more
                       end)
           end) props;
      Return (Some (wrapParts 123 125 gap stepback indent partial))
  end.
End Stringify.

(** [JSON.stringify(value, null, space)]; [space = None] when the call
    passes no third argument. A numeric space is clamped to 10. *)
Definition JSON_stringify (numberToString : Q -> jsstring) (value : jsvalue)
  (space : option nat) : completion (option jsstring) :=
  let gap := match space with
             | None => []
             | Some n => replicate (Nat.min 10 n) 32%N
             end in
  SerializeJSONProperty numberToString gap [] value.

(** [console.error] writes to the standard error stream only; the returned
    completion does not depend on it. *)
Definition formatResponse (numberToString : Q -> jsstring) (data : jsvalue)
  (format : option OutputFormat) : completion (option jsstring) :=
  try_catch
    match format with
    | Some compact_json => JSON_stringify numberToString data None
    | Some json | None => JSON_stringify numberToString data (Some 2%nat)
    end
    (fun error => JSON_stringify numberToString data (Some 2%nat)).

End Formatter.

(** ** [JSON.parse]

    The specification of [formatResponse] reads its output back with
    [JSON.parse] (ECMA-262 25.5.1, the grammar of ECMA-404), here without a
    reviver. [None] is the SyntaxError of a text that is not JSON. *)

Module JSONParse.
Import JS.

Definition isWhitespace (c : N) : bool :=
  ((c =? 32) || (c =? 9) || (c =? 10) || (c =? 13))%N.

Fixpoint skipWhitespace (s : jsstring) : jsstring :=
  match s with
  | [] => []
  | c :: rest => if isWhitespace c then skipWhitespace rest else s
  end.

(** [s] without the prefix [p], when it starts with it. *)
Fixpoint stripPrefix (p s : jsstring) : option jsstring :=
  match p with
  | [] => Some s
  | c :: p' =>
      match s with
      | [] => None
      | d :: s' => if (c =? d)%N then stripPrefix p' s' else None
      end
  end.

Definition hexValue (c : N) : option N :=
  if ((48 <=? c) && (c <=? 57))%N then Some (c - 48)%N
  else if ((97 <=? c) && (c <=? 102))%N then Some (c - 87)%N
  else if ((65 <=? c) && (c <=? 70))%N then Some (c - 55)%N
  else None.

Definition hex4 (a b c d : N) : option N :=
  x3 ← hexValue a; x2 ← hexValue b; x1 ← hexValue c; x0 ← hexValue d;
  Some (x3 * 4096 + x2 * 256 + x1 * 16 + x0)%N.

(** The character a two-character escape stands for. *)
Definition simpleEscape (e : N) : option N :=
  if (e =? 34)%N then Some 34%N
  else if (e =? 92)%N then Some 92%N
  else if (e =? 47)%N then Some 47%N
  else if (e =? 98)%N then Some 8%N
  else if (e =? 102)%N then Some 12%N
  else if (e =? 110)%N then Some 10%N
  else if (e =? 114)%N then Some 13%N
  else if (e =? 116)%N then Some 9%N
  else None.

(** A string literal after its opening quote: the string, and the text
    after the closing quote. *)
Fixpoint parseStringBody (s : jsstring) : option (jsstring * jsstring) :=
  match s with
  | [] => None
  | c :: rest =>
      if (c =? 34)%N then Some ([], rest)
      else if (c =? 92)%N then
        match rest with
        | [] => None
        | e :: rest' =>
            if (e =? 117)%N then
              match rest' with
              | x3 :: x2 :: x1 :: x0 :: rest'' =>
                  u ← hex4 x3 x2 x1 x0;
                  '(str, after) ← parseStringBody rest'';
                  Some (u :: str, after)
              | _ => None
              end
            else
              u ← simpleEscape e;
              '(str, after) ← parseStringBody rest';
              Some (u :: str, after)
        end
      else if (c <? 32)%N then None
      else
        '(str, after) ← parseStringBody rest;
        Some (c :: str, after)
  end.

(** The characters of a number literal, and those that may start one. *)
Definition isDigit (c : N) : bool := ((48 <=? c) && (c <=? 57))%N.

Definition isNumberChar (c : N) : bool :=
  (isDigit c || (c =? 45) || (c =? 43) || (c =? 46) || (c =? 101) || (c =? 69))%N.

Definition isNumberStart (c : N) : bool := (isDigit c || (c =? 45))%N.

Fixpoint spanNumber (s : jsstring) : jsstring * jsstring :=
  match s with
  | [] => ([], [])
  | c :: rest =>
      if isNumberChar c then
        let '(token, after) := spanNumber rest in (c :: token, after)
      else ([], s)
  end.

(** The object a member list builds: CreateDataProperty for each member in
    turn, so a repeated key takes the last value. The properties stay in
    the order of the text, which is the enumeration order whenever the text
    was written from an object. *)
Definition objectOfMembers (members : list (jsstring * jsvalue)) : object :=
  foldl (fun o kv => defineProperty (fst kv) (snd kv) o) [] members.

Section Parse.
(** StringToNumber on a number literal: a number, which may be negative
    zero or an infinity; [None] for a token that is not a JSON number. *)
Variable stringToNumber : jsstring -> option number.

(** A value, then the text after it. The fuel bounds the nesting and the
    number of elements; the length of the text is always enough. *)
Fixpoint parseValue (fuel : nat) (s : jsstring) {struct fuel}
  : option (jsvalue * jsstring) :=
  match fuel with
  | O => None
  | S fuel' =>
      match skipWhitespace s with
      | [] => None
      | c :: rest =>
          if (c =? 34)%N then
            '(str, after) ← parseStringBody rest;
            Some (VString str, after)
          else if (c =? 91)%N then
            match stripPrefix (lit "]") (skipWhitespace rest) with
            | Some after => Some (VArray [], after)
            | None =>
                '(elems, after) ← parseElements fuel' rest;
                Some (VArray elems, after)
            end
          else if (c =? 123)%N then
            match stripPrefix (lit "}") (skipWhitespace rest) with
            | Some after => Some (VObject [], after)
            | None =>
                '(members, after) ← parseMembers fuel' rest;
                Some (VObject (objectOfMembers members), after)
            end
          else if isNumberStart c then
            let '(token, after) := spanNumber (c :: rest) in
            n ← stringToNumber token;
            Some (VNumber n, after)
          else
            match stripPrefix (lit "null") (c :: rest) with
            | Some after => Some (VNull, after)
            | None =>
                match stripPrefix (lit "true") (c :: rest) with
                | Some after => Some (VBool true, after)
                | None =>
                    after ← stripPrefix (lit "false") (c :: rest);
                    Some (VBool false, after)
                end
            end
      end
  end
with parseElements (fuel : nat) (s : jsstring) {struct fuel}
  : option (list jsvalue * jsstring) :=
  match fuel with
  | O => None
  | S fuel' =>
      '(v, rest) ← parseValue fuel' s;
      match stripPrefix (lit ",") (skipWhitespace rest) with
      | Some rest' =>
          '(vs, after) ← parseElements fuel' rest';
          Some (v :: vs, after)
      | None =>
          after ← stripPrefix (lit "]") (skipWhitespace rest);
          Some ([v], after)
      end
  end
with parseMembers (fuel : nat) (s : jsstring) {struct fuel}
  : option (list (jsstring * jsvalue) * jsstring) :=
  match fuel with
  | O => None
  | S fuel' =>
      rest ← stripPrefix [34%N] (skipWhitespace s);
      '(k, rest1) ← parseStringBody rest;
      rest2 ← stripPrefix (lit ":") (skipWhitespace rest1);
      '(v, rest3) ← parseValue fuel' rest2;
      match stripPrefix (lit ",") (skipWhitespace rest3) with
      | Some rest4 =>
          '(more, after) ← parseMembers fuel' rest4;
          Some ((k, v) :: more, after)
      | None =>
          after ← stripPrefix (lit "}") (skipWhitespace rest3);
          Some ([(k, v)], after)
      end
  end.

(** [JSON.parse(text)]: one value, and only whitespace after it. *)
Definition JSON_parse (text : jsstring) : option jsvalue :=
  '(v, rest) ← parseValue (S (length text)) text;
  match skipWhitespace rest with
  | [] => Some v
  | _ => None
  end.
End Parse.

End JSONParse.

(** ** src/server.ts *)

Module Server.
Import JS ExampleTools Formatter.

(** A content block and the envelope a handler returns. [text] is [None]
    where the source would store undefined. *)
Record TextContent := {
  type : jsstring;
  text : option jsstring
}.

Record Envelope := {
  content : list TextContent
}.

(** *** The parameter schemas (zod); [None] is a validation error. *)

(** [z.number().min(1).max(100).optional().default(10)]: [z.number()]
    refuses NaN, the bounds refuse the infinities. *)
Definition limitSchema (arg : jsvalue) : option number :=
  match arg with
  | VUndefined => Some (ofZ 10)
  | VNumber (Finite q) =>
      if Qle_bool 1 q && Qle_bool q 100 then Some (Finite q) else None
  | _ => None
  end.

(** [z.string().optional()]. *)
Definition filterSchema (arg : jsvalue) : option (option jsstring) :=
  match arg with
  | VUndefined => Some None
  | VString s => Some (Some s)
  | _ => None
  end.

(** [z.boolean().optional().default(false)]. *)
Definition includeMetadataSchema (arg : jsvalue) : option bool :=
  match arg with
  | VUndefined => Some false
  | VBool b => Some b
  | _ => None
  end.

(** [z.enum(['json', 'compact-json']).optional().default('json')]. *)
Definition outputModeSchema (arg : jsvalue) : option OutputFormat :=
  match arg with
  | VUndefined => Some json
  | VString s =>
      if str_eqb s (lit "json") then Some json
      else if str_eqb s (lit "compact-json") then Some compact_json
      else None
  | _ => None
  end.

Record GetDataInput := {
  limit : number;
  filter : option jsstring;
  includeMetadata : bool;
  outputMode : OutputFormat
}.

Definition getDataSchema (args : object) : option GetDataInput :=
  l ← limitSchema (Get args (lit "limit"));
  f ← filterSchema (Get args (lit "filter"));
  m ← includeMetadataSchema (Get args (lit "includeMetadata"));
  o ← outputModeSchema (Get args (lit "outputMode"));
  Some {| limit := l; filter := f; includeMetadata := m; outputMode := o |}.

Inductive InfoKind :=
| InfoDate
| InfoTimezone
| InfoVersion
| InfoAll.

(** [z.enum(['date', 'timezone', 'version', 'all']).optional().default('all')]. *)
Definition infoSchema (arg : jsvalue) : option InfoKind :=
  match arg with
  | VUndefined => Some InfoAll
  | VString s =>
      if str_eqb s (lit "date") then Some InfoDate
      else if str_eqb s (lit "timezone") then Some InfoTimezone
      else if str_eqb s (lit "version") then Some InfoVersion
      else if str_eqb s (lit "all") then Some InfoAll
      else None
  | _ => None
  end.

(** *** Tool 1: [get_data] *)

(** The argument object [{ limit, filter, includeMetadata }] the handler
    builds, as the operation echoes it in [filters]. *)
Definition inputValue (input : DataOperationInput) : jsvalue :=
  VObject [ (lit "limit", VNumber (ExampleTools.limit input));
            (lit "filter", match ExampleTools.filter input with
                           | Some s => VString s
                           | None => VUndefined
                           end);
            (lit "includeMetadata", VBool (ExampleTools.includeMetadata input)) ].

(** The object [{ items, totalFound, filters }] the operation returns. *)
Definition resultValue (result : OperationResult) : jsvalue :=
  VObject [ (lit "items", VArray (VObject <$> items result));
            (lit "totalFound", VNumber (ofZ (Z.of_nat (totalFound result))));
            (lit "filters", inputValue (filters result)) ].

(** [error instanceof Error ? error.message : 'Unknown error occurred']
    behind the prefix. *)
Definition errorText (error : thrown) : jsstring :=
  lit "Error: " ++
  match error with
  | ErrorInstance message => message
  | OtherValue _ => lit "Unknown error occurred"
  end.

Definition textEnvelope (t : option jsstring) : Envelope :=
  {| content := [ {| type := lit "text"; text := t |} ] |}.

Section GetData.
Variable numberToString : Q -> jsstring.
(** The operation the handler awaits; the template asks for it to be
    replaced by the real data source. *)
Variable operation : DataOperationInput -> completion OperationResult.

(** The [try] block. *)
Definition get_data_try (input : GetDataInput) : completion Envelope :=
  result ← operation {| ExampleTools.limit := limit input;
                        ExampleTools.filter := filter input;
                        ExampleTools.includeMetadata := includeMetadata input |};
  formatted ← formatResponse numberToString (resultValue result)
                (Some (outputMode input));
  Return (textEnvelope formatted).

(** The handler: [try { ... } catch (error) { ... }]. *)
Definition get_data_handler (input : GetDataInput) : completion Envelope :=
  try_catch (get_data_try input)
    (fun error => Return (textEnvelope (Some (errorText error)))).
End GetData.

(** The handler as registered: it awaits [exampleDataOperation]. *)
Definition get_data (toLowerCase : jsstring -> jsstring) (clock : nat -> jsstring)
  (numberToString : Q -> jsstring) : GetDataInput -> completion Envelope :=
  get_data_handler numberToString (exampleDataOperation toLowerCase clock).

(** *** Tool 2: [get_system_info] *)

Section GetSystemInfo.
(** [now.toISOString()] for [now = new Date()]. *)
Variable toISOString : completion jsstring.
(** [Intl.DateTimeFormat().resolvedOptions().timeZone]. *)
Variable resolvedTimeZone : completion jsstring.

(** [parts[0]] inside a template literal: a missing element prints as
    [undefined]. *)
Definition firstPart (parts : list jsstring) : jsstring :=
  match parts with
  | p :: _ => p
  | [] => lit "undefined"
  end.

Definition get_system_info (info : InfoKind) : completion Envelope :=
  iso ← toISOString;
  let currentDate := firstPart (split 84 iso) in
  currentTime ← toISOString;
  timezone ← resolvedTimeZone;
  let version := lit "0.1.0" in
  let response :=
    match info with
    | InfoDate => lit "Current date: " ++ currentDate
    | InfoTimezone => lit "Timezone: " ++ timezone
    | InfoVersion => lit "Server version: " ++ version
    | InfoAll =>
        join [10%N]
          [ lit "Current date: " ++ currentDate;
            lit "Current time: " ++ currentTime;
            lit "Timezone: " ++ timezone;
            lit "Server version: " ++ version;
            [];
            lit "Use this information for date filtering and context." ]
    end in
  Return (textEnvelope (Some response)).
End GetSystemInfo.

End Server.

(** ** The request helpers of the integration tests

    [sendRequest] does not reach the server it is given: it answers from
    [mockServerResponse] and [mockToolCall], which are embedded here. *)

Module Harness.
Import JS Formatter.

(** [v?.k] for the keys the helpers read ([name], [arguments], [limit],
    [info]): undefined on undefined and null, the own property of an
    object; an array or the wrapper of a primitive has no property of
    these names. *)
Definition optionalRead (v : jsvalue) (k : jsstring) : jsvalue :=
  match v with
  | VObject props => Get props k
  | _ => VUndefined
  end.

(** [v.k] for the keys [method] and [params]: as [v?.k], but undefined and
    null have no properties to read (the messages are V8's). *)
Definition readProperty (v : jsvalue) (k : jsstring) : completion jsvalue :=
  match v with
  | VUndefined =>
      Throw (ErrorInstance
               (lit "Cannot read properties of undefined (reading '" ++ k ++ lit "')"))
  | VNull =>
      Throw (ErrorInstance
               (lit "Cannot read properties of null (reading '" ++ k ++ lit "')"))
  | _ => Return (optionalRead v k)
  end.

(** ToBoolean (ECMA-262 7.1.2), as [||] applies it. *)
Definition ToBoolean (v : jsvalue) : bool :=
  match v with
  | VUndefined | VNull => false
  | VBool b => b
  | VNumber NaN | VNumber NegZero => false
  | VNumber (Finite q) => negb (Qeq_bool q 0)
  | VNumber _ => true
  | VBigInt z => negb (z =? 0)
  | VString [] => false
  | VString _ => true
  | VArray _ | VObject _ => true
  end.

(** [n < q] on numbers: false whenever [n] is NaN. *)
Definition numberLessThan (n : number) (q : Q) : bool :=
  match n with
  | NaN | PosInfinity => false
  | NegInfinity => true
  | Finite p => negb (Qle_bool q p)
  | NegZero => negb (Qle_bool q 0)
  end.

(** WhiteSpace and LineTerminator, which [String.prototype.trim] strips. *)
Definition isTrimmed (c : N) : bool :=
  ((c =? 9) || (c =? 10) || (c =? 11) || (c =? 12) || (c =? 13) || (c =? 32)
   || (c =? 160) || (c =? 5760) || ((8192 <=? c) && (c <=? 8202))
   || (c =? 8232) || (c =? 8233) || (c =? 8239) || (c =? 8287)
   || (c =? 12288) || (c =? 65279))%N.

Fixpoint trimStart (s : jsstring) : jsstring :=
  match s with
  | [] => []
  | c :: rest => if isTrimmed c then trimStart rest else s
  end.

Definition trim (s : jsstring) : jsstring := rev (trimStart (rev (trimStart s))).

(** The object [{ content: [{ type: 'text', text }] }]. *)
Definition toolResult (text : option jsstring) : jsvalue :=
  VObject [ (lit "content",
             VArray [ VObject [ (lit "type", VString (lit "text"));
                                (lit "text", match text with
                                             | Some t => VString t
                                             | None => VUndefined
                                             end) ] ]) ].

Definition mockItem : jsvalue :=
  VObject [ (lit "id", VString (lit "1"));
            (lit "title", VString (lit "Example Item 1"));
            (lit "description", VString (lit "This is a sample item for demonstration"));
            (lit "category", VString (lit "sample"));
            (lit "createdAt", VString (lit "2024-01-01T00:00:00Z"));
            (lit "updatedAt", VString (lit "2024-01-01T00:00:00Z")) ].

(** The object [mockData] for the arguments [args]. *)
Definition mockData (args : jsvalue) : jsvalue :=
  VObject [ (lit "items", VArray [mockItem]);
            (lit "totalFound", VNumber (ofZ 1));
            (lit "filters", if ToBoolean args then args else VObject []) ].

Definition initializeResult : jsvalue :=
  VObject [ (lit "protocolVersion", VString (lit "2024-11-05"));
            (lit "capabilities", VObject [ (lit "tools", VObject []);
                                           (lit "logging", VObject []) ]);
            (lit "serverInfo",
             VObject [ (lit "name", VString (lit "mcp-server-boilerplate"));
                       (lit "version", VString (lit "0.1.0")) ]) ].

Definition propertyType (t : string) : jsvalue :=
  VObject [ (lit "type", VString (lit t)) ].

Definition toolsListResult : jsvalue :=
  VObject [ (lit "tools", VArray [
    VObject [ (lit "name", VString (lit "get_data"));
              (lit "description",
               VString (lit "Retrieve data from your custom data source with optional filtering and pagination."));
              (lit "inputSchema",
               VObject [ (lit "type", VString (lit "object"));
                         (lit "properties",
                          VObject [ (lit "limit", propertyType "number");
                                    (lit "filter", propertyType "string");
                                    (lit "includeMetadata", propertyType "boolean");
                                    (lit "outputMode", propertyType "string") ]) ]) ];
    VObject [ (lit "name", VString (lit "get_system_info"));
              (lit "description",
               VString (lit "Get system information and utilities. Provides current date, timezone, and other helpful context."));
              (lit "inputSchema",
               VObject [ (lit "type", VString (lit "object"));
                         (lit "properties",
                          VObject [ (lit "info", propertyType "string") ]) ]) ] ]) ].

(** [v === 'text']. *)
Definition isString (v : jsvalue) (text : jsstring) : bool :=
  match v with
  | VString s => str_eqb s text
  | _ => false
  end.

Section Mock.
(** ToNumber on strings, arrays and objects, for the comparison
    [args.limit < 1]. *)
Variable ToNumber : jsvalue -> number.
(** ToString on a value that is not a string, for the template literals
    of the two [Unknown ...] messages. *)
Variable ToString : jsvalue -> jsstring.
(** Number::toString on a finite number. *)
Variable numberToString : Q -> jsstring.

(** [v < 1] (IsLessThan with a number on the right): undefined is NaN,
    null is 0, true is 1 and false is 0, a BigInt is compared by value. *)
Definition lessThanOne (v : jsvalue) : bool :=
  match v with
  | VUndefined => false
  | VNull => true
  | VBool b => negb b
  | VNumber n => numberLessThan n 1
  | VBigInt z => z <? 1
  | _ => numberLessThan (ToNumber v) 1
  end.

Definition templateText (v : jsvalue) : jsstring :=
  match v with
  | VString s => s
  | _ => ToString v
  end.

Definition isUndefined (v : jsvalue) : bool :=
  match v with
  | VUndefined => true
  | _ => false
  end.

(** The [get_system_info] case of [mockToolCall]. *)
Definition mockSystemInfo (args : jsvalue) : jsvalue :=
  let info := let i := optionalRead args (lit "info") in
              if ToBoolean i then i else VString (lit "all") in
  let responseText :=
    (if isString info (lit "date") || isString info (lit "all")
     then lit "Current date: 2024-01-01" ++ [10%N] else [])
    ++ (if isString info (lit "timezone") || isString info (lit "all")
        then lit "Timezone: UTC" ++ [10%N] else [])
    ++ (if isString info (lit "version") || isString info (lit "all")
        then lit "Server version: 0.1.0" ++ [10%N] else [])
    ++ (if isString info (lit "all")
        then [10%N] ++ lit "Use this information for date filtering and context."
        else []) in
  toolResult (Some (trim responseText)).

(** The [get_data] case of [mockToolCall]. *)
Definition mockGetData (args : jsvalue) : completion jsvalue :=
  let limit := optionalRead args (lit "limit") in
  if negb (isUndefined limit) && lessThanOne limit then
    Throw (ErrorInstance (lit "Invalid limit: must be at least 1"))
  else
    text ← JSON_stringify numberToString (mockData args) (Some 2%nat);
    Return (toolResult text).

Definition mockToolCall (params : jsvalue) : completion jsvalue :=
  match params with
  | VUndefined =>
      Throw (ErrorInstance
               (lit "Cannot destructure property 'name' of 'params' as it is undefined."))
  | VNull =>
      Throw (ErrorInstance
               (lit "Cannot destructure property 'name' of 'params' as it is null."))
  | _ =>
      let name := optionalRead params (lit "name") in
      let args := optionalRead params (lit "arguments") in
      if isString name (lit "get_data") then mockGetData args
      else if isString name (lit "get_system_info") then Return (mockSystemInfo args)
      else Throw (ErrorInstance (lit "Unknown tool: " ++ templateText name))
  end.

Definition mockServerResponse (request : jsvalue) : completion jsvalue :=
  method ← readProperty request (lit "method");
  if isString method (lit "initialize") then Return initializeResult
  else if isString method (lit "tools/list") then Return toolsListResult
  else if isString method (lit "tools/call") then
    params ← readProperty request (lit "params");
    mockToolCall params
  else Throw (ErrorInstance (lit "Unknown method: " ++ templateText method)).

(** [sendRequest(server, request)]: the value its promise resolves with;
    the promise never rejects. [id] is the random id drawn for the call.
    Neither [server] nor the [message] object built from the request is
    used. *)
Definition sendRequest (id : jsstring) (request : jsvalue) : jsvalue :=
  match mockServerResponse request with
  | Return result =>
      VObject [ (lit "id", VString id);
                (lit "jsonrpc", VString (lit "2.0"));
                (lit "result", result) ]
  | Throw error =>
      VObject [ (lit "id", VString id);
                (lit "jsonrpc", VString (lit "2.0"));
                (lit "error",
                 VObject [ (lit "code", VNumber (ofZ (-32603)));
                           (lit "message", VString (lit "Internal error")) ]) ]
  end.
End Mock.

End Harness.

(** ** Vocabulary of the specification *)

Module Spec.
Import JS ExampleTools.

(** What [toLowerCase] does to an ASCII code unit. *)
Definition asciiLower (c : N) : N :=
  if ((65 <=? c) && (c <=? 90))%N then (c + 32)%N else c.

Definition toLowerCaseASCII (s : jsstring) : jsstring := asciiLower <$> s.

Definition isASCII (s : jsstring) : Prop := Forall (fun c => (c < 128)%N) s.

(** The one fact about [toLowerCase] the theorems use: on ASCII text it
    lowers the letters A-Z and keeps everything else. *)
Definition lowercasesASCII (toLowerCase : jsstring -> jsstring) : Prop :=
  forall s, isASCII s -> toLowerCase s = toLowerCaseASCII s.

(** [t] is a substring of [s]. *)
Definition occursIn (t s : jsstring) : Prop :=
  exists pre post, s = pre ++ t ++ post.

(** [text] contains [f] as a case-insensitive substring. *)
Definition containsCI (toLowerCase : jsstring -> jsstring) (f text : jsstring)
  : Prop :=
  occursIn (toLowerCase f) (toLowerCase text).

(** The item has the string property [k], and it contains [f]. *)
Definition fieldContainsCI toLowerCase (f : jsstring) (item : ExampleItem)
  (k : jsstring) : Prop :=
  exists text, getOwnProperty item k = Some (VString text)
               /\ containsCI toLowerCase f text.

(** The item's title, description or category contains [f]. *)
Definition matchesCI toLowerCase (f : jsstring) (item : ExampleItem) : Prop :=
  fieldContainsCI toLowerCase f item (lit "title")
  \/ fieldContainsCI toLowerCase f item (lit "description")
  \/ fieldContainsCI toLowerCase f item (lit "category").

(** The same test as a boolean, for counting the matches. *)
Definition fieldContainsCIb toLowerCase (f : jsstring) (item : ExampleItem)
  (k : jsstring) : bool :=
  match getOwnProperty item k with
  | Some (VString text) => includes (toLowerCase text) (toLowerCase f)
  | _ => false
  end.

Definition matchesCIb toLowerCase (f : jsstring) (item : ExampleItem) : bool :=
  fieldContainsCIb toLowerCase f item (lit "title")
  || fieldContainsCIb toLowerCase f item (lit "description")
  || fieldContainsCIb toLowerCase f item (lit "category").

(** The fixture items that match an optional filter text; no filter
    matches every item. *)
Definition matching toLowerCase (f : option jsstring) : list ExampleItem :=
  match f with
  | Some text => List.filter (matchesCIb toLowerCase text) allItems
  | None => allItems
  end.

(** The list [filteredItems] of the source: the matches of the filter as the
    truthiness test reads it. *)
Definition filteredItems toLowerCase (f : option jsstring) : list ExampleItem :=
  matching toLowerCase (truthy f).

(** [limit] as a valid argument of [get_data]: a finite number in [1,100]. *)
Definition validLimit (q : Q) : Prop := (1 <= q)%Q /\ (q <= 100)%Q.

(** Decimal digits of an integer, and a number printer that is
    Number::toString on the integers below 2^53 in absolute value. *)
Definition decimal (z : Z) : jsstring :=
  match z with
  | Z0 => lit "0"
  | Zpos p => digitsOf (Pos.size_nat p) (Npos p) []
  | Zneg p => 45%N :: digitsOf (Pos.size_nat p) (Npos p) []
  end.

Definition integerToString (q : Q) : jsstring := decimal (Qnum q).

(** The value of a run of decimal digits after the value [acc] of the
    digits before it; [None] on any other character. *)
Fixpoint digitsValue (acc : N) (s : jsstring) : option N :=
  match s with
  | [] => Some acc
  | c :: rest =>
      if JSONParse.isDigit c then digitsValue (acc * 10 + (c - 48))%N rest
      else None
  end.

(** The reader of what [integerToString] prints: an optional minus sign
    and digits without a leading zero. *)
Definition integerOfString (s : jsstring) : option number :=
  match s with
  | [] => None
  | c :: rest =>
      if (c =? 45)%N then
        match rest with
        | [] => None
        | d :: _ =>
            if (d =? 48)%N then None
            else n ← digitsValue 0 rest; Some (Finite (inject_Z (- Z.of_N n)))
        end
      else if (c =? 48)%N then
        match rest with
        | [] => Some (Finite (inject_Z 0))
        | _ :: _ => None
        end
      else n ← digitsValue 0 s; Some (Finite (inject_Z (Z.of_N n)))
  end.

(** The integers that are safe in a double. *)
Definition safeInteger (q : Q) : Prop :=
  Qden q = 1%positive /\ (Z.abs (Qnum q) <= 2 ^ 53)%Z.

(** What the round trip needs of Number::toString and StringToNumber on
    the finite numbers [q] of interest: the text of [q] is a number literal
    (it starts with a digit or a minus sign and consists of digits, signs,
    a point and an exponent mark) and it reads back as [q]. *)
Definition numberSyntax (numberToString : Q -> jsstring)
  (stringToNumber : jsstring -> option number) (inDomain : Q -> Prop) : Prop :=
  forall q, inDomain q ->
    (exists c rest, numberToString q = c :: rest
                    /\ JSONParse.isNumberStart c = true
                    /\ forallb JSONParse.isNumberChar rest = true)
    /\ stringToNumber (numberToString q) = Some (Finite q).

(** The JSON-serializable values: null, booleans, the finite numbers of the
    domain, strings, arrays of such values, and objects of such values under
    distinct keys. *)
Inductive JSONValue (inDomain : Q -> Prop) : jsvalue -> Prop :=
| JSON_null : JSONValue inDomain VNull
| JSON_bool b : JSONValue inDomain (VBool b)
| JSON_number q : inDomain q -> JSONValue inDomain (VNumber (Finite q))
| JSON_string s : JSONValue inDomain (VString s)
| JSON_array elems :
    Forall (JSONValue inDomain) elems -> JSONValue inDomain (VArray elems)
| JSON_object props :
    NoDup (fst <$> props) ->
    Forall (fun kv => JSONValue inDomain (snd kv)) props ->
    JSONValue inDomain (VObject props).

(** Text that cannot continue a number literal before it. *)
Definition endsNumber (rest : jsstring) : Prop :=
  match rest with
  | [] => True
  | c :: _ => JSONParse.isNumberChar c = false
  end.

Definition whitespace (s : jsstring) : Prop :=
  Forall (fun c => JSONParse.isWhitespace c = true) s.

(** The line break and indentation that a non-empty gap puts before an
    element and before the closing bracket. *)
Definition lineBreak (gap indent : jsstring) : jsstring :=
  match gap with
  | [] => []
  | _ => 10%N :: indent
  end.

Section Texts.
Variable numberToString : Q -> jsstring.



(** The text SerializeJSONProperty builds for a JSON value at a gap and an
    indentation. *)
Fixpoint jsonText (gap indent : jsstring) (v : jsvalue) : jsstring :=
  match v with
  | VNull => lit "null"
  | VBool true => lit "true"
  | VBool false => lit "false"
  | VNumber (Finite q) => numberToString q
  | VString s => Formatter.QuoteJSONString s
  | VArray elems =>
      Formatter.wrapParts 91 93 gap indent (indent ++ gap)
        (List.map (jsonText gap (indent ++ gap)) elems)
  | VObject props =>
      Formatter.wrapParts 123 125 gap indent (indent ++ gap)
        (List.map (fun kv => Formatter.member gap (fst kv)
                               (jsonText gap (indent ++ gap) (snd kv))) props)
  | _ => []
  end.
End Texts.

(** The text of [v], at any indentation and before any text that cannot
    continue a number, is read back as [v], leaving that text; a fuel above
    the length of the text of [v] is enough. *)
Definition readsBack (numberToString : Q -> jsstring)
  (stringToNumber : jsstring -> option number) (gap : jsstring) (v : jsvalue)
  : Prop :=
  forall indent fuel rest,
    whitespace indent -> endsNumber rest ->
    (length (jsonText numberToString gap indent v) < fuel)%nat ->
    JSONParse.parseValue stringToNumber fuel
      (jsonText numberToString gap indent v ++ rest) = Some (v, rest).

(** Clocks for the examples: every reading is the same instant. *)
Definition noon : nat -> jsstring := fun _ => lit "2024-06-01T12:00:00.000Z".
Definition midnight : nat -> jsstring := fun _ => lit "2024-06-02T00:00:00.000Z".

(** The names the two enum schemas list. *)
Definition infoName (k : Server.InfoKind) : jsstring :=
  match k with
  | Server.InfoDate => lit "date"
  | Server.InfoTimezone => lit "timezone"
  | Server.InfoVersion => lit "version"
  | Server.InfoAll => lit "all"
  end.

Definition formatName (o : Formatter.OutputFormat) : jsstring :=
  match o with
  | Formatter.json => lit "json"
  | Formatter.compact_json => lit "compact-json"
  end.

(** A BigInt occurs in the value, at any depth. *)
Fixpoint hasBigInt (v : jsvalue) : bool :=
  match v with
  | VBigInt _ => true
  | VArray elems => existsb hasBigInt elems
  | VObject props => existsb (fun kv => hasBigInt (snd kv)) props
  | _ => false
  end.

(** What is left of a value in its JSON text: a property whose value is
    undefined is not written, an undefined array element and a number that
    is not finite are written as null, and negative zero is written as
    zero. *)
Fixpoint survives (v : jsvalue) : jsvalue :=
  match v with
  | VUndefined => VNull
  | VNumber (Finite q) => VNumber (Finite q)
  | VNumber NegZero => VNumber (Finite 0)
  | VNumber _ => VNull
  | VArray elems => VArray (List.map survives elems)
  | VObject props =>
      VObject ((fix each (l : list (jsstring * jsvalue)) :=
                  match l with
                  | [] => []
                  | (k, VUndefined) :: rest => each rest
                  | (k, e) :: rest => (k, survives e) :: each rest
                  end) props)
  | _ => v
  end.

(** A property as its JSON text keeps it, if it does. *)
Definition written (kv : jsstring * jsvalue) : option (jsstring * jsvalue) :=
  match snd kv with
  | VUndefined => None
  | e => Some (fst kv, survives e)
  end.

(** The values without a BigInt whose finite numbers are in the domain and
    whose objects have distinct keys; undefined may occur anywhere. *)
Inductive Serializable (inDomain : Q -> Prop) : jsvalue -> Prop :=
| Ser_undefined : Serializable inDomain VUndefined
| Ser_null : Serializable inDomain VNull
| Ser_bool b : Serializable inDomain (VBool b)
| Ser_number n :
    (forall q, n = Finite q -> inDomain q) -> (n = NegZero -> inDomain 0%Q) ->
    Serializable inDomain (VNumber n)
| Ser_string s : Serializable inDomain (VString s)
| Ser_array elems :
    Forall (Serializable inDomain) elems -> Serializable inDomain (VArray elems)
| Ser_object props :
    NoDup (fst <$> props) ->
    Forall (fun kv => Serializable inDomain (snd kv)) props ->
    Serializable inDomain (VObject props).

(** The locations a value and a cell refer to, and the locations that can
    be reached from a value through the heap. *)
Definition refsOf (v : Store.svalue) : list Store.loc :=
  match v with
  | Store.SRef l => [l]
  | _ => []
  end.

Definition cellRefs (c : Store.cell) : list Store.loc :=
  match c with
  | Store.CObject props => flat_map (fun kv => refsOf (snd kv)) props
  | Store.CArray elems => flat_map refsOf elems
  end.

Inductive reachable (h : Store.heap) (v : Store.svalue) : Store.loc -> Prop :=
| reach_root l : v = Store.SRef l -> reachable h v l
| reach_step l c l' :
    reachable h v l -> h !! l = Some c -> l' ∈ cellRefs c -> reachable h v l'.

(** From [h] to [h']: every cell of [h] is kept, and a cell that is new
    refers to new cells only. *)
Definition grows (h h' : Store.heap) : Prop :=
  h ⊆ h'
  /\ forall l c, h !! l = None -> h' !! l = Some c ->
       forall l', l' ∈ cellRefs c -> h !! l' = None.

(** The request [{ method: 'tools/call', params: { name, arguments } }] of
    the integration tests, and the two shapes of a response. *)
Definition toolsCall (name : jsstring) (args : jsvalue) : jsvalue :=
  VObject [ (lit "method", VString (lit "tools/call"));
            (lit "params", VObject [ (lit "name", VString name);
                                     (lit "arguments", args) ]) ].

Definition resultResponse (id : jsstring) (result : jsvalue) : jsvalue :=
  VObject [ (lit "id", VString id);
            (lit "jsonrpc", VString (lit "2.0"));
            (lit "result", result) ].

Definition internalError (id : jsstring) : jsvalue :=
  VObject [ (lit "id", VString id);
            (lit "jsonrpc", VString (lit "2.0"));
            (lit "error",
             VObject [ (lit "code", VNumber (ofZ (-32603)));
                       (lit "message", VString (lit "Internal error")) ]) ].

(** The id of an item. *)
Definition idOf (item : ExampleItem) : jsvalue := Get item (lit "id").

(** [w] is the object that the map step builds at index [j] from the
    object [v], between the heaps [h0] and [h']: a new object (at no
    location of [h0]) whose properties other than metadata are those of
    [v] as they are, so that a reference is copied and not what it refers
    to. Without [include] its metadata property is the one of [v] as well.
    With [include] it refers to another new object, which holds the clock
    reading of index [j], the source, and the other properties of the old
    metadata object as they are. *)
Definition shallowCopy (clock : nat -> jsstring) (include : bool) (j : nat)
  (h0 h' : Store.heap) (v w : Store.svalue) : Prop :=
  exists l ps l0 ps0,
    v = Store.SRef l0 /\ h' !! l0 = Some (Store.CObject ps0)
    /\ w = Store.SRef l /\ h0 !! l = None /\ h' !! l = Some (Store.CObject ps)
    /\ (forall k, k <> lit "metadata" ->
        Store.lookupProperty k ps = Store.lookupProperty k ps0)
    /\ if include then
         exists lm pm,
           Store.lookupProperty (lit "metadata") ps = Store.SRef lm
           /\ h0 !! lm = None /\ h' !! lm = Some (Store.CObject pm)
           /\ Store.lookupProperty (lit "processingTime") pm
              = Store.SString (clock j)
           /\ Store.lookupProperty (lit "source") pm
              = Store.SString (lit "example-data-source")
           /\ forall lm0,
               Store.lookupProperty (lit "metadata") ps0 = Store.SRef lm0 ->
               exists c, h' !! lm0 = Some c
                 /\ forall pm0, c = Store.CObject pm0 ->
                    forall k, k <> lit "processingTime" -> k <> lit "source" ->
                      Store.lookupProperty k pm = Store.lookupProperty k pm0
       else Store.lookupProperty (lit "metadata") ps
            = Store.lookupProperty (lit "metadata") ps0.

End Spec.

(** ** The text of a number: Number::toString and StringToNumber

    [JSON.stringify] writes a finite number with Number::toString
    (ECMA-262 6.1.6.1.20) and [JSON.parse] reads a number literal with
    StringToNumber (7.1.4.1.1). Both are written out here. Two things are
    parameters: the digits that step 5 of Number::toString picks, and the
    rounding of a real number to a double. *)

Module Numbers.
Import JS.

(** The [k] decimal digits of [s], most significant first. *)
Fixpoint digits (k : nat) (s : N) : jsstring :=
  match k with
  | O => []
  | S k' => digits k' (s / 10)%N ++ [(48 + s mod 10)%N]
  end.

Definition zeros (n : nat) : jsstring := replicate n 48%N.

Section ToString.
(** Step 5: the integers [n], [k] and [s] for a positive finite number. *)
Variable choose : Q -> Z * nat * N.

(** Steps 5 to 12 for a positive finite number [x]: plain digits with
    zeros after them, digits around a point, digits after [0.] and zeros,
    or the exponent form. *)
Definition positiveToString (x : Q) : jsstring :=
  let '(n, k, s) := choose x in
  let ds := digits k s in
  if (-5 <=? n) && (n <=? 21) then
    if Z.of_nat k <=? n then ds ++ zeros (Z.to_nat n - k)
    else if 0 <? n then take (Z.to_nat n) ds ++ lit "." ++ drop (Z.to_nat n) ds
    else lit "0." ++ zeros (Z.to_nat (- n)) ++ ds
  else
    let exponent :=
      (if n <? 0 then lit "-" else lit "+") ++ Spec.decimal (Z.abs (n - 1)) in
    if (k =? 1)%nat then ds ++ lit "e" ++ exponent
    else take 1 ds ++ lit "." ++ drop 1 ds ++ lit "e" ++ exponent.

(** Number::toString(x) on a finite number: steps 2 and 3, then the
    positive case. *)
Definition Number_toString (x : Q) : jsstring :=
  if Qeq_bool x 0 then lit "0"
  else if Qle_bool 0 x then positiveToString x
  else lit "-" ++ positiveToString (- x).
End ToString.

Fixpoint spanDigits (s : jsstring) : jsstring * jsstring :=
  match s with
  | [] => ([], [])
  | c :: rest =>
      if JSONParse.isDigit c then
        let '(ds, after) := spanDigits rest in (c :: ds, after)
      else ([], s)
  end.

(** The fraction of a number literal: nothing, or a point and at least
    one digit. *)
Definition fractionPart (s : jsstring) : option (jsstring * jsstring) :=
  match s with
  | c :: rest =>
      if (c =? 46)%N then
        match spanDigits rest with
        | ([], _) => None
        | (fs, after) => Some (fs, after)
        end
      else Some ([], s)
  | [] => Some ([], [])
  end.

(** The exponent of a number literal, which ends the literal: nothing, or
    [e] or [E], an optional sign and at least one digit. *)
Definition exponentPart (s : jsstring) : option Z :=
  match s with
  | [] => Some 0
  | c :: rest =>
      if ((c =? 101) || (c =? 69))%N then
        let '(negative, rest') :=
          match rest with
          | d :: after =>
              if (d =? 45)%N then (true, after)
              else if (d =? 43)%N then (false, after)
              else (false, rest)
          | [] => (false, [])
          end in
        match spanDigits rest' with
        | (e :: es, []) =>
            v ← Spec.digitsValue 0 (e :: es);
            Some (if negative : bool then - Z.of_N v else Z.of_N v)
        | _ => None
        end
      else None
  end.

(** The mathematical value of an unsigned JSON number literal: digits
    without a leading zero, a fraction, an exponent. [None] for any other
    text. *)
Definition unsignedValue (s : jsstring) : option Q :=
  match spanDigits s with
  | ([], _) => None
  | (d :: more, rest) =>
      if (d =? 48)%N && negb (bool_decide (more = [])) then None
      else
        '(fs, rest') ← fractionPart rest;
        exponent ← exponentPart rest';
        v ← Spec.digitsValue 0 ((d :: more) ++ fs);
        Some (inject_Z (Z.of_N v)
              * Qpower (inject_Z 10) (exponent - Z.of_nat (length fs)))%Q
  end.

(** The negative of a number; the negative of zero is negative zero. *)
Definition negate (n : number) : number :=
  match n with
  | NaN => NaN
  | PosInfinity => NegInfinity
  | NegInfinity => PosInfinity
  | Finite q => if Qeq_bool q 0 then NegZero else Finite (- q)
  | NegZero => Finite 0
  end.

Section FromString.
(** The Number value for a real number that is not negative: the nearest
    double, or +Infinity beyond the largest one. *)
Variable round : Q -> number.

(** StringToNumber on a JSON number literal: the rounded value of the
    literal after the sign, and its negative after a minus sign. The value
    is handed to [round] in lowest terms. *)
Definition StringToNumber (token : jsstring) : option number :=
  match token with
  | [] => None
  | c :: rest =>
      if (c =? 45)%N then
        v ← unsignedValue rest; Some (negate (round (Qred v)))
      else
        v ← unsignedValue token; Some (round (Qred v))
  end.
End FromString.

(** What step 5 of Number::toString asks of the digits for a positive
    [x]: [k] digits, the first one not zero, whose value [s] times
    [10^(n-k)] is rounded to [x]. *)
Definition goodDigits (choose : Q -> Z * nat * N) (round : Q -> number) (x : Q)
  : Prop :=
  let '(n, k, s) := choose x in
  (1 <= k)%nat
  /\ (10 ^ N.of_nat (k - 1) <= s < 10 ^ N.of_nat k)%N
  /\ round (Qred (inject_Z (Z.of_N s) * Qpower (inject_Z 10) (n - Z.of_nat k)))
     = Finite x.

(** The doubles of [inDomain] with their digits: zero is [0], rounded to
    itself, and the digits of every other one, or of its negative, are
    good. *)
Definition digitChoice (choose : Q -> Z * nat * N) (round : Q -> number)
  (inDomain : Q -> Prop) : Prop :=
  round 0%Q = Finite 0
  /\ forall x, inDomain x ->
       (x == 0 -> x = 0)%Q
       /\ ((0 < x)%Q -> goodDigits choose round x)
       /\ ((x < 0)%Q -> goodDigits choose round (- x)).

(** Doubles for the examples, with the digits Number::toString picks for
    them; each of them is its own rounding. *)
Definition exampleDigits (x : Q) : Z * nat * N :=
  if Qeq_bool x (5 # 2) then (1, 2%nat, 25%N)
  else if Qeq_bool x 42 then (2, 2%nat, 42%N)
  else if Qeq_bool x (1 # 2) then (0, 1%nat, 5%N)
  else if Qeq_bool x (1 # 1024) then (-3, 7%nat, 9765625%N)
  else if Qeq_bool x 3000 then (4, 1%nat, 3%N)
  else if Qeq_bool x (inject_Z (10 ^ 21)) then (22, 1%nat, 1%N)
  else if Qeq_bool x (inject_Z (125 * 10 ^ 19)) then (22, 3%nat, 125%N)
  else (-6, 14%nat, 95367431640625%N).

Definition exampleDoubles (x : Q) : Prop :=
  x ∈ [ 0%Q; 5 # 2; inject_Z (-42); 1 # 2; 1 # 1024; inject_Z 3000;
        inject_Z (10 ^ 21); inject_Z (125 * 10 ^ 19); 1 # 1048576 ].

End Numbers.

(** * Verification *)

(** ** Built-ins *)

Section Builtins.
Import JS Spec.

Lemma str_eqb_eq (s t : jsstring) : str_eqb s t = true <-> s = t.
Proof.
  revert t; induction s as [|c s IH]; intros [|d t]; simpl; try (split; congruence).
  rewrite andb_true_iff, N.eqb_eq, IH. split; [intros [-> ->]|intros [= -> ->]]; auto.
Qed.

Lemma str_eqb_refl (s : jsstring) : str_eqb s s = true.
Proof. by apply str_eqb_eq. Qed.

Lemma str_eqb_neq (s t : jsstring) : s <> t -> str_eqb s t = false.
Proof.
  intros Hne. destruct (str_eqb s t) eqn:E; [|done].
  by apply str_eqb_eq in E.
Qed.

Lemma startsWith_spec (s p : jsstring) :
  startsWith s p = true <-> exists post, s = p ++ post.
Proof.
  revert s; induction p as [|c p IH]; intros s; simpl.
  - split; [intros _; by exists s|intros _; destruct s; reflexivity].
  - destruct s as [|d s]; simpl.
    + split; [done|intros [post [=]]].
    + rewrite andb_true_iff, N.eqb_eq, IH. split.
      * intros [-> [post ->]]. by exists post.
      * intros [post [= -> ->]]. eauto.
Qed.

Lemma includes_spec (s t : jsstring) :
  includes s t = true <-> occursIn t s.
Proof.
  unfold occursIn. induction s as [|c s IH].
  - cbn [includes]. rewrite orb_false_r, startsWith_spec. split.
    + intros [post ->]. by exists [], post.
    + intros [pre [post E]]. destruct pre; [|done]. eauto.
  - cbn [includes]. rewrite orb_true_iff, startsWith_spec, IH. split.
    + intros [[post ->]|[pre [post ->]]].
      * by exists [], post.
      * by exists (c :: pre), post.
    + intros [[|d pre] [post E]].
      * left. eauto.
      * right. injection E as -> ->. eauto.
Qed.

Lemma mapi_from_length {A B} (f : nat -> A -> B) l i :
  length (mapi_from i f l) = length l.
Proof. revert i; induction l; intros; simpl; auto. Qed.

Lemma mapi_length {A B} (f : nat -> A -> B) l : length (mapi f l) = length l.
Proof. apply mapi_from_length. Qed.

Lemma elem_of_mapi_from {A B} (f : nat -> A -> B) l i y :
  y ∈ mapi_from i f l -> exists j x, x ∈ l /\ y = f j x.
Proof.
  revert i; induction l as [|x l IH]; intros i; simpl.
  - by intros ?%elem_of_nil.
  - intros [->|Hin]%elem_of_cons.
    + exists i, x. split; [left|done].
    + destruct (IH _ Hin) as (j & x' & ? & ?). exists j, x'. split; [by right|done].
Qed.

Lemma elem_of_mapi {A B} (f : nat -> A -> B) l y :
  y ∈ mapi f l -> exists j x, x ∈ l /\ y = f j x.
Proof. apply elem_of_mapi_from. Qed.



Lemma truncate_ofZ (z : Z) : truncate (inject_Z z) = z.
Proof. unfold truncate; simpl. apply Z.quot_1_r. Qed.

Lemma truncate_nonneg (q : Q) : (0 <= q)%Q -> 0 <= truncate q.
Proof.
  unfold Qle, truncate; simpl. intros H. apply Z.quot_pos; lia.
Qed.

Lemma truncate_le (q : Q) : (0 <= q)%Q -> (inject_Z (truncate q) <= q)%Q.
Proof.
  unfold Qle, truncate; simpl. intros H.
  pose proof (Z.mul_quot_le (Qnum q) (Zpos (Qden q))) as Hq. lia.
Qed.

Lemma truncate_ge_1 (q : Q) : (1 <= q)%Q -> 1 <= truncate q.
Proof.
  unfold Qle, truncate; simpl. intros H.
  apply Z.quot_le_lower_bound; lia.
Qed.

Lemma truncate_neg (q : Q) : (q <= -1)%Q -> truncate q <= -1.
Proof.
  unfold Qle, truncate; simpl. intros H.
  rewrite <- (Z.opp_involutive (Qnum q)), Z.quot_opp_l by lia.
  assert (1 <= (- Qnum q) `quot` Z.pos (Qden q)); [|lia].
  apply Z.quot_le_lower_bound; lia.
Qed.

(** [slice(0, end)] keeps a prefix. *)
Lemma slice_0 {A} (arr : list A) (e : number) :
  slice arr (ofZ 0) (Some e)
  = take (Z.to_nat (clampIndex (Z.of_nat (length arr)) (ToIntegerOrInfinity e))) arr.
Proof.
  unfold slice, ofZ. cbn [ToIntegerOrInfinity]. rewrite truncate_ofZ.
  cbn [clampIndex]. change (0 <? 0) with false. cbv iota.
  rewrite Z.min_l by lia. rewrite Z.sub_0_r. change (Z.to_nat 0) with O.
  rewrite drop_0. f_equal.
  destruct (ToIntegerOrInfinity e) as [|z|]; cbn [clampIndex]; [lia| |lia].
  destruct (z <? 0); lia.
Qed.

Lemma slice_0_subseteq {A} (arr : list A) (e : number) :
  slice arr (ofZ 0) (Some e) ⊆ arr.
Proof. rewrite slice_0. apply subseteq_take. Qed.

Lemma Array_filter_pure {A} (callback : A -> completion bool) (p : A -> bool) arr :
  (forall x, x ∈ arr -> callback x = Return (p x)) ->
  Array_filter callback arr = Return (List.filter p arr).
Proof.
  induction arr as [|x arr IH]; intros H; simpl; [done|].
  rewrite (H x) by left. rewrite IH by (intros; apply H; by right).
  simpl. by destruct (p x).
Qed.

Lemma getOwnProperty_define_ne k k' v o :
  k <> k' -> getOwnProperty (defineProperty k' v o) k = getOwnProperty o k.
Proof.
  intros Hne. unfold getOwnProperty. induction o as [|[k0 v0] o IH]; simpl.
  - by rewrite str_eqb_neq.
  - destruct (str_eqb k' k0) eqn:E.
    + apply str_eqb_eq in E as <-. simpl. by rewrite !str_eqb_neq.
    + simpl. destruct (str_eqb k k0); [done|]. apply IH.
Qed.

Lemma getOwnProperty_define_eq k v o :
  getOwnProperty (defineProperty k v o) k = Some v.
Proof.
  unfold getOwnProperty. induction o as [|[k0 v0] o IH]; simpl.
  - by rewrite str_eqb_refl.
  - destruct (str_eqb k k0) eqn:E; simpl.
    + by rewrite str_eqb_refl.
    + by rewrite E.
Qed.

End Builtins.

(** ** The data lookup: [exampleDataOperation] *)

Section DataLookup.
Import JS ExampleTools Spec.

Variable toLowerCase : jsstring -> jsstring.
Variable clock : nat -> jsstring.

Local Abbreviation run := (exampleDataOperation toLowerCase clock).
Local Abbreviation finalize := (withMetadata clock).
Local Abbreviation filteredItems := (Spec.filteredItems toLowerCase).

Lemma matchesCIb_spec f item :
  matchesCIb toLowerCase f item = true <-> matchesCI toLowerCase f item.
Proof.
  unfold matchesCIb, matchesCI, fieldContainsCIb, fieldContainsCI, containsCI.
  rewrite !orb_true_iff.
  assert (forall k,
    match getOwnProperty item k with
    | Some (VString text) => includes (toLowerCase text) (toLowerCase f)
    | _ => false
    end = true
    <-> exists text, getOwnProperty item k = Some (VString text)
                     /\ occursIn (toLowerCase f) (toLowerCase text)) as H.
  { intros k. destruct (getOwnProperty item k) as [[]|];
      try (split; [done|by intros (? & ? & ?)]).
    rewrite includes_spec. split; [eauto|]. by intros (? & [= <-] & ?). }
  rewrite !H. tauto.
Qed.

(** On a fixture item the three property reads yield strings, so the
    filter callback returns, with the boolean of the specification. *)
Lemma matchesFilter_fixture f item :
  item ∈ allItems ->
  matchesFilter toLowerCase f item = Return (matchesCIb toLowerCase f item).
Proof.
  unfold allItems. rewrite !elem_of_cons, elem_of_nil.
  intros [->|[->|[->|[]]]];
    unfold matchesFilter, fieldIncludes, matchesCIb, fieldContainsCIb;
    lazy -[includes]; repeat (destruct (includes _ _); try reflexivity).
Qed.

Lemma fixture_fields item :
  item ∈ allItems ->
  exists t d c,
    getOwnProperty item (lit "title") = Some (VString t)
    /\ getOwnProperty item (lit "description") = Some (VString d)
    /\ getOwnProperty item (lit "category") = Some (VString c).
Proof.
  unfold allItems. rewrite !elem_of_cons, elem_of_nil.
  intros [->|[->|[->|[]]]]; do 3 eexists; repeat split; reflexivity.
Qed.

(** The identifiers of the fixture are pairwise different. *)
Lemma fixture_id_inj x y :
  x ∈ allItems -> y ∈ allItems -> Get x (lit "id") = Get y (lit "id") -> x = y.
Proof.
  unfold allItems. rewrite !elem_of_cons, !elem_of_nil.
  intros [->|[->|[->|[]]]] [->|[->|[->|[]]]]; try reflexivity;
    vm_compute; discriminate.
Qed.

(** The operation always returns, and this is what it returns. *)
Lemma exampleDataOperation_returns input :
  run input =
  Return {| items := mapi (finalize (includeMetadata input))
                       (slice (filteredItems (filter input)) (ofZ 0)
                          (Some (limit input)));
            totalFound := length (filteredItems (filter input));
            filters := input |}.
Proof.
  unfold exampleDataOperation, filteredItems, matching.
  destruct (truthy (filter input)) as [text|]; [|reflexivity].
  rewrite (Array_filter_pure _ (matchesCIb toLowerCase text)); [reflexivity|].
  intros x Hx. by apply matchesFilter_fixture.
Qed.

Lemma filteredItems_fixture f item :
  item ∈ filteredItems f -> item ∈ allItems.
Proof.
  unfold filteredItems, matching. destruct (truthy f); [|done].
  rewrite list_elem_of_In, filter_In, <- list_elem_of_In. tauto.
Qed.

(** The empty text occurs in every string once [toLowerCase] maps the empty
    string to itself. *)
Lemma matchesCI_empty item :
  lowercasesASCII toLowerCase -> item ∈ allItems -> matchesCI toLowerCase [] item.
Proof.
  intros Hlow (t & d & c & Ht & _)%fixture_fields. left. exists t. split; [done|].
  unfold containsCI. rewrite (Hlow []) by constructor. by exists [], (toLowerCase t).
Qed.

Lemma filteredItems_match f text item :
  lowercasesASCII toLowerCase ->
  f = Some text -> item ∈ filteredItems f -> matchesCI toLowerCase text item.
Proof.
  intros Hlow -> Hin. unfold Spec.filteredItems, matching, truthy in Hin.
  destruct text as [|c text].
  - by apply matchesCI_empty.
  - rewrite list_elem_of_In, filter_In in Hin. apply matchesCIb_spec, Hin.
Qed.

Lemma finalize_keeps include i item k :
  k <> lit "metadata" ->
  getOwnProperty (finalize include i item) k = getOwnProperty item k.
Proof. intros. unfold withMetadata. by apply getOwnProperty_define_ne. Qed.

Lemma matchesCI_finalize f include i item :
  matchesCI toLowerCase f (finalize include i item) <-> matchesCI toLowerCase f item.
Proof.
  unfold matchesCI, fieldContainsCI. by rewrite !finalize_keeps.
Qed.

Lemma Get_finalize_false i item k :
  Get (finalize false i item) k = Get item k.
Proof.
  unfold Get, withMetadata.
  destruct (decide (k = lit "metadata")) as [->|Hne].
  - by rewrite getOwnProperty_define_eq.
  - by rewrite getOwnProperty_define_ne.
Qed.

Lemma Get_finalize_id include i item :
  Get (finalize include i item) (lit "id") = Get item (lit "id").
Proof. unfold Get. by rewrite finalize_keeps. Qed.

Lemma elem_of_items L f include item :
  item ∈ mapi (finalize include) (slice (filteredItems f) (ofZ 0) (Some L)) ->
  exists i base, base ∈ filteredItems f /\ item = finalize include i base.
Proof.
  intros (i & base & Hbase & ->)%elem_of_mapi. exists i, base. split; [|done].
  by apply (slice_0_subseteq _ L).
Qed.

Lemma filter_all {A} (p : A -> bool) (l : list A) :
  (forall x, x ∈ l -> p x = true) -> List.filter p l = l.
Proof.
  induction l as [|x l IH]; intros H; simpl; [done|].
  rewrite H by left. f_equal. apply IH. intros; apply H. by right.
Qed.

Lemma matching_empty_text :
  lowercasesASCII toLowerCase -> matching toLowerCase (Some []) = allItems.
Proof.
  intros Hlow. unfold matching. apply filter_all.
  intros item Hin. apply matchesCIb_spec. by apply matchesCI_empty.
Qed.

(** Every fixture item contains the text "sample". *)
Lemma sample_matches_all :
  lowercasesASCII toLowerCase -> filteredItems (Some (lit "sample")) = allItems.
Proof.
  intros Hlow. unfold Spec.filteredItems. cbn [truthy lit String.list_ascii_of_string List.map].
  unfold matching. apply filter_all. unfold allItems.
  intros item. rewrite !elem_of_cons, elem_of_nil.
  intros [->|[->|[->|[]]]]; unfold matchesCIb, fieldContainsCIb; lazy -[includes];
    rewrite !Hlow by (apply (bool_decide_unpack _); vm_compute; reflexivity);
    vm_compute; reflexivity.
Qed.

(** The truthiness test changes nothing in what matches: the empty text
    matches every item, as no filter does. *)
Lemma filteredItems_matching f :
  lowercasesASCII toLowerCase -> filteredItems f = matching toLowerCase f.
Proof.
  intros Hlow. unfold Spec.filteredItems. destruct f as [[|c text]|]; simpl; try done.
  symmetry. by apply matching_empty_text.
Qed.

End DataLookup.

(** ** The claims about the data lookup *)

Section DataLookupClaims.
Import JS ExampleTools Spec.

Variable toLowerCase : jsstring -> jsstring.
Variable clock : nat -> jsstring.

Local Abbreviation run := (exampleDataOperation toLowerCase clock).
Local Abbreviation finalize := (withMetadata clock).

(** C1. With a filter text [F], every returned item has a title, a
    description or a category that contains [F] as a case-insensitive
    substring, and a fixture item that does not match [F] is not among the
    returned items (no returned item carries its id). Without a filter the
    returned items are the fixture items in order, cut after the limit,
    each passed through the metadata step. *)
Theorem filter_keeps_exactly_the_matches :
  lowercasesASCII toLowerCase ->
  (forall L F include, exists r,
      run {| limit := L; filter := Some F; includeMetadata := include |} = Return r
      /\ (forall item, item ∈ items r -> matchesCI toLowerCase F item)
      /\ (forall fx, fx ∈ allItems -> ~ matchesCI toLowerCase F fx ->
          forall item, item ∈ items r -> Get item (lit "id") <> Get fx (lit "id")))
  /\ (forall q include, (0 <= q)%Q -> exists r,
      run {| limit := Finite q; filter := None; includeMetadata := include |} = Return r
      /\ items r = mapi (finalize include) (take (Z.to_nat (truncate q)) allItems)).
Proof.
  intros Hlow. split.
  - intros L F include. eexists. split; [apply exampleDataOperation_returns|].
    cbn [items filter limit includeMetadata]. split.
    + intros item (i & base & Hbase & ->)%elem_of_items.
      apply matchesCI_finalize. by eapply filteredItems_match.
    + intros fx Hfx Hno item (i & base & Hbase & ->)%elem_of_items.
      cbn [filter includeMetadata] in *. rewrite Get_finalize_id. intros Hid.
      apply Hno. apply fixture_id_inj in Hid as <-; [|by eapply filteredItems_fixture|done].
      by eapply filteredItems_match.
  - intros q include Hq. eexists. split; [apply exampleDataOperation_returns|].
    cbn [items filter limit includeMetadata]. f_equal.
    rewrite slice_0. cbn. pose proof (truncate_nonneg q Hq).
    destruct (truncate q <? 0) eqn:E; [lia|].
    destruct (decide (truncate q <= 3)).
    + do 2 f_equal. lia.
    + rewrite !take_ge; [done|simpl; lia|simpl; lia].
Qed.

(** C2. A limit [L] in [1,100] passes the schema of [get_data] unchanged,
    and the operation then returns at most [L] items. *)
Theorem valid_limit_bounds_items (q : Q) (f : option jsstring) (include : bool) :
  validLimit q ->
  Server.getDataSchema [(lit "limit", VNumber (Finite q))]
  = Some {| Server.limit := Finite q; Server.filter := None;
            Server.includeMetadata := false; Server.outputMode := Formatter.json |}
  /\ exists r,
      run {| limit := Finite q; filter := f; includeMetadata := include |} = Return r
      /\ (inject_Z (Z.of_nat (length (items r))) <= q)%Q.
Proof.
  intros [Hlo Hhi]. split.
  - unfold Server.getDataSchema.
    change (Get [(lit "limit", VNumber (Finite q))] (lit "limit"))
      with (VNumber (Finite q)).
    cbn [Server.limitSchema]. apply Qle_bool_iff in Hlo, Hhi.
    rewrite Hlo, Hhi. reflexivity.
  - eexists. split; [apply exampleDataOperation_returns|].
    cbn [items filter limit includeMetadata].
    rewrite mapi_length, slice_0, length_take. cbn [ToIntegerOrInfinity clampIndex].
    pose proof (truncate_ge_1 q Hlo).
    destruct (truncate q <? 0) eqn:E; [lia|].
    eapply Qle_trans; [|apply truncate_le; eapply Qle_trans; [|exact Hlo]; done].
    rewrite <- Zle_Qle. lia.
Qed.

(** C3. [totalFound] is the number of fixture items that match the filter,
    counted before the cut, whatever the limit. *)
Theorem totalFound_counts_all_matches (L : number) (f : option jsstring)
  (include : bool) :
  lowercasesASCII toLowerCase ->
  exists r,
    run {| limit := L; filter := f; includeMetadata := include |} = Return r
    /\ totalFound r = length (matching toLowerCase f)
    /\ forall L', exists r',
        run {| limit := L'; filter := f; includeMetadata := include |} = Return r'
        /\ totalFound r' = totalFound r.
Proof.
  intros Hlow. eexists. split; [apply exampleDataOperation_returns|].
  cbn [totalFound filter]. split; [by rewrite filteredItems_matching|].
  intros L'. eexists. split; [apply exampleDataOperation_returns|]. done.
Qed.

(** C8. With [includeMetadata = false] every returned item reads, at every
    property and so at [metadata], exactly as one of the fixture items, and
    its metadata has no [processingTime] and no [source] field. *)
Theorem no_metadata_synthesized (L : number) (f : option jsstring) :
  exists r,
    run {| limit := L; filter := f; includeMetadata := false |} = Return r
    /\ forall item, item ∈ items r ->
        (exists fx, fx ∈ allItems
                    /\ Get item (lit "metadata") = Get fx (lit "metadata")
                    /\ forall k, Get item k = Get fx k)
        /\ forall m, Get item (lit "metadata") = VObject m ->
             getOwnProperty m (lit "processingTime") = None
             /\ getOwnProperty m (lit "source") = None.
Proof.
  eexists. split; [apply exampleDataOperation_returns|].
  intros item (i & base & Hbase%filteredItems_fixture & ->)%elem_of_items.
  cbn [includeMetadata]. split.
  - exists base. split; [done|]. split; [|intros k]; apply Get_finalize_false.
  - intros m. rewrite Get_finalize_false. revert Hbase. unfold allItems.
    rewrite !elem_of_cons, elem_of_nil.
    intros [->|[->|[->|[]]]]; vm_compute; intros [= <-]; done.
Qed.

(** C10. The operation returns for every input, with [totalFound] the
    length of the filtered list. With limit 0 the items are empty. With a
    limit of at most -1 the items are the filtered list without its last
    [|truncate limit|] elements ([|limit|] for an integer limit). *)
Theorem operation_is_total_on_any_limit :
  (forall input, exists r,
      run input = Return r
      /\ totalFound r = length (filteredItems toLowerCase (filter input)))
  /\ (forall f include, exists r,
      run {| limit := ofZ 0; filter := f; includeMetadata := include |} = Return r
      /\ items r = [])
  /\ (forall q f include, (q <= -1)%Q -> exists r,
      run {| limit := Finite q; filter := f; includeMetadata := include |} = Return r
      /\ items r =
           mapi (finalize include)
             (take (length (filteredItems toLowerCase f)
                    - Z.to_nat (Z.abs (truncate q)))
                (filteredItems toLowerCase f))
      /\ totalFound r = length (filteredItems toLowerCase f)).
Proof.
  split; [|split].
  - intros input. eexists. split; [apply exampleDataOperation_returns|done].
  - intros f include. eexists. split; [apply exampleDataOperation_returns|].
    cbn [items filter limit includeMetadata]. rewrite slice_0.
    unfold ofZ. cbn [ToIntegerOrInfinity]. rewrite truncate_ofZ. cbn [clampIndex].
    change (0 <? 0) with false. cbv iota. rewrite Z.min_l by lia. done.
  - intros q f include Hq. eexists. split; [apply exampleDataOperation_returns|].
    cbn [items filter limit includeMetadata totalFound]. split; [|done].
    rewrite slice_0. cbn [ToIntegerOrInfinity clampIndex].
    pose proof (truncate_neg q Hq).
    destruct (truncate q <? 0) eqn:E; [|lia]. do 2 f_equal. lia.
Qed.

End DataLookupClaims.

Section SampleQuery.
Import JS ExampleTools Spec.

(** C4, as stated, fails: the query for "sample" with limit 2 does not
    report two matches. *)
Lemma sample_query_totalFound_is_not_2 :
  ~ exists r,
      exampleDataOperation toLowerCaseASCII noon
        {| limit := ofZ 2; filter := Some (lit "sample"); includeMetadata := false |}
      = Return r
      /\ (length (items r) <= 2)%nat /\ totalFound r = 2%nat.
Proof.
  intros (r & Hr & _ & Hfound). vm_compute in Hr. injection Hr as <-.
  vm_compute in Hfound. discriminate.
Qed.

(** C4, amended. All three fixture items contain "sample": the query with
    limit 2 returns at most 2 items (the first two) and [totalFound = 3]. *)
Theorem sample_query_finds_three (toLowerCase : jsstring -> jsstring)
  (clock : nat -> jsstring) (include : bool) :
  lowercasesASCII toLowerCase ->
  exists r,
    exampleDataOperation toLowerCase clock
      {| limit := ofZ 2; filter := Some (lit "sample"); includeMetadata := include |}
    = Return r
    /\ (length (items r) <= 2)%nat
    /\ totalFound r = 3%nat
    /\ (fun item => Get item (lit "id")) <$> items r
       = [VString (lit "1"); VString (lit "2")].
Proof.
  intros Hlow. eexists. split; [apply exampleDataOperation_returns|].
  cbn [items filter limit includeMetadata totalFound].
  rewrite (sample_matches_all _ Hlow).
  split; [|split]; [rewrite mapi_length, slice_0, length_take; vm_compute; lia|done|].
  destruct include; vm_compute; reflexivity.
Qed.

Lemma sample_query_finds_three_witness :
  lowercasesASCII toLowerCaseASCII
  /\ exists r,
      exampleDataOperation toLowerCaseASCII noon
        {| limit := ofZ 2; filter := Some (lit "sample"); includeMetadata := true |}
      = Return r
      /\ (length (items r) <= 2)%nat
      /\ totalFound r = 3%nat
      /\ (fun item => Get item (lit "id")) <$> items r
         = [VString (lit "1"); VString (lit "2")].
Proof.
  assert (lowercasesASCII toLowerCaseASCII) as H by (intros s _; reflexivity).
  split; [exact H|]. exact (sample_query_finds_three toLowerCaseASCII noon true H).
Defined.

End SampleQuery.

Section DataLookupWitnesses.
Import JS ExampleTools Spec.

Lemma toLowerCaseASCII_lowercases : lowercasesASCII toLowerCaseASCII.
Proof. intros s _. reflexivity. Qed.

Lemma valid_limit_2 : validLimit 2.
Proof. split; unfold Qle; simpl; lia. Qed.

Lemma filter_keeps_exactly_the_matches_witness :
  lowercasesASCII toLowerCaseASCII
  /\ (exists r,
        exampleDataOperation toLowerCaseASCII noon
          {| limit := ofZ 10; filter := Some (lit "DEMO"); includeMetadata := false |}
        = Return r
        /\ forall item, item ∈ items r -> matchesCI toLowerCaseASCII (lit "DEMO") item)
  /\ (0 <= 2)%Q
  /\ exists r,
        exampleDataOperation toLowerCaseASCII noon
          {| limit := Finite 2; filter := None; includeMetadata := false |}
        = Return r
        /\ items r = mapi (withMetadata noon false) (take 2 allItems).
Proof.
  pose proof (filter_keeps_exactly_the_matches toLowerCaseASCII noon
                toLowerCaseASCII_lowercases) as [Hfilter Hnone].
  split; [exact toLowerCaseASCII_lowercases|]. split.
  - destruct (Hfilter (ofZ 10) (lit "DEMO") false) as (r & Hr & Hm & _).
    exists r. split; assumption.
  - assert (0 <= 2)%Q as Hq by (unfold Qle; simpl; lia).
    split; [exact Hq|]. exact (Hnone 2%Q false Hq).
Defined.

Lemma valid_limit_bounds_items_witness :
  validLimit 2
  /\ Server.getDataSchema [(lit "limit", VNumber (Finite 2))]
     = Some {| Server.limit := Finite 2; Server.filter := None;
               Server.includeMetadata := false;
               Server.outputMode := Formatter.json |}
  /\ exists r,
      exampleDataOperation toLowerCaseASCII noon
        {| limit := Finite 2; filter := None; includeMetadata := true |} = Return r
      /\ (inject_Z (Z.of_nat (length (items r))) <= 2)%Q.
Proof.
  split; [exact valid_limit_2|].
  exact (valid_limit_bounds_items toLowerCaseASCII noon 2%Q None true valid_limit_2).
Defined.

Lemma totalFound_counts_all_matches_witness :
  lowercasesASCII toLowerCaseASCII
  /\ exists r,
      exampleDataOperation toLowerCaseASCII noon
        {| limit := ofZ 1; filter := Some (lit "demo"); includeMetadata := false |}
      = Return r
      /\ totalFound r = length (matching toLowerCaseASCII (Some (lit "demo")))
      /\ forall L', exists r',
          exampleDataOperation toLowerCaseASCII noon
            {| limit := L'; filter := Some (lit "demo"); includeMetadata := false |}
          = Return r'
          /\ totalFound r' = totalFound r.
Proof.
  split; [exact toLowerCaseASCII_lowercases|].
  exact (totalFound_counts_all_matches toLowerCaseASCII noon (ofZ 1)
           (Some (lit "demo")) false toLowerCaseASCII_lowercases).
Defined.

Lemma operation_is_total_on_any_limit_witness :
  (-3 <= -1)%Q
  /\ exists r,
      exampleDataOperation toLowerCaseASCII noon
        {| limit := Finite (-3); filter := None; includeMetadata := false |} = Return r
      /\ items r = []
      /\ totalFound r = 3%nat.
Proof.
  assert (-3 <= -1)%Q as Hq by (unfold Qle; simpl; lia).
  split; [exact Hq|].
  destruct (operation_is_total_on_any_limit toLowerCaseASCII noon) as (_ & _ & Hneg).
  destruct (Hneg (-3)%Q None false Hq) as (r & Hr & Hitems & Hfound).
  exists r. split; [exact Hr|]. split; [exact Hitems|exact Hfound].
Defined.

End DataLookupWitnesses.

(** ** The handlers of [server.ts] *)

Section Handlers.
Import JS ExampleTools Formatter Server Spec.

Lemma split_first_no_sep (sep : N) (s : jsstring) :
  sep ∉ firstPart (split sep s).
Proof.
  induction s as [|c s IH]; simpl.
  - apply not_elem_of_nil.
  - destruct (N.eqb_spec c sep) as [->|Hne]; simpl; [apply not_elem_of_nil|].
    destruct (split sep s) as [|p ps]; simpl in *.
    + rewrite elem_of_cons, elem_of_nil. intros [<-|[]]; done.
    + rewrite elem_of_cons. intros [<-|?]; done.
Qed.

Lemma split_nonempty (sep : N) (s : jsstring) : split sep s <> [].
Proof.
  destruct s as [|c s]; simpl; [done|].
  destruct (c =? sep)%N; [done|]. by destruct (split sep s).
Qed.

Lemma split_no_sep (sep : N) (s : jsstring) : sep ∉ s -> split sep s = [s].
Proof.
  induction s as [|c s IH]; simpl; [done|].
  rewrite not_elem_of_cons. intros [Hc Hs].
  destruct (N.eqb_spec c sep) as [->|_]; [done|]. by rewrite IH.
Qed.

Lemma split_app (sep : N) (s t : jsstring) :
  sep ∉ s -> split sep (s ++ sep :: t) = s :: split sep t.
Proof.
  induction s as [|c s IH]; simpl.
  - intros _. by rewrite N.eqb_refl.
  - rewrite not_elem_of_cons. intros [Hc Hs].
    destruct (N.eqb_spec c sep) as [->|_]; [done|]. by rewrite IH.
Qed.

(** Splitting at the separator undoes joining pieces that are free of it. *)
Lemma split_join (sep : N) (pieces : list jsstring) :
  pieces <> [] -> Forall (fun p => sep ∉ p) pieces ->
  split sep (join [sep] pieces) = pieces.
Proof.
  induction pieces as [|p [|p' rest] IH]; intros Hne Hall; [done| |].
  - simpl. apply split_no_sep. by inversion Hall.
  - change (join [sep] (p :: p' :: rest)) with (p ++ sep :: join [sep] (p' :: rest)).
    inversion Hall; subst. rewrite split_app by done. f_equal. by apply IH.
Qed.


Lemma includes_head_absent (s t : jsstring) (c : N) :
  c ∉ s -> includes s (c :: t) = false.
Proof.
  induction s as [|d s IH]; [done|].
  rewrite not_elem_of_cons. intros [Hne Hs]. cbn [includes startsWith].
  rewrite IH by done. destruct (N.eqb_spec c d); [done|]. done.
Qed.


Lemma firstPart_split_app (sep : N) (s t : jsstring) :
  sep ∉ s -> firstPart (split sep (s ++ [sep] ++ t)) = s.
Proof. intros H. simpl. by rewrite split_app. Qed.

End Handlers.

Section HandlerClaims.
Import JS ExampleTools Formatter Server Spec.

(** C7. With the selector [date] the report starts with a line
    "Current date: ..." and the text "Timezone:" occurs nowhere in it. With
    no argument the schema selects [all], and for a timestamp
    [day ++ "T" ++ time] and a time zone without line breaks the report
    consists of exactly six lines: date, full timestamp, time zone, version,
    an empty line and the guidance sentence. *)
Theorem system_info_report (iso tz : jsstring) :
  (exists report,
      get_system_info (Return iso) (Return tz) InfoDate
      = Return (textEnvelope (Some report))
      /\ (exists line rest, split 10 report = line :: rest
                            /\ startsWith line (lit "Current date:") = true)
      /\ includes report (lit "Timezone:") = false)
  /\ infoSchema VUndefined = Some InfoAll
  /\ (forall day time,
      iso = day ++ lit "T" ++ time -> 84%N ∉ day -> 10%N ∉ iso -> 10%N ∉ tz ->
      exists report,
        get_system_info (Return iso) (Return tz) InfoAll
        = Return (textEnvelope (Some report))
        /\ split 10 report =
             [ lit "Current date: " ++ day;
               lit "Current time: " ++ iso;
               lit "Timezone: " ++ tz;
               lit "Server version: 0.1.0";
               [];
               lit "Use this information for date filtering and context." ]).
Proof.
  split; [|split; [reflexivity|]].
  - eexists. split; [reflexivity|]. split.
    + destruct (split 10 (lit "Current date: " ++ firstPart (split 84 iso)))
        as [|line rest] eqn:E; [by apply split_nonempty in E|].
      exists line, rest. split; [done|].
      assert (line = firstPart (split 10 (lit "Current date: "
                                           ++ firstPart (split 84 iso)))) as ->
        by (by rewrite E).
      clear E. generalize (firstPart (split 84 iso)). intros d.
      change (lit "Current date: " ++ d)
        with (lit "Current date:" ++ 32%N :: d).
      set (tail := 32%N :: d). clearbody tail.
      vm_compute (lit "Current date:"). cbn [app split N.eqb Pos.eqb].
      destruct (split 10 tail); reflexivity.
    + apply includes_head_absent. rewrite not_elem_of_app. split.
      * apply (bool_decide_unpack _); vm_compute; reflexivity.
      * apply split_first_no_sep.
  - intros day time -> Hday Hiso Htz. eexists. split; [reflexivity|].
    cbn [mbind completion_bind]. rewrite firstPart_split_app by done.
    apply split_join; [done|].
    rewrite !not_elem_of_app in Hiso. destruct Hiso as (? & ? & ?).
    repeat apply Forall_cons_2; try apply Forall_nil_2;
      rewrite ?not_elem_of_app; repeat split; try assumption;
      apply (bool_decide_unpack _); vm_compute; reflexivity.
Qed.

Lemma system_info_report_witness :
  exists report,
    get_system_info (Return (lit "2024-06-01T12:00:00.000Z"))
      (Return (lit "Europe/Berlin")) InfoAll
    = Return (textEnvelope (Some report))
    /\ split 10 report =
         [ lit "Current date: 2024-06-01";
           lit "Current time: 2024-06-01T12:00:00.000Z";
           lit "Timezone: Europe/Berlin";
           lit "Server version: 0.1.0";
           [];
           lit "Use this information for date filtering and context." ].
Proof.
  destruct (system_info_report (lit "2024-06-01T12:00:00.000Z")
              (lit "Europe/Berlin")) as (_ & _ & Hall).
  refine (Hall (lit "2024-06-01") (lit "12:00:00.000Z") eq_refl _ _ _);
    apply (bool_decide_unpack _); vm_compute; reflexivity.
Defined.

(** C5, as stated, fails for [get_system_info]: its handler has no
    [try]/[catch], so a raise while it runs is not turned into an envelope. *)
Lemma get_system_info_does_not_catch :
  ~ forall (toISOString resolvedTimeZone : completion jsstring) info e,
      (toISOString = Throw e
       \/ exists iso, toISOString = Return iso /\ resolvedTimeZone = Throw e) ->
      get_system_info toISOString resolvedTimeZone info
      = Return (textEnvelope (Some (errorText e))).
Proof.
  intros H.
  specialize (H (Return (lit "2024-06-01T12:00:00.000Z"))
                (Throw (ErrorInstance (lit "time zone unavailable")))
                InfoTimezone (ErrorInstance (lit "time zone unavailable"))).
  discriminate H. right. eexists. split; reflexivity.
Qed.

(** C5, amended. [get_data]: a raise inside the [try] block, be it of the
    awaited operation or of the formatter, is caught; the handler returns
    one text block "Error: " followed by the message of an [Error]
    instance or by "Unknown error occurred" for any other raised value; so
    the handler returns in every case, one block of type "text".
    [get_system_info]: no catch; it returns one text block when
    [toISOString] and the time zone lookup return, and it raises exactly
    what the first of them to raise has raised. *)
Theorem handler_raise_translation (numberToString : Q -> jsstring)
  (operation : DataOperationInput -> completion OperationResult)
  (input : GetDataInput) :
  (forall e, get_data_try numberToString operation input = Throw e ->
      get_data_handler numberToString operation input
      = Return {| content := [ {| type := lit "text";
                                  text := Some (errorText e) |} ] |})
  /\ (forall message, errorText (ErrorInstance message) = lit "Error: " ++ message)
  /\ (forall v, errorText (OtherValue v) = lit "Error: Unknown error occurred")
  /\ (forall e,
      operation {| ExampleTools.limit := Server.limit input;
                   ExampleTools.filter := Server.filter input;
                   ExampleTools.includeMetadata := Server.includeMetadata input |}
      = Throw e ->
      get_data_try numberToString operation input = Throw e)
  /\ (exists block,
      get_data_handler numberToString operation input
      = Return {| content := [block] |} /\ type block = lit "text")
  /\ (forall iso tz info, exists report,
      get_system_info (Return iso) (Return tz) info
      = Return {| content := [ {| type := lit "text"; text := Some report |} ] |})
  /\ (forall toISOString resolvedTimeZone info e,
      get_system_info toISOString resolvedTimeZone info = Throw e
      <-> (toISOString = Throw e
           \/ exists iso, toISOString = Return iso /\ resolvedTimeZone = Throw e)).
Proof.
  split_and!.
  - intros e Hthrow. unfold get_data_handler. by rewrite Hthrow.
  - done.
  - done.
  - intros e Hthrow. unfold get_data_try. by rewrite Hthrow.
  - unfold get_data_handler.
    destruct (get_data_try numberToString operation input) as [env|e] eqn:E.
    + unfold get_data_try in E.
      destruct (operation _); [|done]. cbn in E.
      destruct (formatResponse _ _ _); [|done]. injection E as <-.
      eexists. split; reflexivity.
    + eexists. split; reflexivity.
  - intros. eexists. reflexivity.
  - intros toISOString resolvedTimeZone info e. split.
    + destruct toISOString as [iso|e1]; cbn.
      * destruct resolvedTimeZone as [tz|e2]; cbn; [done|].
        intros [= ->]. right. eauto.
      * intros [= ->]. by left.
    + intros [->|(iso & -> & ->)]; reflexivity.
Qed.

Lemma handler_raise_translation_witness :
  let failing : DataOperationInput -> completion OperationResult :=
    fun _ => Throw (ErrorInstance (lit "Database unavailable")) in
  let input := {| Server.limit := ofZ 10; Server.filter := None;
                  Server.includeMetadata := false; outputMode := json |} in
  get_data_try integerToString failing input
  = Throw (ErrorInstance (lit "Database unavailable"))
  /\ get_data_handler integerToString failing input
     = Return {| content := [ {| type := lit "text";
                                 text := Some (lit "Error: Database unavailable") |} ] |}.
Proof.
  intros failing input. split; [reflexivity|].
  destruct (handler_raise_translation integerToString failing input) as (Hcatch & _).
  exact (Hcatch (ErrorInstance (lit "Database unavailable")) eq_refl).
Defined.

End HandlerClaims.

(** ** The store model refines to the value model *)

Section StoreRefinement.
Import JS Store.

Lemma represents_array h Vs v :
  represents h (VArray Vs) v
  <-> exists l vs, v = SRef l /\ h !! l = Some (CArray vs)
                   /\ Forall2 (represents h) Vs vs.
Proof.
  cbn [represents]. apply exist_proper; intros l. apply exist_proper; intros vs.
  do 2 (apply and_iff_compat_l).
  match goal with |- ?f _ _ <-> _ => set (each := f) end.
  revert vs. induction Vs as [|V Vs IH]; intros [|v' vs]; cbn;
    try (split; [done|by inversion 1]).
  rewrite IH. split; [intros []; by constructor|by inversion 1].
Qed.

Lemma represents_object h Ps v :
  represents h (VObject Ps) v
  <-> exists l ps, v = SRef l /\ h !! l = Some (CObject ps)
                   /\ representsProps h Ps ps.
Proof.
  cbn [represents]. apply exist_proper; intros l. apply exist_proper; intros ps.
  do 2 (apply and_iff_compat_l). unfold representsProps.
  match goal with |- ?f _ _ <-> _ => set (each := f) end.
  revert ps. induction Ps as [|[K V] Ps IH]; intros [|[k v'] ps]; cbn;
    try (split; [done|by inversion 1]).
  rewrite IH. split.
  - intros (? & ? & ?). by constructor.
  - inversion 1 as [|???? [??]]; subst. done.
Qed.

(** What a value reads as does not change when the heap grows. *)
Lemma represents_weaken h h' V v :
  h ⊆ h' -> represents h V v -> represents h' V v.
Proof.
  intros Hsub. revert v.
  induction V using jsvalue_nested_ind; intros v; try done.
  - rewrite !represents_array. intros (l & vs & -> & Hl & Hall).
    exists l, vs. split; [done|]. split; [by eapply lookup_weaken|].
    clear Hl. induction Hall as [|V v Vs vs HV _ IH]; [constructor|].
    inversion H; subst. constructor; auto.
  - rewrite !represents_object. intros (l & ps & -> & Hl & Hall).
    exists l, ps. split; [done|]. split; [by eapply lookup_weaken|].
    clear Hl. unfold representsProps in *.
    induction Hall as [|P p Ps ps [HK HV] _ IH]; [constructor|].
    inversion H; subst. constructor; auto.
Qed.

Lemma representsProps_weaken h h' Ps ps :
  h ⊆ h' -> representsProps h Ps ps -> representsProps h' Ps ps.
Proof.
  intros Hsub Hall. eapply Forall2_impl; [exact Hall|]. intros P p [? ?].
  split; [done|]. by eapply represents_weaken.
Qed.

Lemma Forall2_represents_weaken h h' Vs vs :
  h ⊆ h' -> Forall2 (represents h) Vs vs -> Forall2 (represents h') Vs vs.
Proof.
  intros Hsub Hall. eapply Forall2_impl; [exact Hall|].
  intros. by eapply represents_weaken.
Qed.

(** *** Rules for [returns] *)

Lemma returns_ret {A} (a : A) h (Q : A -> heap -> Prop) :
  Q a h -> returns (mret a) h Q.
Proof. intros HQ. by exists a, h. Qed.

Lemma returns_bind {A B} (m : M A) (k : A -> M B) h
  (Q : A -> heap -> Prop) (R : B -> heap -> Prop) :
  returns m h Q ->
  (forall a h', h ⊆ h' -> Q a h' -> returns (k a) h' R) ->
  returns (m ≫= k) h R.
Proof.
  intros (a & h1 & Hm & Hsub & HQ) Hk.
  destruct (Hk a h1 Hsub HQ) as (b & h2 & Hk' & Hsub' & HR).
  exists b, h2. split; [|split; [by etrans|done]].
  unfold mbind, M_bind. by rewrite Hm.
Qed.


Lemma returns_alloc c h :
  returns (alloc c) h (fun l h' => h !! l = None /\ h' = <[l := c]> h).
Proof.
  assert (h !! fresh (dom h) = None) as Hfresh
    by (apply not_elem_of_dom, is_fresh).
  eexists _, _. split; [reflexivity|]. split; [by apply insert_subseteq|done].
Qed.

(** An assignment that changes an object is not covered by [returns]. *)
Lemma write_is_not_framed l c c' h (Q : unit -> heap -> Prop) :
  h !! l = Some c -> c <> c' -> ~ returns (write l c') h Q.
Proof.
  intros Hl Hne (u & h' & Hwrite & Hsub & _).
  unfold write in Hwrite. rewrite Hl in Hwrite. injection Hwrite as _ Hh'.
  subst h'. pose proof (lookup_weaken _ _ _ _ Hl Hsub) as Hkept.
  unfold heap, loc in *. rewrite lookup_insert_eq in Hkept. by injection Hkept as ->.
Qed.

Lemma returns_read l c h :
  h !! l = Some c -> returns (read l) h (fun c' h' => c' = c /\ h' = h).
Proof. intros Hl. exists c, h. unfold read. by rewrite Hl. Qed.

Lemma returns_newObject h Ps ps :
  representsProps h Ps ps ->
  returns (newObject ps) h (fun v h' => represents h' (VObject Ps) v).
Proof.
  intros Hps. eapply returns_bind; [apply returns_alloc|].
  intros l h' Hsub [Hl ->]. apply returns_ret.
  apply represents_object. exists l, ps. split; [done|].
  split; [apply lookup_insert_eq|]. by eapply representsProps_weaken.
Qed.

Lemma returns_newArray h Vs vs :
  Forall2 (represents h) Vs vs ->
  returns (newArray vs) h (fun v h' => represents h' (VArray Vs) v).
Proof.
  intros Hvs. eapply returns_bind; [apply returns_alloc|].
  intros l h' Hsub [Hl ->]. apply returns_ret.
  apply represents_array. exists l, vs. split; [done|].
  split; [apply lookup_insert_eq|]. by eapply Forall2_represents_weaken.
Qed.

Lemma returns_elements h Vs v :
  represents h (VArray Vs) v ->
  returns (elements v) h (fun vs h' => h' = h /\ Forall2 (represents h) Vs vs).
Proof.
  intros (l & vs & -> & Hl & Hall)%represents_array. cbn [elements].
  eapply returns_bind; [by apply returns_read|].
  intros c h' _ [-> ->]. by apply returns_ret.
Qed.

Lemma represents_lookupProperty h Ps ps k :
  representsProps h Ps ps -> represents h (Get Ps k) (lookupProperty k ps).
Proof.
  unfold Get, getOwnProperty, lookupProperty.
  induction 1 as [|[K V] [k' v] Ps ps [HK HV] _ IH]; [done|].
  simpl in *. subst k'. by destruct (str_eqb k K).
Qed.

Lemma representsProps_define h Ps ps k V v :
  representsProps h Ps ps -> represents h V v ->
  representsProps h (JS.defineProperty k V Ps) (Store.defineProperty k v ps).
Proof.
  intros Hall HV. induction Hall as [|[K V'] [k' v'] Ps ps [HK HV'] Hall IH]; simpl in *.
  - by repeat constructor.
  - subst k'. destruct (str_eqb k K); by constructor.
Qed.

Lemma representsProps_mapi {A B} h (F : nat -> A -> jsstring * jsvalue)
  (f : nat -> B -> jsstring * svalue) (R : A -> B -> Prop) Xs xs i :
  (forall j X x, R X x ->
     fst (F j X) = fst (f j x) /\ represents h (snd (F j X)) (snd (f j x))) ->
  Forall2 R Xs xs ->
  representsProps h (mapi_from i F Xs) (mapi_from i f xs).
Proof.
  intros HF Hall. revert i. unfold representsProps.
  induction Hall as [|X x Xs xs HR _ IH]; intros i; simpl; [constructor|].
  constructor; [by apply HF|apply IH].
Qed.

Lemma returns_getProperty h Ps v k :
  represents h (VObject Ps) v ->
  returns (getProperty v k) h
    (fun w h' => h' = h /\ represents h (Get Ps k) w).
Proof.
  intros (l & ps & -> & Hl & Hall)%represents_object. cbn [getProperty].
  eapply returns_bind; [by apply returns_read|].
  intros c h' _ [-> ->]. apply returns_ret.
  split; [done|]. by apply represents_lookupProperty.
Qed.

Lemma returns_spread h V v :
  represents h V v ->
  returns (Store.spread v) h
    (fun ps h' => h' = h /\ representsProps h (JS.spread V) ps).
Proof.
  destruct V; try (intros ->; apply returns_ret; split; [done|constructor]).
  - intros ->. apply returns_ret. split; [done|].
    apply (representsProps_mapi h _ _ eq); [by intros j X x ->|].
    by apply list_eq_Forall2.
  - intros (l & vs & -> & Hl & Hall)%represents_array. cbn [Store.spread].
    eapply returns_bind; [by apply returns_read|].
    intros c h' _ [-> ->]. apply returns_ret. split; [done|].
    by apply (representsProps_mapi h _ _ (represents h)).
  - intros (l & ps & -> & Hl & Hall)%represents_object. cbn [Store.spread].
    eapply returns_bind; [by apply returns_read|].
    intros c h' _ [-> ->]. by apply returns_ret.
Qed.

Lemma returns_reads {A} (m : M A) h (Q : A -> heap -> Prop) :
  returns m h (fun a h' => h' = h /\ Q a h) -> exists a, reads m h a /\ Q a h.
Proof. intros (a & h' & Hm & _ & -> & HQ). by exists a. Qed.

End StoreRefinement.

Section StoreOperation.
Import JS Store.

Variable toLowerCase : jsstring -> jsstring.
Variable clock : nat -> jsstring.

Lemma reads_bind {A B} (m : M A) (k : A -> M B) h a b :
  reads m h a -> reads (k a) h b -> reads (m ≫= k) h b.
Proof. unfold reads, mbind, M_bind. by intros ->. Qed.

Lemma reads_getProperty h Ps v k :
  represents h (VObject Ps) v ->
  exists w, reads (getProperty v k) h w /\ represents h (Get Ps k) w.
Proof.
  intros Hv.
  apply (returns_reads (getProperty v k) h (fun w h0 => represents h0 (Get Ps k) w)).
  by apply returns_getProperty.
Qed.

Lemma reads_fieldIncludes h o v k f b :
  represents h (VObject o) v ->
  ExampleTools.fieldIncludes toLowerCase o k f = Return b ->
  reads (Store.fieldIncludes toLowerCase v k f) h b.
Proof.
  intros Hv Hpure. destruct (reads_getProperty h o v k Hv) as (w & Hw & Hrep).
  eapply reads_bind; [exact Hw|].
  unfold ExampleTools.fieldIncludes in Hpure.
  destruct (Get o k); try discriminate Hpure. cbn in Hpure, Hrep. subst w.
  injection Hpure as <-. reflexivity.
Qed.

Lemma reads_matchesFilter h o v f b :
  represents h (VObject o) v ->
  ExampleTools.matchesFilter toLowerCase f o = Return b ->
  reads (Store.matchesFilter toLowerCase f v) h b.
Proof.
  intros Hv. unfold ExampleTools.matchesFilter, Store.matchesFilter.
  destruct (ExampleTools.fieldIncludes toLowerCase o (lit "title") f)
    as [b1|] eqn:E1; [|done].
  intros Hpure. eapply reads_bind; [by eapply reads_fieldIncludes|].
  cbn [mbind completion_bind] in Hpure.
  destruct b1; [injection Hpure as <-; reflexivity|].
  destruct (ExampleTools.fieldIncludes toLowerCase o (lit "description") f)
    as [b2|] eqn:E2; [|done].
  eapply reads_bind; [by eapply reads_fieldIncludes|].
  cbn [mbind completion_bind] in Hpure.
  destruct b2; [injection Hpure as <-; reflexivity|].
  by eapply reads_fieldIncludes.
Qed.

Lemma reads_filterM h (p : object -> bool) f os vs :
  Forall2 (represents h) (VObject <$> os) vs ->
  (forall o, o ∈ os -> ExampleTools.matchesFilter toLowerCase f o = Return (p o)) ->
  exists kept,
    reads (filterM (Store.matchesFilter toLowerCase f) vs) h kept
    /\ Forall2 (represents h) (VObject <$> List.filter p os) kept.
Proof.
  revert vs. induction os as [|o os IH]; intros vs Hall Hp.
  - apply Forall2_nil_inv_l in Hall as ->. by exists [].
  - apply Forall2_cons_inv_l in Hall as (v & vs' & Hv & Hall & ->).
    destruct (IH vs' Hall) as (kept & Hkept & Hrep).
    { intros; apply Hp. by right. }
    exists (if p o then v :: kept else kept). split.
    + cbn [filterM]. eapply reads_bind.
      { eapply reads_matchesFilter; [exact Hv|]. apply Hp. left. }
      eapply reads_bind; [exact Hkept|]. reflexivity.
    + simpl. destruct (p o); [by constructor|done].
Qed.

Lemma slice_fmap {A B} (g : A -> B) (l : list A) a b :
  slice (g <$> l) a b = g <$> slice l a b.
Proof. unfold slice. by rewrite length_fmap, fmap_take, fmap_drop. Qed.

Lemma Forall2_slice {A B} (R : A -> B -> Prop) l k a b :
  Forall2 R l k -> Forall2 R (slice l a b) (slice k a b).
Proof.
  intros Hall. unfold slice. rewrite (Forall2_length _ _ _ Hall).
  by apply Forall2_take, Forall2_drop.
Qed.

Lemma returns_withMetadata h o v include i :
  represents h (VObject o) v ->
  returns (Store.withMetadata clock include i v) h
    (fun w h' => represents h' (VObject (ExampleTools.withMetadata clock include i o)) w).
Proof.
  intros Hv. unfold Store.withMetadata, ExampleTools.withMetadata.
  eapply returns_bind; [by apply returns_spread|].
  intros copied h1 Hsub1 [-> Hcopied]. cbn [JS.spread] in Hcopied.
  destruct include.
  - eapply (returns_bind _ _ _ (fun m h' =>
      represents h'
        (VObject
           (JS.defineProperty (lit "source") (VString (lit "example-data-source"))
              (JS.defineProperty (lit "processingTime") (VString (clock i))
                 (JS.spread (Get o (lit "metadata")))))) m)).
    + eapply returns_bind; [by apply returns_getProperty|].
      intros old h2 _ [-> Hold].
      eapply returns_bind; [by apply returns_spread|].
      intros inherited h3 _ [-> Hinherited].
      apply returns_newObject.
      repeat apply representsProps_define; done.
    + intros metadata h2 Hsub2 Hmeta. apply returns_newObject.
      apply representsProps_define; [|done].
      by eapply representsProps_weaken.
  - eapply returns_bind; [by apply returns_getProperty|].
    intros metadata h2 _ [-> Hmeta]. apply returns_newObject.
    by apply representsProps_define.
Qed.

Lemma returns_mapiM h include os vs i :
  Forall2 (represents h) (VObject <$> os) vs ->
  returns (mapiM_from i (Store.withMetadata clock include) vs) h
    (fun ws h' =>
       Forall2 (represents h')
         (VObject <$> mapi_from i (ExampleTools.withMetadata clock include) os) ws).
Proof.
  revert vs h i. induction os as [|o os IH]; intros vs h i Hall.
  - apply Forall2_nil_inv_l in Hall as ->. apply returns_ret. constructor.
  - apply Forall2_cons_inv_l in Hall as (v & vs' & Hv & Hall & ->).
    cbn [mapiM_from]. eapply returns_bind; [by apply returns_withMetadata|].
    intros w h1 Hsub1 Hw. eapply returns_bind.
    { apply IH. by eapply Forall2_represents_weaken. }
    intros ws h2 Hsub2 Hws. apply returns_ret. simpl. constructor; [|done].
    by eapply represents_weaken.
Qed.

Lemma reads_returns {A} (m : M A) h a (Q : A -> heap -> Prop) :
  reads m h a -> Q a h -> returns m h Q.
Proof. intros Hm HQ. by exists a, h. Qed.

(** The array literal builds the fixture of the value model. *)
Lemma returns_allItems h :
  returns Store.allItems h
    (fun arr h' => represents h' (VArray (VObject <$> ExampleTools.allItems)) arr).
Proof.
  unfold Store.allItems.
  eapply (returns_bind _ _ _ (fun v h' =>
    represents h' (VObject (nth 0 ExampleTools.allItems [])) v)).
  { apply returns_newObject. repeat constructor. }
  intros item1 h1 _ H1.
  eapply (returns_bind _ _ _ (fun v h' =>
    represents h' (VObject (nth 1 ExampleTools.allItems [])) v)).
  { apply returns_newObject. repeat constructor. }
  intros item2 h2 Hsub2 H2.
  eapply (returns_bind _ _ _ (fun v h' =>
    represents h'
      (VArray [VString (lit "important"); VString (lit "featured")]) v)).
  { apply returns_newArray. repeat constructor. }
  intros tags h3 Hsub3 Htags.
  eapply (returns_bind _ _ _ (fun v h' =>
    represents h' (Get (nth 2 ExampleTools.allItems []) (lit "metadata")) v)).
  { apply (returns_newObject _ [(lit "tags", _)]). by repeat constructor. }
  intros metadata h4 Hsub4 Hmetadata.
  eapply (returns_bind _ _ _ (fun v h' =>
    represents h' (VObject (nth 2 ExampleTools.allItems [])) v)).
  { apply returns_newObject. by repeat constructor. }
  intros item3 h5 Hsub5 H3.
  apply returns_newArray.
  assert (h2 ⊆ h5) as Hsub25 by (by do 2 (etrans; [eassumption|])).
  constructor; [|constructor; [|constructor; [|constructor]]].
  - eapply represents_weaken; [|exact H1]. by etrans.
  - by eapply represents_weaken.
  - exact H3.
Qed.

Lemma returns_operationOn h arr input :
  represents h (VArray (VObject <$> ExampleTools.allItems)) arr ->
  returns (operationOn toLowerCase clock arr input) h
    (fun res h' =>
       represents h'
         (VArray (VObject <$>
            mapi (ExampleTools.withMetadata clock (ExampleTools.includeMetadata input))
              (slice (Spec.filteredItems toLowerCase (ExampleTools.filter input))
                 (ofZ 0) (Some (ExampleTools.limit input)))))
         (items res)
       /\ totalFound res
          = length (Spec.filteredItems toLowerCase (ExampleTools.filter input))
       /\ filters res = input).
Proof.
  intros Harr. unfold operationOn.
  eapply (returns_bind _ _ _ (fun fa h' =>
    represents h'
      (VArray (VObject <$> Spec.filteredItems toLowerCase (ExampleTools.filter input)))
      fa)).
  { unfold Spec.filteredItems, Spec.matching.
    destruct (ExampleTools.truthy (ExampleTools.filter input)) as [text|];
      [|by apply returns_ret].
    unfold Array_filter.
    eapply returns_bind; [by apply returns_elements|].
    intros elems h1 _ [-> Helems].
    destruct (reads_filterM h (Spec.matchesCIb toLowerCase text) text
                ExampleTools.allItems elems Helems) as (kept & Hkept & Hrep).
    { intros o Ho. by apply matchesFilter_fixture. }
    eapply (returns_bind _ _ _ (fun kept' h' => h' = h /\ kept' = kept)).
    { eapply reads_returns; [exact Hkept|done]. }
    intros kept' h2 _ [-> ->]. by apply returns_newArray. }
  intros fa h1 Hsub1 Hfa.
  eapply (returns_bind _ _ _ (fun la h' =>
    represents h'
      (VArray (VObject <$>
         slice (Spec.filteredItems toLowerCase (ExampleTools.filter input))
           (ofZ 0) (Some (ExampleTools.limit input)))) la)).
  { unfold Array_slice.
    eapply returns_bind; [by apply returns_elements|].
    intros elems h2 _ [-> Helems]. apply returns_newArray.
    rewrite <- slice_fmap. by apply Forall2_slice. }
  intros la h2 Hsub2 Hla.
  eapply (returns_bind _ _ _ (fun ma h' =>
    represents h'
      (VArray (VObject <$>
         mapi (ExampleTools.withMetadata clock (ExampleTools.includeMetadata input))
           (slice (Spec.filteredItems toLowerCase (ExampleTools.filter input))
              (ofZ 0) (Some (ExampleTools.limit input))))) ma)).
  { unfold Array_map.
    eapply returns_bind; [by apply returns_elements|].
    intros elems h3 _ [-> Helems].
    eapply returns_bind; [apply returns_mapiM; exact Helems|].
    intros mapped h4 _ Hmapped. by apply returns_newArray. }
  intros ma h3 Hsub3 Hma.
  eapply (returns_bind _ _ _ (fun found h' =>
    found = length (Spec.filteredItems toLowerCase (ExampleTools.filter input)))).
  { unfold Array_length.
    eapply returns_bind.
    - apply returns_elements. eapply represents_weaken; [|exact Hfa]. by etrans.
    - intros elems h4 _ [-> Helems]. apply returns_ret.
      rewrite <- (Forall2_length _ _ _ Helems). apply length_fmap. }
  intros found h4 Hsub4 Hfound. apply returns_ret. cbn [items totalFound filters].
  split; [by eapply represents_weaken|done].
Qed.

End StoreOperation.

(** ** The claim about mutation and purity *)

Section Purity.
Import JS ExampleTools Spec.

(** C9, as stated, fails in its first half: with [includeMetadata = true]
    the result carries the time of the call, so the input and the fixture do
    not determine it. *)
Lemma result_depends_on_the_clock :
  ~ forall (clock clock' : nat -> jsstring) (input : DataOperationInput),
      exampleDataOperation toLowerCaseASCII clock input
      = exampleDataOperation toLowerCaseASCII clock' input.
Proof.
  intros H.
  specialize (H noon midnight
                {| limit := ofZ 1; filter := None; includeMetadata := true |}).
  vm_compute in H. discriminate H.
Qed.

(** C9, amended. Run from any heap, the operation returns and every object
    that existed before the call or was built as the fixture has the
    contents it had: the fixture reads as the same three records after the
    call as when it was built, item 3's metadata object included, with and
    without [includeMetadata]. The result, read through its references, is
    the result of the value model: a function of the input and of the clock
    readings, and of the input alone when [includeMetadata] is false. *)
Theorem fixture_is_never_mutated (toLowerCase : jsstring -> jsstring)
  (clock : nat -> jsstring) (input : DataOperationInput) (h : Store.heap) :
  (exists fixture h1 res h2,
      Store.allItems h = Some (fixture, h1)
      /\ Store.operationOn toLowerCase clock fixture input h1 = Some (res, h2)
      /\ Store.exampleDataOperation toLowerCase clock input h = Some (res, h2)
      /\ (forall l c, h !! l = Some c -> h2 !! l = Some c)
      /\ (forall l c, h1 !! l = Some c -> h2 !! l = Some c)
      /\ Store.represents h1 (VArray (VObject <$> allItems)) fixture
      /\ Store.represents h2 (VArray (VObject <$> allItems)) fixture
      /\ exists r,
          exampleDataOperation toLowerCase clock input = Return r
          /\ Store.represents h2 (VArray (VObject <$> items r)) (Store.items res)
          /\ Store.totalFound res = totalFound r
          /\ Store.filters res = filters r)
  /\ (includeMetadata input = false ->
      forall clock',
        exampleDataOperation toLowerCase clock' input
        = exampleDataOperation toLowerCase clock input).
Proof.
  split.
  - destruct (returns_allItems h) as (fixture & h1 & Hfix & Hsub1 & Hrep1).
    destruct (returns_operationOn toLowerCase clock h1 fixture input Hrep1)
      as (res & h2 & Hop & Hsub2 & Hitems & Hfound & Hfilters).
    exists fixture, h1, res, h2. split_and!.
    + exact Hfix.
    + exact Hop.
    + unfold Store.exampleDataOperation, mbind, Store.M_bind. by rewrite Hfix.
    + intros l c Hl. apply (lookup_weaken h h2 l c Hl). by etrans.
    + intros l c Hl. exact (lookup_weaken h1 h2 l c Hl Hsub2).
    + exact Hrep1.
    + by eapply represents_weaken.
    + eexists. split; [apply exampleDataOperation_returns|]. done.
  - intros Hinclude clock'. rewrite !exampleDataOperation_returns, Hinclude.
    reflexivity.
Qed.

Lemma fixture_is_never_mutated_witness :
  let input := {| limit := ofZ 2; filter := Some (lit "item");
                  includeMetadata := false |} in
  includeMetadata input = false
  /\ exampleDataOperation toLowerCaseASCII midnight input
     = exampleDataOperation toLowerCaseASCII noon input.
Proof.
  intros input. split; [reflexivity|].
  destruct (fixture_is_never_mutated toLowerCaseASCII noon input ∅) as [_ Hpure].
  exact (Hpure eq_refl midnight).
Defined.

End Purity.

(** ** The formatter: [JSON.stringify] on JSON values *)

Section StringifyText.
Import JS Formatter Spec.

Variable numberToString : Q -> jsstring.
Variable inDomain : Q -> Prop.





End StringifyText.

(** ** [JSON.parse] reads back what [JSON.stringify] writes *)

Section ParseQuoted.
Import JS Formatter JSONParse Spec.

Lemma hexValue_hexDigit (n : N) : (n < 16)%N -> hexValue (hexDigit n) = Some n.
Proof.
  intros Hn. unfold hexDigit, hexValue.
  destruct (N.ltb_spec n 10).
  - replace ((48 <=? 48 + n) && (48 + n <=? 57))%N with true; [f_equal; lia|].
    symmetry. apply andb_true_iff. split; apply N.leb_le; lia.
  - replace ((48 <=? 87 + n) && (87 + n <=? 57))%N with false.
    2:{ symmetry. apply andb_false_iff. right. apply N.leb_gt. lia. }
    replace ((97 <=? 87 + n) && (87 + n <=? 102))%N with true; [f_equal; lia|].
    symmetry. apply andb_true_iff. split; apply N.leb_le; lia.
Qed.

Lemma hex4_unicodeEscape (c : N) (rest : jsstring) :
  (c < 65536)%N ->
  exists x3 x2 x1 x0,
    unicodeEscape c ++ rest = 92%N :: 117%N :: x3 :: x2 :: x1 :: x0 :: rest
    /\ hex4 x3 x2 x1 x0 = Some c.
Proof.
  intros Hc. do 4 eexists. split; [reflexivity|]. unfold hex4.
  rewrite !hexValue_hexDigit by (apply N.mod_lt; lia). cbn. f_equal.
  pose proof (N.div_mod c 16). pose proof (N.div_mod (c / 16) 16).
  pose proof (N.div_mod (c / 256) 16).
  assert (c / 4096 < 16)%N by (apply N.Div0.div_lt_upper_bound; lia).
  rewrite (N.mod_small (c / 4096) 16) by done.
  replace (c / 256)%N with (c / 16 / 16)%N in * by (rewrite N.Div0.div_div; f_equal).
  replace (c / 4096)%N with (c / 16 / 16 / 16)%N in *
    by (rewrite !N.Div0.div_div; f_equal).
  lia.
Qed.

Lemma parseStringBody_unicodeEscape (c : N) (s : jsstring) :
  (c < 65536)%N ->
  parseStringBody (unicodeEscape c ++ s)
  = '(str, after) ← parseStringBody s; Some (c :: str, after).
Proof.
  intros Hc. destruct (hex4_unicodeEscape c s Hc) as (x3 & x2 & x1 & x0 & -> & Hhex).
  cbn [parseStringBody]. change (92 =? 34)%N with false. change (92 =? 92)%N with true.
  change (117 =? 117)%N with true. cbv iota. by rewrite Hhex.
Qed.

Lemma surrogate_range (c : N) :
  isLeadingSurrogate c = true \/ isTrailingSurrogate c = true ->
  (55296 <= c < 65536)%N.
Proof.
  unfold isLeadingSurrogate, isTrailingSurrogate.
  rewrite !andb_true_iff, !N.leb_le. lia.
Qed.

Lemma parseStringBody_raw (c : N) (s : jsstring) :
  (c =? 34)%N = false -> (c =? 92)%N = false -> (c <? 32)%N = false ->
  parseStringBody (c :: s)
  = '(str, after) ← parseStringBody s; Some (c :: str, after).
Proof. intros E34 E92 E32. cbn [parseStringBody]. by rewrite E34, E92, E32. Qed.

Lemma parseStringBody_surrogate (c : N) (s : jsstring) :
  isLeadingSurrogate c = true \/ isTrailingSurrogate c = true ->
  parseStringBody (c :: s)
  = '(str, after) ← parseStringBody s; Some (c :: str, after).
Proof.
  intros Hc%surrogate_range.
  apply parseStringBody_raw; [apply N.eqb_neq|apply N.eqb_neq|apply N.ltb_ge]; lia.
Qed.

(** The string literal written by QuoteJSONString reads back as the string. *)
Lemma parseStringBody_quoteCodeUnits (s rest : jsstring) :
  parseStringBody (quoteCodeUnits s ++ 34%N :: rest) = Some (s, rest).
Proof.
  remember (length s) as n eqn:Hn. revert s Hn.
  induction n as [n IH] using lt_wf_ind. intros [|c s] Hn; [reflexivity|].
  simpl in Hn.
  assert (parseStringBody (quoteCodeUnits s ++ 34%N :: rest) = Some (s, rest)) as IHs
    by (apply (IH (length s)); [lia|done]).
  cbn [quoteCodeUnits].
  destruct (N.eqb_spec c 8) as [->|N8]; [simpl; by rewrite IHs|].
  destruct (N.eqb_spec c 9) as [->|N9]; [simpl; by rewrite IHs|].
  destruct (N.eqb_spec c 10) as [->|N10]; [simpl; by rewrite IHs|].
  destruct (N.eqb_spec c 12) as [->|N12]; [simpl; by rewrite IHs|].
  destruct (N.eqb_spec c 13) as [->|N13]; [simpl; by rewrite IHs|].
  destruct (N.eqb_spec c 34) as [->|N34]; [simpl; by rewrite IHs|].
  destruct (N.eqb_spec c 92) as [->|N92]; [simpl; by rewrite IHs|].
  destruct (N.ltb_spec c 32) as [L32|G32].
  { rewrite <- app_assoc, parseStringBody_unicodeEscape by lia. by rewrite IHs. }
  destruct (isLeadingSurrogate c) eqn:Elead.
  - destruct s as [|d s'].
    + rewrite parseStringBody_unicodeEscape
        by (apply surrogate_range; by left). reflexivity.
    + destruct (isTrailingSurrogate d) eqn:Etrail.
      * cbn [app].
        rewrite (parseStringBody_surrogate c) by (by left).
        rewrite (parseStringBody_surrogate d) by (by right).
        rewrite (IH (length s')); [done|simpl in Hn; lia|done].
      * rewrite <- app_assoc, parseStringBody_unicodeEscape
          by (apply surrogate_range; by left). by rewrite IHs.
  - destruct (isTrailingSurrogate c) eqn:Etrail.
    + rewrite <- app_assoc, parseStringBody_unicodeEscape
        by (apply surrogate_range; by right). by rewrite IHs.
    + cbn [app]. rewrite parseStringBody_raw;
        [by rewrite IHs|by apply N.eqb_neq|by apply N.eqb_neq|by apply N.ltb_ge].
Qed.

End ParseQuoted.

Section ParseText.
Import JS Formatter JSONParse Spec.

Variable numberToString : Q -> jsstring.
Variable stringToNumber : jsstring -> option number.
Variable inDomain : Q -> Prop.
Hypothesis Hsyntax : numberSyntax numberToString stringToNumber inDomain.

Variable gap : jsstring.
Hypothesis Hgap : whitespace gap.

Local Abbreviation text := (jsonText numberToString gap).

Lemma skipWhitespace_app (ws s : jsstring) :
  whitespace ws -> skipWhitespace (ws ++ s) = skipWhitespace s.
Proof. induction 1 as [|c ws Hc _ IH]; [done|]. simpl. by rewrite Hc. Qed.

Lemma skipWhitespace_head (c : N) (s : jsstring) :
  isWhitespace c = false -> skipWhitespace (c :: s) = c :: s.
Proof. intros Hc. simpl. by rewrite Hc. Qed.

Lemma stripPrefix_app (p s : jsstring) : stripPrefix p (p ++ s) = Some s.
Proof. induction p as [|c p IH]; [done|]. simpl. by rewrite N.eqb_refl. Qed.

Lemma stripPrefix_char (c : N) (s : jsstring) : stripPrefix [c] (c :: s) = Some s.
Proof. apply (stripPrefix_app [c]). Qed.

Lemma stripPrefix_head_ne (c d : N) (p s : jsstring) :
  c <> d -> stripPrefix (c :: p) (d :: s) = None.
Proof. intros Hne. simpl. by destruct (N.eqb_spec c d). Qed.

Lemma parseValue_skip fuel (ws s : jsstring) :
  whitespace ws ->
  parseValue stringToNumber fuel (ws ++ s) = parseValue stringToNumber fuel s.
Proof. intros Hws. destruct fuel; [done|]. cbn [parseValue]. by rewrite skipWhitespace_app. Qed.

Lemma whitespace_lineBreak indent : whitespace indent -> whitespace (lineBreak gap indent).
Proof.
  intros Hindent. unfold lineBreak. destruct gap; [constructor|].
  by constructor.
Qed.

Lemma whitespace_endsNumber ws c rest :
  whitespace ws -> isNumberChar c = false -> endsNumber (ws ++ c :: rest).
Proof.
  intros [|d ws' Hd _] Hc; [done|]. cbn.
  unfold isWhitespace in Hd. unfold isNumberChar, isDigit.
  repeat match type of Hd with
         | (_ || _) = true => apply orb_true_iff in Hd as [Hd|Hd]
         end; apply N.eqb_eq in Hd as ->; reflexivity.
Qed.

Lemma spanNumber_token (token rest : jsstring) :
  forallb isNumberChar token = true -> endsNumber rest ->
  spanNumber (token ++ rest) = (token, rest).
Proof.
  intros Htoken Hrest. induction token as [|c token IH]; cbn [app forallb] in *.
  - destruct rest as [|c rest]; [done|]. cbn [spanNumber].
    unfold endsNumber in Hrest. by rewrite Hrest.
  - apply andb_true_iff in Htoken as [Hc Htoken]. cbn [spanNumber].
    rewrite Hc. by rewrite IH.
Qed.

Lemma isNumberStart_facts (c : N) :
  isNumberStart c = true ->
  isNumberChar c = true /\ isWhitespace c = false
  /\ c <> 34%N /\ c <> 91%N /\ c <> 123%N /\ c <> 93%N.
Proof.
  unfold isNumberStart, isNumberChar, isWhitespace, isDigit.
  rewrite orb_true_iff, andb_true_iff, !N.leb_le, N.eqb_eq. intros Hc.
  assert ((48 <= c <= 57)%N \/ c = 45%N) as Hrange by tauto. clear Hc.
  split_and!; try lia.
  - destruct Hrange as [[?%N.leb_le ?%N.leb_le]| ->]; [|done].
    by rewrite H, H0.
  - repeat (apply orb_false_iff; split); apply N.eqb_neq; lia.
Qed.

(** A value's text starts with a character that is neither whitespace nor
    a closing bracket. *)
Lemma text_head indent v :
  JSONValue inDomain v ->
  exists c t, text indent v = c :: t /\ isWhitespace c = false /\ c <> 93%N.
Proof.
  destruct 1 as [|[]|q Hq|s|elems _|props _ _]; cbn [jsonText];
    try (by do 2 eexists; split; [reflexivity|done]).
  - destruct (Hsyntax q Hq) as [(c & rest & -> & Hstart & _) _].
    apply isNumberStart_facts in Hstart as (_ & ? & _ & _ & _ & ?). by exists c, rest.
  - unfold wrapParts. destruct (List.map _ elems); [|destruct gap];
      by do 2 eexists; split; [reflexivity|].
  - unfold wrapParts. destruct (List.map _ props); [|destruct gap];
      by do 2 eexists; split; [reflexivity|].
Qed.

Lemma wrapParts_nonempty opening closing stepback indent part parts :
  wrapParts opening closing gap stepback indent (part :: parts)
  = [opening] ++ lineBreak gap indent
      ++ join (44%N :: lineBreak gap indent) (part :: parts)
      ++ lineBreak gap stepback ++ [closing].
Proof. unfold wrapParts, lineBreak. by destruct gap. Qed.

Lemma objectOfMembers_distinct (props : list (jsstring * jsvalue)) :
  NoDup (fst <$> props) -> objectOfMembers props = props.
Proof.
  unfold objectOfMembers.
  assert (forall acc,
    NoDup (fst <$> props) ->
    (forall k, k ∈ (fst <$> props) -> k ∉ (fst <$> acc)) ->
    foldl (fun o kv => defineProperty (fst kv) (snd kv) o) acc props = acc ++ props)
    as H; [|intros Hnd; apply (H []); [done|intros; apply not_elem_of_nil]].
  induction props as [|[k v] props IH]; intros acc Hnd Hfresh;
    [by rewrite app_nil_r|].
  apply NoDup_cons in Hnd as [Hk Hnd]. cbn [foldl fst snd].
  assert (defineProperty k v acc = acc ++ [(k, v)]) as ->.
  { assert (k ∉ (fst <$> acc)) as Hacc by (apply Hfresh; left).
    clear -Hacc. induction acc as [|[k' v'] acc IH]; [done|].
    cbn in *. apply not_elem_of_cons in Hacc as [Hne Hacc].
    rewrite str_eqb_neq by done. by rewrite IH. }
  rewrite IH, <- app_assoc; [done|done|].
  intros k' Hk'. rewrite fmap_app, not_elem_of_app. split.
  - apply Hfresh. by right.
  - cbn. rewrite elem_of_cons, elem_of_nil. intros [->|[]]. done.
Qed.

Local Abbreviation readsBack := (Spec.readsBack numberToString stringToNumber gap).

Lemma join_cons2 (sep p q : jsstring) (rest : list jsstring) :
  join sep (p :: q :: rest) = p ++ sep ++ join sep (q :: rest).
Proof. reflexivity. Qed.

(** The elements between the brackets of an array. *)
Lemma parseElements_text indent ws wsEnd elems :
  whitespace ws -> whitespace wsEnd ->
  Forall (fun e => readsBack e) elems ->
  forall e fuel rest,
    readsBack e -> whitespace indent ->
    (length (ws ++ join (44%N :: ws) (List.map (text indent) (e :: elems))
               ++ wsEnd ++ [93%N]) < fuel)%nat ->
    parseElements stringToNumber fuel
      (ws ++ join (44%N :: ws) (List.map (text indent) (e :: elems))
          ++ wsEnd ++ 93%N :: rest)
    = Some (e :: elems, rest).
Proof.
  intros Hws HwsEnd Helems.
  induction Helems as [|e' elems He' _ IH]; intros e fuel rest He Hindent Hlen;
    (destruct fuel as [|fuel]; [lia|]); cbn [parseElements];
    rewrite parseValue_skip by done.
  - cbn [List.map join] in *. rewrite He; first last.
    + rewrite !length_app in Hlen. cbn [length] in Hlen. lia.
    + by apply whitespace_endsNumber.
    + done.
    + cbn [mbind option_bind]. rewrite skipWhitespace_app by done.
      by rewrite (skipWhitespace_head 93).
  - cbn [List.map] in *. rewrite join_cons2 in *. rewrite <- !app_assoc.
    rewrite He; first last.
    + rewrite !length_app in Hlen. cbn [length] in Hlen.
      rewrite ?length_app in Hlen. lia.
    + reflexivity.
    + done.
    + cbn [mbind option_bind app]. rewrite (skipWhitespace_head 44) by done.
      rewrite (stripPrefix_char 44).
      rewrite (IH e' fuel rest He' Hindent); [reflexivity|].
      rewrite !length_app in Hlen. cbn [length] in Hlen.
      rewrite ?length_app in Hlen. rewrite !length_app. cbn [length]. lia.
Qed.

Lemma whitespace_colon_gap : whitespace (match gap with [] => [] | _ => [32%N] end).
Proof. destruct gap; by repeat constructor. Qed.

(** The members between the braces of an object. *)
Lemma parseMembers_text indent ws wsEnd props :
  whitespace ws -> whitespace wsEnd ->
  Forall (fun kv => readsBack (snd kv)) props ->
  forall k v fuel rest,
    readsBack v -> whitespace indent ->
    (length (ws ++ join (44%N :: ws)
                     (List.map (fun kv => member gap (fst kv) (text indent (snd kv)))
                        ((k, v) :: props))
               ++ wsEnd ++ [125%N]) < fuel)%nat ->
    parseMembers stringToNumber fuel
      (ws ++ join (44%N :: ws)
               (List.map (fun kv => member gap (fst kv) (text indent (snd kv)))
                  ((k, v) :: props))
          ++ wsEnd ++ 125%N :: rest)
    = Some ((k, v) :: props, rest).
Proof.
  intros Hws HwsEnd Hprops.
  induction Hprops as [|[k' v'] props Hv' _ IH]; intros k v fuel rest Hv Hindent Hlen;
    (destruct fuel as [|fuel]; [lia|]); cbn [parseMembers];
    rewrite skipWhitespace_app by done; cbn [List.map fst snd] in *.
  - cbn [join] in *. unfold member, QuoteJSONString in *.
    rewrite <- !app_assoc in *. cbn [app] in *.
    rewrite (skipWhitespace_head 34) by done. rewrite stripPrefix_char.
    cbn [mbind option_bind]. rewrite parseStringBody_quoteCodeUnits.
    cbn [mbind option_bind].
    rewrite (skipWhitespace_head 58) by done. rewrite (stripPrefix_char 58).
    cbn [mbind option_bind]. rewrite parseValue_skip by apply whitespace_colon_gap.
    rewrite Hv; first last.
    + rewrite !length_app in Hlen. cbn [length] in Hlen.
      rewrite ?length_app in Hlen. cbn [length] in Hlen.
      rewrite ?length_app in Hlen. lia.
    + by apply whitespace_endsNumber.
    + done.
    + cbn [mbind option_bind]. rewrite skipWhitespace_app by done.
      by rewrite (skipWhitespace_head 125).
  - rewrite join_cons2 in *. unfold member at 1, QuoteJSONString at 1.
    unfold member at 1, QuoteJSONString at 1 in Hlen.
    rewrite <- !app_assoc. cbn [app].
    rewrite (skipWhitespace_head 34) by done. rewrite stripPrefix_char.
    cbn [mbind option_bind]. rewrite parseStringBody_quoteCodeUnits.
    cbn [mbind option_bind].
    rewrite (skipWhitespace_head 58) by done. rewrite (stripPrefix_char 58).
    cbn [mbind option_bind]. rewrite parseValue_skip by apply whitespace_colon_gap.
    rewrite Hv; first last.
    + rewrite !length_app in Hlen. cbn [length] in Hlen.
      rewrite ?length_app in Hlen. cbn [length] in Hlen.
      rewrite ?length_app in Hlen. lia.
    + reflexivity.
    + done.
    + cbn [mbind option_bind]. rewrite (skipWhitespace_head 44) by done.
      rewrite (stripPrefix_char 44).
      rewrite (IH k' v' fuel rest Hv' Hindent); [reflexivity|].
      rewrite !length_app in Hlen. cbn [length] in Hlen.
      rewrite ?length_app in Hlen. cbn [length] in Hlen.
      rewrite ?length_app in Hlen.
      rewrite !length_app. cbn [length]. lia.
Qed.

Lemma join_head (sep p : jsstring) (rest : list jsstring) :
  exists tail, join sep (p :: rest) = p ++ tail.
Proof.
  destruct rest as [|q rest]; [exists []; by rewrite app_nil_r|].
  by exists (sep ++ join sep (q :: rest)).
Qed.

(** Every JSON value is read back from its text. *)
Lemma jsonText_readsBack v : JSONValue inDomain v -> readsBack v.
Proof.
  induction v as [| |b|n|z|s|elems IHelems|props IHprops]
    using jsvalue_nested_ind; intros Hjson;
    inversion Hjson as [| |q Hq| |elems' Helems|props' Hkeys Hprops]; subst;
    intros indent fuel rest Hindent Hrest Hlen;
    (destruct fuel as [|fuel]; [lia|]).
  - reflexivity.
  - by destruct b.
  - destruct (Hsyntax q Hq) as [(c & token & Htext & Hstart & Htoken) Hback].
    cbn [jsonText] in *. rewrite Htext in *.
    apply isNumberStart_facts in Hstart as Hc.
    destruct Hc as (Hchar & Hws & N34 & N91 & N123 & _).
    cbn [parseValue app]. rewrite skipWhitespace_head by done.
    rewrite (proj2 (N.eqb_neq c 34)), (proj2 (N.eqb_neq c 91)),
      (proj2 (N.eqb_neq c 123)), Hstart by done.
    change (c :: token ++ rest) with ((c :: token) ++ rest).
    rewrite (spanNumber_token (c :: token) rest); [|cbn; by rewrite Hchar|done].
    by rewrite Hback.
  - cbn [jsonText]. unfold QuoteJSONString. rewrite <- !app_assoc.
    cbn [app parseValue]. rewrite (skipWhitespace_head 34) by done.
    cbn [N.eqb Pos.eqb]. by rewrite parseStringBody_quoteCodeUnits.
  - destruct elems as [|e elems]; [reflexivity|].
    apply Forall_cons in IHelems as [IHe IHelems].
    apply Forall_cons in Helems as [He Helems].
    cbn [jsonText List.map] in *. rewrite wrapParts_nonempty in *.
    rewrite <- !app_assoc in *. cbn [app parseValue] in *.
    rewrite (skipWhitespace_head 91) by done. cbn [N.eqb Pos.eqb].
    cbn [length] in Hlen.
    assert (stripPrefix (lit "]")
              (skipWhitespace
                 (lineBreak gap (indent ++ gap)
                    ++ join (44%N :: lineBreak gap (indent ++ gap))
                         (text (indent ++ gap) e
                            :: List.map (text (indent ++ gap)) elems)
                    ++ lineBreak gap indent ++ 93%N :: rest)) = None) as ->.
    { rewrite skipWhitespace_app
        by (apply whitespace_lineBreak, Forall_app; by split).
      destruct (join_head (44%N :: lineBreak gap (indent ++ gap))
                  (text (indent ++ gap) e)
                  (List.map (text (indent ++ gap)) elems)) as [tail ->].
      destruct (text_head (indent ++ gap) e He) as (c & t & -> & Hws & N93).
      cbn [app]. rewrite skipWhitespace_head by done.
      by apply stripPrefix_head_ne. }
    assert (Forall (fun e => readsBack e) elems) as Hall.
    { clear -IHelems Helems. induction elems as [|e' elems IH]; [constructor|].
      apply Forall_cons in IHelems as [IHe' IHelems].
      apply Forall_cons in Helems as [He' Helems].
      constructor; [by apply IHe'|by apply IH]. }
    assert (whitespace (indent ++ gap)) as Hinner by (apply Forall_app; by split).
    pose proof (parseElements_text (indent ++ gap)
                  (lineBreak gap (indent ++ gap)) (lineBreak gap indent) elems
                  (whitespace_lineBreak _ Hinner) (whitespace_lineBreak _ Hindent)
                  Hall e fuel rest (IHe He) Hinner) as Hparse.
    cbn [List.map] in Hparse. rewrite Hparse; [reflexivity|lia].
  - destruct props as [|[k e] props]; [reflexivity|].
    apply Forall_cons in IHprops as [IHe IHprops].
    apply Forall_cons in Hprops as [He Hprops]. cbn [snd] in IHe, He.
    cbn [jsonText List.map fst snd] in *. rewrite wrapParts_nonempty in *.
    rewrite <- !app_assoc in *. cbn [app parseValue] in *.
    rewrite (skipWhitespace_head 123) by done. cbn [N.eqb Pos.eqb].
    cbn [length] in Hlen.
    match goal with
    | |- context [stripPrefix (lit "}") (skipWhitespace ?body)] =>
        assert (stripPrefix (lit "}") (skipWhitespace body) = None) as ->
    end.
    { rewrite skipWhitespace_app
        by (apply whitespace_lineBreak, Forall_app; by split).
      match goal with
      | |- context [join ?sep (?p :: ?l)] =>
          destruct (join_head sep p l) as [tail ->]
      end.
      cbn [fst snd]. unfold member, QuoteJSONString. rewrite <- !app_assoc.
      cbn [app]. by rewrite (skipWhitespace_head 34). }
    assert (Forall (fun kv => readsBack (snd kv)) props) as Hall.
    { clear -IHprops Hprops. induction props as [|[k' e'] props IH]; [constructor|].
      apply Forall_cons in IHprops as [IHe' IHprops].
      apply Forall_cons in Hprops as [He' Hprops].
      constructor; [by apply IHe'|by apply IH]. }
    assert (whitespace (indent ++ gap)) as Hinner by (apply Forall_app; by split).
    pose proof (parseMembers_text (indent ++ gap)
                  (lineBreak gap (indent ++ gap)) (lineBreak gap indent) props
                  (whitespace_lineBreak _ Hinner) (whitespace_lineBreak _ Hindent)
                  Hall k e fuel rest (IHe He) Hinner) as Hparse.
    cbn [List.map fst snd] in Hparse. rewrite Hparse; [|lia].
    cbn [mbind option_bind]. by rewrite objectOfMembers_distinct.
Qed.

End ParseText.

(** ** Integers as an instance of the number syntax *)

Section IntegerSyntax.
Import JS JSONParse Spec.

Lemma size_nat_bound (p : positive) : (Npos p < 2 ^ N.of_nat (Pos.size_nat p))%N.
Proof.
  induction p as [p IH|p IH|]; cbn [Pos.size_nat];
    rewrite ?Nat2N.inj_succ, ?N.pow_succ_r'; lia.
Qed.

Lemma isDigit_48_plus (d : N) : (d < 10)%N -> isDigit (48 + d) = true.
Proof.
  intros Hd. unfold isDigit. apply andb_true_iff. split; apply N.leb_le; lia.
Qed.

Lemma isDigit_isNumberChar (c : N) : isDigit c = true -> isNumberChar c = true.
Proof. intros Hc. unfold isNumberChar. by rewrite Hc. Qed.

Lemma digitsValue_digitsOf (fuel : nat) :
  forall n acc,
    (n < 2 ^ N.of_nat fuel)%N ->
    digitsValue 0 (digitsOf fuel n acc) = digitsValue n acc.
Proof.
  induction fuel as [|fuel IH]; intros n acc Hn.
  - cbn in Hn. assert (n = 0%N) as -> by lia. reflexivity.
  - cbn [digitsOf]. destruct (N.ltb_spec n 10) as [Hsmall|Hbig].
    + rewrite N.mod_small by done. cbn [digitsValue].
      rewrite isDigit_48_plus by done. f_equal. lia.
    + rewrite IH.
      * cbn [digitsValue]. rewrite isDigit_48_plus by (apply N.mod_lt; lia).
        f_equal. pose proof (N.Div0.div_mod n 10) as Hdiv. clear -Hdiv.
        generalize dependent (n / 10)%N. generalize (n mod 10)%N. lia.
      * rewrite Nat2N.inj_succ, N.pow_succ_r' in Hn.
        apply N.Div0.div_lt_upper_bound. lia.
Qed.

Lemma digitsOf_shape (fuel : nat) :
  forall n acc,
    (n < 2 ^ N.of_nat fuel)%N -> (0 < fuel)%nat ->
    forallb isNumberChar acc = true ->
    exists d ds,
      digitsOf fuel n acc = d :: ds
      /\ isDigit d = true /\ forallb isNumberChar ds = true
      /\ (n <> 0%N -> d <> 48%N).
Proof.
  induction fuel as [|fuel IH]; intros n acc Hn Hfuel Hacc; [lia|].
  cbn [digitsOf]. destruct (N.ltb_spec n 10) as [Hsmall|Hbig].
  - rewrite N.mod_small by done. exists (48 + n)%N, acc.
    split; [done|]. split; [by apply isDigit_48_plus|]. split; [done|lia].
  - rewrite Nat2N.inj_succ, N.pow_succ_r' in Hn.
    assert (n / 10 <> 0)%N as Hq.
    { intros Hz. apply N.div_small_iff in Hz; lia. }
    destruct (IH (n / 10)%N ((48 + n mod 10)%N :: acc)) as (d & ds & -> & Hd & Hds & Hlead).
    + apply N.Div0.div_lt_upper_bound. lia.
    + destruct fuel; [|lia]. cbn in Hn. lia.
    + cbn [forallb]. rewrite isDigit_isNumberChar; [done|].
      apply isDigit_48_plus, N.mod_lt. lia.
    + exists d, ds. split; [done|]. split; [done|]. split; [done|]. intros _. auto.
Qed.

(** [integerToString] and [integerOfString] are a number syntax on the
    safe integers. *)
Lemma integer_numberSyntax :
  numberSyntax integerToString integerOfString safeInteger.
Proof.
  intros [z d] [Hden _]. cbn in Hden. subst d.
  unfold integerToString, decimal. cbn [Qnum].
  destruct z as [|p|p].
  - split; [by exists 48%N, []|reflexivity].
  - destruct (digitsOf_shape (Pos.size_nat p) (Npos p) [])
      as (d & ds & Hdigits & Hd & Hds & Hlead);
      [apply size_nat_bound|destruct p; cbn; lia|done|].
    pose proof (digitsValue_digitsOf (Pos.size_nat p) (Npos p) [] (size_nat_bound p))
      as Hvalue.
    rewrite Hdigits in *. specialize (Hlead ltac:(done)). split.
    + exists d, ds. split; [done|]. split; [|done]. unfold isNumberStart. by rewrite Hd.
    + unfold integerOfString.
      assert ((d =? 45)%N = false) as ->.
      { apply N.eqb_neq. intros ->. discriminate Hd. }
      rewrite (proj2 (N.eqb_neq d 48)) by done. rewrite Hvalue. reflexivity.
  - destruct (digitsOf_shape (Pos.size_nat p) (Npos p) [])
      as (d & ds & Hdigits & Hd & Hds & Hlead);
      [apply size_nat_bound|destruct p; cbn; lia|done|].
    pose proof (digitsValue_digitsOf (Pos.size_nat p) (Npos p) [] (size_nat_bound p))
      as Hvalue.
    rewrite Hdigits in *. specialize (Hlead ltac:(done)). split.
    + exists 45%N, (d :: ds). split; [done|]. split; [done|].
      cbn [forallb]. by rewrite isDigit_isNumberChar.
    + unfold integerOfString. cbn [N.eqb Pos.eqb].
      rewrite (proj2 (N.eqb_neq d 48)) by done. rewrite Hvalue. reflexivity.
Qed.

End IntegerSyntax.

(** ** The claim about [formatResponse] *)

Section FormatterClaim.
Import JS Formatter JSONParse Spec.

Lemma JSON_parse_jsonText numberToString stringToNumber inDomain gap v :
  numberSyntax numberToString stringToNumber inDomain ->
  whitespace gap -> JSONValue inDomain v ->
  JSON_parse stringToNumber (jsonText numberToString gap [] v) = Some v.
Proof.
  intros Hsyntax Hgap Hjson. unfold JSON_parse.
  pose proof (jsonText_readsBack numberToString stringToNumber inDomain
                Hsyntax gap Hgap v Hjson [] (S (length (jsonText numberToString gap [] v)))
                [] ltac:(constructor) I ltac:(lia)) as Hparse.
  rewrite app_nil_r in Hparse. by rewrite Hparse.
Qed.




End FormatterClaim.

(** ** More on the data lookup: counts, limits, order and enrichment *)

Section DataLookupMore.
Import JS ExampleTools Spec.

Variable toLowerCase : jsstring -> jsstring.
Variable clock : nat -> jsstring.

Local Abbreviation run := (exampleDataOperation toLowerCase clock).
Local Abbreviation finalize := (withMetadata clock).
Local Abbreviation filteredItems := (Spec.filteredItems toLowerCase).

Lemma slice_0_nonneg {A} (arr : list A) (q : Q) :
  (0 <= q)%Q ->
  slice arr (ofZ 0) (Some (Finite q)) = take (Z.to_nat (truncate q)) arr.
Proof.
  intros Hq. rewrite slice_0. cbn [ToIntegerOrInfinity clampIndex].
  pose proof (truncate_nonneg q Hq) as Ht.
  destruct (Z.ltb_spec (truncate q) 0) as [|_]; [lia|].
  destruct (Z.le_ge_cases (truncate q) (Z.of_nat (length arr))) as [Hle|Hge].
  - by rewrite Z.min_l.
  - rewrite Z.min_r, Nat2Z.id by done.
    rewrite !take_ge; [done| |done]. lia.
Qed.

Lemma lookup_mapi_from {A B} (f : nat -> A -> B) (l : list A) (i j : nat) (y : B) :
  mapi_from i f l !! j = Some y ->
  exists x, l !! j = Some x /\ y = f (i + j)%nat x.
Proof.
  revert i j. induction l as [|x l IH]; intros i j; [done|].
  destruct j as [|j]; simpl.
  - intros [= <-]. exists x. by rewrite Nat.add_0_r.
  - intros Hj. destruct (IH _ _ Hj) as (x' & Hx' & ->).
    exists x'. split; [done|]. f_equal. lia.
Qed.

Lemma idOf_mapi_from include (l : list ExampleItem) (i : nat) :
  idOf <$> mapi_from i (finalize include) l = idOf <$> l.
Proof.
  revert i. induction l as [|x l IH]; intros i; [done|].
  simpl. rewrite IH. f_equal. apply Get_finalize_id.
Qed.

Lemma sublist_List_filter {A} (p : A -> bool) (l : list A) :
  sublist (List.filter p l) l.
Proof.
  induction l as [|x l IH]; simpl; [constructor|].
  destruct (p x); by constructor.
Qed.

Lemma filter_length_mono {A} (p p' : A -> bool) (l : list A) :
  (forall x, x ∈ l -> p x = true -> p' x = true) ->
  (length (List.filter p l) <= length (List.filter p' l))%nat.
Proof.
  induction l as [|x l IH]; intros Himp; simpl; [lia|].
  assert (length (List.filter p l) <= length (List.filter p' l))%nat as Hl.
  { apply IH. intros y Hy. apply Himp. by right. }
  destruct (p x) eqn:Hp.
  - rewrite (Himp x) by (done || left). simpl. lia.
  - destruct (p' x); simpl; lia.
Qed.

Lemma filteredItems_sublist f : sublist (filteredItems f) allItems.
Proof.
  unfold Spec.filteredItems, matching. destruct (truthy f); [|done].
  apply sublist_List_filter.
Qed.

Lemma occursIn_trans (a b c : jsstring) : occursIn a b -> occursIn b c -> occursIn a c.
Proof.
  intros (pre & post & ->) (pre' & post' & ->).
  exists (pre' ++ pre), (post ++ post'). by rewrite <- !app_assoc.
Qed.

Lemma matchesCIb_narrow F F' item :
  occursIn (toLowerCase F) (toLowerCase F') ->
  matchesCIb toLowerCase F' item = true -> matchesCIb toLowerCase F item = true.
Proof.
  intros Hocc. rewrite !matchesCIb_spec.
  assert (forall k, fieldContainsCI toLowerCase F' item k
                    -> fieldContainsCI toLowerCase F item k) as Hfield.
  { intros k (text & Hk & Hin). exists text. split; [done|].
    unfold containsCI in *. by eapply occursIn_trans. }
  unfold matchesCI. intuition.
Qed.

(** X1. For a limit q >= 0 (also a fractional one, also 0) the operation
    returns exactly min(trunc q, totalFound) items: the limit cuts the
    matches, and a limit above the number of matches returns them all. *)
Theorem items_count_is_min_of_limit_and_matches (q : Q) (f : option jsstring)
  (include : bool) :
  (0 <= q)%Q ->
  exists r,
    run {| limit := Finite q; filter := f; includeMetadata := include |} = Return r
    /\ length (items r) = Nat.min (Z.to_nat (truncate q)) (totalFound r).
Proof.
  intros Hq. rewrite exampleDataOperation_returns. eexists; split; [done|].
  cbn [items totalFound limit filter includeMetadata].
  by rewrite mapi_length, slice_0_nonneg, length_take.
Qed.

(** X2. The limit is read as an integer, rounded towards zero: a fractional
    limit gives the result of its integer part (2.9 as 2, -0.5 as 0), the
    clock readings being the same. Of the limits that are not finite, NaN
    and -Infinity return no item and +Infinity returns every match;
    totalFound is the number of matches in each case. *)
Theorem limit_is_read_as_an_integer (f : option jsstring) (include : bool) :
  (forall q, exists r r',
      run {| limit := Finite q; filter := f; includeMetadata := include |} = Return r
      /\ run {| limit := ofZ (truncate q); filter := f; includeMetadata := include |}
         = Return r'
      /\ items r = items r' /\ totalFound r = totalFound r')
  /\ (forall L, L = NaN \/ L = NegInfinity -> exists r,
      run {| limit := L; filter := f; includeMetadata := include |} = Return r
      /\ items r = [] /\ totalFound r = length (filteredItems f))
  /\ (exists r,
      run {| limit := PosInfinity; filter := f; includeMetadata := include |} = Return r
      /\ items r = mapi (finalize include) (filteredItems f)
      /\ length (items r) = totalFound r).
Proof.
  split_and!.
  - intros q. rewrite !exampleDataOperation_returns. do 2 eexists.
    split_and!; [done|done| |done].
    cbn [items limit filter includeMetadata]. f_equal.
    rewrite !slice_0. cbn [ToIntegerOrInfinity ofZ]. by rewrite truncate_ofZ.
  - intros L HL. rewrite exampleDataOperation_returns. eexists.
    split_and!; [done| |done].
    cbn [items limit filter includeMetadata]. rewrite slice_0.
    destruct HL as [-> | ->]; cbn [ToIntegerOrInfinity clampIndex]; [|done].
    change (0 <? 0) with false. cbv iota. by rewrite Z.min_l by lia.
  - rewrite exampleDataOperation_returns. eexists.
    cbn [items totalFound limit filter includeMetadata].
    rewrite slice_0. cbn [ToIntegerOrInfinity clampIndex].
    rewrite Nat2Z.id, firstn_all. split_and!; [done|done|].
    cbn [items totalFound]. by rewrite mapi_length.
Qed.

(** X3. The returned items are fixture items in fixture order, none twice:
    for every limit, filter and metadata flag their ids form a subsequence
    of the fixture ids 1, 2, 3. *)
Theorem items_keep_fixture_order (L : number) (f : option jsstring) (include : bool) :
  exists r,
    run {| limit := L; filter := f; includeMetadata := include |} = Return r
    /\ sublist (idOf <$> items r)
         [VString (lit "1"); VString (lit "2"); VString (lit "3")]
    /\ NoDup (idOf <$> items r).
Proof.
  rewrite exampleDataOperation_returns. eexists; split; [done|].
  cbn [items limit filter includeMetadata].
  assert (sublist (idOf <$> mapi (finalize include)
                               (slice (filteredItems f) (ofZ 0) (Some L)))
            (idOf <$> allItems)) as Hsub.
  { unfold mapi. rewrite idOf_mapi_from, slice_0. apply fmap_sublist.
    etrans; [apply sublist_take|apply filteredItems_sublist]. }
  split; [exact Hsub|].
  eapply sublist_NoDup; [|exact Hsub].
  change (idOf <$> allItems)
    with [VString (lit "1"); VString (lit "2"); VString (lit "3")].
  repeat (apply NoDup_cons;
          split; [rewrite ?elem_of_cons, elem_of_nil; intuition discriminate|]).
  apply NoDup_nil_2.
Qed.

(** X4. With includeMetadata = true every returned item carries a metadata
    object: its processingTime is the clock reading taken for that item (the
    i-th reading for the item at index i), its source is
    "example-data-source", every other metadata field is the one of the
    fixture item (the tags of item 3), and every property of the item other
    than metadata is the one of the fixture item. *)
Theorem metadata_is_enriched (L : number) (f : option jsstring) :
  exists r,
    run {| limit := L; filter := f; includeMetadata := true |} = Return r
    /\ forall i item, items r !! i = Some item ->
       exists base m,
         base ∈ allItems
         /\ Get item (lit "metadata") = VObject m
         /\ Get m (lit "processingTime") = VString (clock i)
         /\ Get m (lit "source") = VString (lit "example-data-source")
         /\ (forall k, k <> lit "processingTime" -> k <> lit "source" ->
             Get m k = Get (spread (Get base (lit "metadata"))) k)
         /\ (forall k, k <> lit "metadata" -> Get item k = Get base k).
Proof.
  rewrite exampleDataOperation_returns. eexists; split; [done|].
  cbn [items limit filter includeMetadata]. intros i item Hi.
  apply lookup_mapi_from in Hi as (base & Hbase & ->). simpl.
  exists base. eexists. split_and!.
  - eapply filteredItems_fixture, slice_0_subseteq, list_elem_of_lookup_2, Hbase.
  - unfold Get, withMetadata. by rewrite getOwnProperty_define_eq.
  - unfold Get. rewrite getOwnProperty_define_ne by done.
    by rewrite getOwnProperty_define_eq.
  - unfold Get. by rewrite getOwnProperty_define_eq.
  - intros k Htime Hsource. unfold Get.
    by rewrite !getOwnProperty_define_ne.
  - intros k Hk. unfold Get. by rewrite finalize_keeps.
Qed.

(** X5. The filter ignores case: two non-empty filter texts with the same
    lower-case form select the same items and the same totalFound (the
    items are equal when the clock readings of the two calls are). *)
Theorem filter_ignores_case (L : number) (F F' : jsstring) (include : bool) :
  F <> [] -> F' <> [] -> toLowerCase F = toLowerCase F' ->
  exists r r',
    run {| limit := L; filter := Some F; includeMetadata := include |} = Return r
    /\ run {| limit := L; filter := Some F'; includeMetadata := include |} = Return r'
    /\ items r = items r' /\ totalFound r = totalFound r'.
Proof.
  intros HF HF' Hlower. rewrite !exampleDataOperation_returns. do 2 eexists.
  split; [done|]. split; [done|].
  cbn [items totalFound limit filter includeMetadata].
  assert (filteredItems (Some F) = filteredItems (Some F')) as ->; [|done].
  unfold Spec.filteredItems, truthy. destruct F, F'; try done.
  unfold matching. apply List.filter_ext. intros item.
  unfold matchesCIb, fieldContainsCIb. by rewrite Hlower.
Qed.

(** X6. A longer filter text finds no more than a shorter one: when the
    lower-case form of F occurs in the lower-case form of a non-empty F',
    the totalFound for F' is at most the totalFound for F. *)
Theorem longer_filter_finds_fewer (L L' : number) (F F' : jsstring)
  (include include' : bool) :
  F' <> [] -> occursIn (toLowerCase F) (toLowerCase F') ->
  exists r r',
    run {| limit := L; filter := Some F; includeMetadata := include |} = Return r
    /\ run {| limit := L'; filter := Some F'; includeMetadata := include' |} = Return r'
    /\ (totalFound r' <= totalFound r)%nat.
Proof.
  intros HF' Hocc. rewrite !exampleDataOperation_returns. do 2 eexists.
  split; [done|]. split; [done|].
  cbn [items totalFound limit filter includeMetadata].
  unfold Spec.filteredItems, truthy. destruct F' as [|c' F']; [done|].
  destruct F as [|c F]; unfold matching.
  - apply List.filter_length_le.
  - apply filter_length_mono. intros item _. by apply matchesCIb_narrow.
Qed.

End DataLookupMore.

Section DataLookupMoreWitnesses.
Import JS ExampleTools Spec.

Lemma items_count_is_min_of_limit_and_matches_witness :
  (0 <= 5 # 2)%Q
  /\ exists r,
      exampleDataOperation toLowerCaseASCII noon
        {| limit := Finite (5 # 2); filter := Some (lit "item");
           includeMetadata := true |} = Return r
      /\ length (items r) = Nat.min (Z.to_nat (truncate (5 # 2))) (totalFound r).
Proof.
  assert (0 <= 5 # 2)%Q as Hq by (unfold Qle; simpl; lia).
  split; [exact Hq|].
  exact (items_count_is_min_of_limit_and_matches toLowerCaseASCII noon (5 # 2)
           (Some (lit "item")) true Hq).
Defined.

Lemma filter_ignores_case_witness :
  toLowerCaseASCII (lit "DeMo") = toLowerCaseASCII (lit "demo")
  /\ exists r r',
      exampleDataOperation toLowerCaseASCII noon
        {| limit := ofZ 10; filter := Some (lit "DeMo"); includeMetadata := false |}
      = Return r
      /\ exampleDataOperation toLowerCaseASCII noon
           {| limit := ofZ 10; filter := Some (lit "demo"); includeMetadata := false |}
         = Return r'
      /\ items r = items r' /\ totalFound r = totalFound r'.
Proof.
  split; [reflexivity|].
  apply (filter_ignores_case toLowerCaseASCII noon (ofZ 10) (lit "DeMo") (lit "demo")
           false); [discriminate|discriminate|reflexivity].
Defined.

Lemma longer_filter_finds_fewer_witness :
  occursIn (toLowerCaseASCII (lit "Item")) (toLowerCaseASCII (lit "sample item"))
  /\ exists r r',
      exampleDataOperation toLowerCaseASCII noon
        {| limit := ofZ 10; filter := Some (lit "Item"); includeMetadata := false |}
      = Return r
      /\ exampleDataOperation toLowerCaseASCII noon
           {| limit := ofZ 1; filter := Some (lit "sample item");
              includeMetadata := true |}
         = Return r'
      /\ (totalFound r' <= totalFound r)%nat.
Proof.
  assert (occursIn (toLowerCaseASCII (lit "Item"))
            (toLowerCaseASCII (lit "sample item"))) as Hocc.
  { exists (lit "sample "), []. reflexivity. }
  split; [exact Hocc|].
  apply (longer_filter_finds_fewer toLowerCaseASCII noon (ofZ 10) (ofZ 1)
           (lit "Item") (lit "sample item") false true); [discriminate|exact Hocc].
Defined.

End DataLookupMoreWitnesses.

(** ** The parameter schemas *)

Section Schemas.
Import JS Formatter Server Spec.

Lemma Qle_bool_validLimit (q : Q) :
  Qle_bool 1 q && Qle_bool q 100 = true <-> validLimit q.
Proof.
  unfold validLimit. rewrite andb_true_iff, !Qle_bool_iff. tauto.
Qed.

Lemma limitSchema_spec (v : jsvalue) (n : number) :
  limitSchema v = Some n
  <-> (v = VUndefined /\ n = ofZ 10)
      \/ exists q, v = VNumber (Finite q) /\ n = Finite q /\ validLimit q.
Proof.
  split.
  - destruct v as [| | |[| | |q|]| | | |]; simpl; try discriminate.
    + intros [= <-]. by left.
    + destruct (Qle_bool 1 q && Qle_bool q 100) eqn:Hq; [|discriminate].
      intros [= <-]. right. exists q. by rewrite <- Qle_bool_validLimit.
  - intros [[-> ->]|(q & -> & -> & Hq)]; [done|].
    simpl. apply Qle_bool_validLimit in Hq. by rewrite Hq.
Qed.

Lemma outputModeSchema_spec (v : jsvalue) (o : OutputFormat) :
  outputModeSchema v = Some o
  <-> (v = VUndefined /\ o = json) \/ v = VString (formatName o).
Proof.
  split.
  - destruct v as [| | | | |s| |]; simpl; try discriminate.
    + intros [= <-]. by left.
    + destruct (str_eqb s (lit "json")) eqn:Hjson.
      { apply str_eqb_eq in Hjson as ->. intros [= <-]. by right. }
      destruct (str_eqb s (lit "compact-json")) eqn:Hcompact; [|discriminate].
      apply str_eqb_eq in Hcompact as ->. intros [= <-]. by right.
  - intros [[-> ->] | ->]; [done|]. by destruct o.
Qed.

Lemma infoSchema_spec (v : jsvalue) (k : InfoKind) :
  infoSchema v = Some k
  <-> (v = VUndefined /\ k = InfoAll) \/ v = VString (infoName k).
Proof.
  split.
  - destruct v as [| | | | |s| |]; simpl; try discriminate.
    + intros [= <-]. by left.
    + repeat match goal with
             | |- context [str_eqb s ?t] =>
                 let E := fresh in
                 destruct (str_eqb s t) eqn:E;
                 [apply str_eqb_eq in E as ->; intros [= <-]; by right|]
             end.
      discriminate.
  - intros [[-> ->] | ->]; [done|]. by destruct k.
Qed.

Lemma getDataSchema_spec (args : object) (input : GetDataInput) :
  getDataSchema args = Some input
  <-> limitSchema (Get args (lit "limit")) = Some (limit input)
      /\ filterSchema (Get args (lit "filter")) = Some (filter input)
      /\ includeMetadataSchema (Get args (lit "includeMetadata"))
         = Some (includeMetadata input)
      /\ outputModeSchema (Get args (lit "outputMode")) = Some (outputMode input).
Proof.
  unfold getDataSchema. split.
  - intros Hschema.
    destruct (limitSchema _) as [l|]; [|done].
    destruct (filterSchema _) as [f|]; [|done].
    destruct (includeMetadataSchema _) as [m|]; [|done].
    destruct (outputModeSchema _) as [o|]; [|done].
    simpl in Hschema. by injection Hschema as <-.
  - intros (-> & -> & -> & ->). by destruct input.
Qed.

Lemma filterSchema_spec (v : jsvalue) (f : option jsstring) :
  filterSchema v = Some f
  <-> v = match f with Some s => VString s | None => VUndefined end.
Proof.
  split.
  - destruct v; simpl; intros; by simplify_eq.
  - intros ->. by destruct f.
Qed.

Lemma includeMetadataSchema_spec (v : jsvalue) (b : bool) :
  includeMetadataSchema v = Some b
  <-> v = VBool b \/ v = VUndefined /\ b = false.
Proof.
  split.
  - destruct v; simpl; intros; simplify_eq; auto.
  - by intros [-> | [-> ->]].
Qed.

(** X7. What the [get_data] handler receives is what the caller sent, or
    the default: a validated limit is a finite number between 1 and 100,
    the caller's or 10; the filter is the caller's string or absent; the
    metadata flag is the caller's boolean or false; the output mode is the
    caller's choice of "json" and "compact-json", or json. *)
Theorem validated_input_is_the_callers_or_the_default (args : object)
  (input : GetDataInput) :
  getDataSchema args = Some input ->
  (exists q, limit input = Finite q /\ validLimit q
             /\ (Get args (lit "limit") = VNumber (Finite q)
                 \/ Get args (lit "limit") = VUndefined /\ q = inject_Z 10))
  /\ (Get args (lit "filter") = match filter input with
                                | Some s => VString s
                                | None => VUndefined
                                end)
  /\ (Get args (lit "includeMetadata") = VBool (includeMetadata input)
      \/ Get args (lit "includeMetadata") = VUndefined
         /\ includeMetadata input = false)
  /\ (Get args (lit "outputMode") = VString (formatName (outputMode input))
      \/ Get args (lit "outputMode") = VUndefined /\ outputMode input = json).
Proof.
  intros (Hl & Hf & Hm & Ho)%getDataSchema_spec. split_and!.
  - apply limitSchema_spec in Hl as [[Hu ->]|(q & Hq & -> & Hvalid)].
    + exists (inject_Z 10). split_and!; [done| |by right].
      split; unfold Qle; simpl; lia.
    + exists q. split_and!; [done|done|by left].
  - by apply filterSchema_spec.
  - by apply includeMetadataSchema_spec.
  - apply outputModeSchema_spec in Ho as [[Hu ->]|Hs]; auto.
Qed.

(** X8. The [get_data] arguments are accepted exactly when each one is
    absent or well-formed: limit a finite number in [1,100] (so NaN, the
    infinities, 0, 101 and -1 are refused), filter a string,
    includeMetadata a boolean, outputMode one of "json" and "compact-json"
    in exactly that spelling. Properties under other names are ignored. *)
Theorem arguments_are_accepted_exactly_when_well_formed (args : object) :
  is_Some (getDataSchema args)
  <-> (Get args (lit "limit") = VUndefined
       \/ exists q, Get args (lit "limit") = VNumber (Finite q) /\ validLimit q)
      /\ (Get args (lit "filter") = VUndefined
          \/ exists s, Get args (lit "filter") = VString s)
      /\ (Get args (lit "includeMetadata") = VUndefined
          \/ exists b, Get args (lit "includeMetadata") = VBool b)
      /\ (Get args (lit "outputMode") = VUndefined
          \/ Get args (lit "outputMode") = VString (lit "json")
          \/ Get args (lit "outputMode") = VString (lit "compact-json")).
Proof.
  split.
  - intros [input (Hl & Hf & Hm & Ho)%getDataSchema_spec]. split_and!.
    + apply limitSchema_spec in Hl as [[Hu _]|(q & Hq & _ & Hvalid)]; eauto.
    + apply filterSchema_spec in Hf. destruct (filter input); eauto.
    + apply includeMetadataSchema_spec in Hm as [Hm|[Hm _]]; eauto.
    + apply outputModeSchema_spec in Ho as [[Hu _]|Hs]; [by left|].
      right. rewrite Hs. destruct (outputMode input); auto.
  - intros (Hlimit & Hfilter & Hmeta & Hmode).
    assert (exists l, limitSchema (Get args (lit "limit")) = Some l) as [l Hl].
    { destruct Hlimit as [-> | (q & -> & Hq)]; [by eexists|].
      exists (Finite q). apply limitSchema_spec. right. by exists q. }
    assert (exists f, filterSchema (Get args (lit "filter")) = Some f) as [f Hf].
    { destruct Hfilter as [-> | (s & ->)]; by eexists. }
    assert (exists m, includeMetadataSchema (Get args (lit "includeMetadata"))
                      = Some m) as [m Hm].
    { destruct Hmeta as [-> | (b & ->)]; by eexists. }
    assert (exists o, outputModeSchema (Get args (lit "outputMode")) = Some o)
      as [o Ho].
    { destruct Hmode as [-> | [-> | ->]]; by eexists. }
    exists {| limit := l; filter := f; includeMetadata := m; outputMode := o |}.
    by apply getDataSchema_spec.
Qed.

(** X9. The selector of [get_system_info] is accepted exactly when it is
    absent, which selects everything, or one of the strings "date",
    "timezone", "version" and "all" in exactly that spelling; null, a
    number or another string such as "DATE" is refused. *)
Theorem info_selector_is_one_of_four (v : jsvalue) :
  (forall k, infoSchema v = Some k
             <-> (v = VUndefined /\ k = InfoAll) \/ v = VString (infoName k))
  /\ (is_Some (infoSchema v)
      <-> v = VUndefined
          \/ v ∈ [VString (lit "date"); VString (lit "timezone");
                  VString (lit "version"); VString (lit "all")]).
Proof.
  split; [apply infoSchema_spec|]. split.
  - intros [k Hk]. apply infoSchema_spec in Hk as [[-> _] | ->]; [by left|].
    right. destruct k; set_solver.
  - intros [-> | Hv]; [by eexists|].
    rewrite !elem_of_cons, elem_of_nil in Hv.
    destruct Hv as [-> | [-> | [-> | [-> | []]]]]; by eexists.
Qed.

Lemma validated_input_is_the_callers_or_the_default_witness :
  let args := [ (lit "limit", VNumber (Finite (85 # 2)));
                (lit "verbose", VBool true);
                (lit "outputMode", VString (lit "compact-json")) ] in
  let input := {| limit := Finite (85 # 2); filter := None;
                  includeMetadata := false; outputMode := compact_json |} in
  getDataSchema args = Some input
  /\ (exists q, limit input = Finite q /\ validLimit q
                /\ (Get args (lit "limit") = VNumber (Finite q)
                    \/ Get args (lit "limit") = VUndefined /\ q = inject_Z 10))
  /\ Get args (lit "filter") = VUndefined.
Proof.
  intros args input.
  assert (getDataSchema args = Some input) as Hschema by reflexivity.
  split; [exact Hschema|].
  destruct (validated_input_is_the_callers_or_the_default args input Hschema)
    as (Hlimit & Hfilter & _).
  split; [exact Hlimit|exact Hfilter].
Defined.

End Schemas.

(** ** More on the formatter: undefined, BigInt and the shape of the text *)

Section FormatterMore.
Import JS Formatter JSONParse Spec.

Variable numberToString : Q -> jsstring.

Local Abbreviation bigIntError :=
  (ErrorInstance (lit "Do not know how to serialize a BigInt")).

Lemma survives_object (props : list (jsstring * jsvalue)) :
  survives (VObject props) = VObject (omap written props).
Proof.
  induction props as [|[k e] props IH]; [done|].
  injection IH as IH. cbn [survives] in *.
  destruct e; cbn [omap list_omap written snd fst]; by rewrite <- IH.
Qed.

Lemma default_null_survives gap indent (e : jsvalue) :
  default (lit "null")
    match e with
    | VUndefined => None
    | _ => Some (jsonText numberToString gap indent (survives e))
    end
  = jsonText numberToString gap indent (survives e).
Proof. by destruct e. Qed.

Lemma SerializeJSONProperty_survives inDomain gap v :
  Serializable inDomain v ->
  forall indent,
    SerializeJSONProperty numberToString gap indent v
    = Return match v with
             | VUndefined => None
             | _ => Some (jsonText numberToString gap indent (survives v))
             end.
Proof.
  induction v as [| |b|n|z|s|elems IHelems|props IHprops]
    using jsvalue_nested_ind; intros Hser indent;
    inversion Hser as [| | |n' Hn Hzero| |elems' Helems|props' Hkeys Hprops]; subst;
    try reflexivity.
  - by destruct b.
  - by destruct n.
  - cbn [SerializeJSONProperty survives jsonText].
    match goal with |- mbind _ (?each elems) = _ => set (loop := each) end.
    assert (loop elems
            = Return (List.map (jsonText numberToString gap (indent ++ gap))
                        (List.map survives elems)))
      as ->; [|reflexivity].
    clear Hser. induction elems as [|e elems IH]; [reflexivity|].
    apply Forall_cons in IHelems as [IHe IHelems].
    apply Forall_cons in Helems as [He Helems].
    cbn [loop List.map]. rewrite IHe by done. fold loop.
    rewrite IH by done. cbn [mbind completion_bind].
    by rewrite default_null_survives.
  - rewrite survives_object. cbn [SerializeJSONProperty jsonText].
    match goal with |- mbind _ (?each props) = _ => set (loop := each) end.
    assert (loop props
            = Return (List.map
                (fun kv => member gap (fst kv)
                             (jsonText numberToString gap (indent ++ gap) (snd kv)))
                (omap written props))) as ->; [|reflexivity].
    clear Hser Hkeys. induction props as [|[k e] props IH]; [reflexivity|].
    apply Forall_cons in IHprops as [IHe IHprops].
    apply Forall_cons in Hprops as [He Hprops].
    cbn [loop List.map fst snd]. cbn [snd] in IHe, He.
    rewrite IHe by done. fold loop. rewrite IH by done.
    by destruct e.
Qed.

Lemma written_keys (props : list (jsstring * jsvalue)) :
  sublist (fst <$> omap written props) (fst <$> props).
Proof.
  induction props as [|[k e] props IH]; [constructor|].
  cbn [omap list_omap]. unfold written at 1. cbn [snd fst].
  destruct e; cbn [fmap list_fmap fst]; by constructor.
Qed.

Lemma survives_is_JSON inDomain v :
  Serializable inDomain v -> JSONValue inDomain (survives v).
Proof.
  induction v as [| |b|n|z|s|elems IHelems|props IHprops]
    using jsvalue_nested_ind; intros Hser;
    inversion Hser as [| | |n' Hn Hzero| |elems' Helems|props' Hkeys Hprops]; subst;
    try (by constructor).
  - destruct n; try (by constructor); constructor; [by apply Hn|by apply Hzero].
  - cbn [survives]. constructor. clear Hser.
    induction elems as [|e elems IH]; [constructor|].
    apply Forall_cons in IHelems as [IHe IHelems].
    apply Forall_cons in Helems as [He Helems].
    constructor; [by apply IHe|by apply IH].
  - rewrite survives_object. constructor.
    { eapply sublist_NoDup; [exact Hkeys|apply written_keys]. }
    clear Hser Hkeys. induction props as [|[k e] props IH]; [constructor|].
    apply Forall_cons in IHprops as [IHe IHprops].
    apply Forall_cons in Hprops as [He Hprops].
    cbn [omap list_omap]. unfold written at 1. cbn [snd fst] in *.
    specialize (IH IHprops Hprops). specialize (IHe He).
    destruct e; try done; by constructor.
Qed.


Lemma JSON_is_Serializable inDomain v :
  JSONValue inDomain v -> Serializable inDomain v.
Proof.
  induction v as [| |b|n|z|s|elems IHelems|props IHprops]
    using jsvalue_nested_ind; intros Hjson;
    inversion Hjson as [| |q Hq| |elems' Helems|props' Hkeys Hprops]; subst;
    try (by constructor).
  - constructor; [by intros ? [= <-]|done].
  - constructor. rewrite Forall_forall in *. intros e He. by apply IHelems, Helems.
  - constructor; [done|]. rewrite Forall_forall in *.
    intros kv Hkv. by apply IHprops, Hprops.
Qed.

Lemma SerializeJSONProperty_BigInt gap v :
  forall indent,
    if hasBigInt v
    then SerializeJSONProperty numberToString gap indent v = Throw bigIntError
    else exists t, SerializeJSONProperty numberToString gap indent v = Return t
                   /\ (t = None <-> v = VUndefined).
Proof.
  induction v as [| |b|n|z|s|elems IHelems|props IHprops]
    using jsvalue_nested_ind; intros indent; cbn [hasBigInt];
    try reflexivity; try (by eexists; split; [reflexivity|]).
  - destruct b; by eexists.
  - destruct n; by eexists.
  - cbn [SerializeJSONProperty].
    match goal with |- context [mbind _ (?each elems)] => set (loop := each) end.
    assert (if existsb hasBigInt elems then loop elems = Throw bigIntError
            else exists parts, loop elems = Return parts) as Hloop.
    { induction elems as [|e elems IH]; [by eexists|].
      apply Forall_cons in IHelems as [IHe IHelems].
      specialize (IH IHelems). specialize (IHe (indent ++ gap)).
      cbn [existsb loop]. fold loop.
      destruct (hasBigInt e); cbn [orb].
      - by rewrite IHe.
      - destruct IHe as (t & -> & _). cbn [mbind completion_bind].
        destruct (existsb hasBigInt elems).
        + by rewrite IH.
        + destruct IH as (parts & ->). by eexists. }
    destruct (existsb hasBigInt elems).
    + by rewrite Hloop.
    + destruct Hloop as (parts & ->). by eexists.
  - cbn [SerializeJSONProperty].
    match goal with |- context [mbind _ (?each props)] => set (loop := each) end.
    assert (if existsb (fun kv => hasBigInt (snd kv)) props
            then loop props = Throw bigIntError
            else exists parts, loop props = Return parts) as Hloop.
    { induction props as [|[k e] props IH]; [by eexists|].
      apply Forall_cons in IHprops as [IHe IHprops].
      specialize (IH IHprops). specialize (IHe (indent ++ gap)).
      cbn [existsb loop snd] in *. fold loop.
      destruct (hasBigInt e); cbn [orb].
      - by rewrite IHe.
      - destruct IHe as (t & -> & _). cbn [mbind completion_bind].
        destruct (existsb (fun kv => hasBigInt (snd kv)) props).
        + by rewrite IH.
        + destruct IH as (parts & ->). by eexists. }
    destruct (existsb (fun kv => hasBigInt (snd kv)) props).
    + by rewrite Hloop.
    + destruct Hloop as (parts & ->). by eexists.
Qed.

Lemma hexDigit_printable (n : N) : (32 <= hexDigit n)%N.
Proof. unfold hexDigit. destruct (n <? 10)%N; lia. Qed.

Lemma unicodeEscape_printable (c : N) (rest : jsstring) :
  Forall (fun d => (32 <= d)%N) rest ->
  Forall (fun d => (32 <= d)%N) (unicodeEscape c ++ rest).
Proof.
  intros Hrest. unfold unicodeEscape.
  repeat (apply Forall_cons_2; [first [apply hexDigit_printable|lia]|]).
  exact Hrest.
Qed.

Lemma quoteCodeUnits_printable (s : jsstring) :
  Forall (fun d => (32 <= d)%N) (quoteCodeUnits s).
Proof.
  remember (length s) as n eqn:Hn. revert s Hn.
  induction n as [n IH] using lt_wf_ind. intros [|c s] Hn; [constructor|].
  simpl in Hn.
  assert (Forall (fun d => (32 <= d)%N) (quoteCodeUnits s)) as IHs
    by (apply (IH (length s)); [lia|done]).
  cbn [quoteCodeUnits].
  repeat match goal with
         | |- Forall _ (if (c =? ?k)%N then _ else _) =>
             destruct (c =? k)%N;
             [repeat (apply Forall_cons_2; [cbv; discriminate|]); exact IHs|]
         end.
  destruct (N.ltb_spec c 32) as [L32|G32].
  { by apply unicodeEscape_printable. }
  destruct (isLeadingSurrogate c).
  - destruct s as [|d s'].
    { rewrite <- (app_nil_r (unicodeEscape c)).
      apply unicodeEscape_printable. constructor. }
    destruct (isTrailingSurrogate d) eqn:Etrail.
    + unfold isTrailingSurrogate in Etrail.
      apply andb_true_iff in Etrail as [Hd%N.leb_le _].
      constructor; [done|]. constructor; [lia|].
      apply (IH (length s')); [simpl in Hn; lia|done].
    + by apply unicodeEscape_printable.
  - destruct (isTrailingSurrogate c).
    + by apply unicodeEscape_printable.
    + by constructor.
Qed.

Lemma QuoteJSONString_printable (s : jsstring) :
  Forall (fun d => (32 <= d)%N) (QuoteJSONString s).
Proof.
  unfold QuoteJSONString. rewrite !Forall_app. split_and!.
  - constructor; [lia|constructor].
  - apply quoteCodeUnits_printable.
  - constructor; [lia|constructor].
Qed.

Lemma join_Forall (P : N -> Prop) (sep : jsstring) (parts : list jsstring) :
  Forall P sep -> Forall (Forall P) parts -> Forall P (join sep parts).
Proof.
  intros Hsep. induction 1 as [|p parts Hp Hparts IH]; [constructor|].
  destruct parts as [|p' parts]; [done|].
  change (join sep (p :: p' :: parts)) with (p ++ sep ++ join sep (p' :: parts)).
  rewrite !Forall_app. auto.
Qed.

Lemma isNumberChar_printable (c : N) : isNumberChar c = true -> (32 <= c)%N.
Proof.
  unfold isNumberChar, isDigit.
  rewrite !orb_true_iff, andb_true_iff, !N.eqb_eq, !N.leb_le. lia.
Qed.

Lemma compact_jsonText_printable stringToNumber inDomain v :
  numberSyntax numberToString stringToNumber inDomain ->
  JSONValue inDomain v ->
  forall indent,
    Forall (fun d => (32 <= d)%N) (jsonText numberToString [] indent v).
Proof.
  intros Hsyntax.
  induction v as [| |b|n|z|s|elems IHelems|props IHprops]
    using jsvalue_nested_ind; intros Hjson indent;
    inversion Hjson as [| |q Hq| |elems' Helems|props' Hkeys Hprops]; subst;
    cbn [jsonText].
  - by repeat constructor.
  - destruct b; by repeat constructor.
  - destruct (Hsyntax q Hq) as [(c & rest & -> & Hstart & Hrest) _].
    constructor.
    + apply isNumberChar_printable. unfold isNumberStart in Hstart.
      unfold isNumberChar. apply orb_true_iff in Hstart as [-> | ->]; [done|].
      by rewrite !orb_true_r.
    + apply Forall_forall. intros d Hd. apply isNumberChar_printable.
      rewrite forallb_forall in Hrest. by apply Hrest, list_elem_of_In.
  - apply QuoteJSONString_printable.
  - unfold wrapParts. destruct (List.map _ elems) eqn:Hparts;
      [by repeat constructor|]. rewrite <- Hparts.
    rewrite !Forall_app. split_and!; [by repeat constructor| |by repeat constructor].
    apply join_Forall; [by repeat constructor|].
    clear Hparts Hjson. apply Forall_forall. intros part Hpart.
    apply list_elem_of_In, in_map_iff in Hpart as (e & <- & He%list_elem_of_In).
    rewrite Forall_forall in IHelems, Helems. by apply IHelems, Helems.
  - unfold wrapParts. destruct (List.map _ props) eqn:Hparts;
      [by repeat constructor|]. rewrite <- Hparts.
    rewrite !Forall_app. split_and!; [by repeat constructor| |by repeat constructor].
    apply join_Forall; [by repeat constructor|].
    clear Hparts Hjson. apply Forall_forall. intros part Hpart.
    apply list_elem_of_In, in_map_iff in Hpart as (kv & <- & Hkv%list_elem_of_In).
    unfold member. rewrite !Forall_app. split_and!.
    + apply QuoteJSONString_printable.
    + by repeat constructor.
    + constructor.
    + rewrite Forall_forall in IHprops, Hprops. by apply IHprops, Hprops.
Qed.

Lemma formatResponse_survives (stringToNumber : jsstring -> option number)
  (inDomain : Q -> Prop) (data : jsvalue) (format : option OutputFormat) :
  numberSyntax numberToString stringToNumber inDomain ->
  Serializable inDomain data -> data <> VUndefined ->
  exists text,
    formatResponse numberToString data format = Return (Some text)
    /\ JSON_parse stringToNumber text = Some (survives data).
Proof.
  intros Hsyntax Hser Hdefined.
  assert (forall space,
             JSON_stringify numberToString data space
             = Return (Some (jsonText numberToString
                               match space with
                               | None => []
                               | Some n => replicate (Nat.min 10 n) 32%N
                               end [] (survives data)))) as Hstringify.
  { intros space. unfold JSON_stringify.
    rewrite (SerializeJSONProperty_survives inDomain) by done.
    by destruct data. }
  unfold formatResponse. rewrite !Hstringify.
  destruct format as [[]|]; cbn [try_catch]; eexists; (split; [reflexivity|]);
    (eapply JSON_parse_jsonText;
     [exact Hsyntax|by repeat constructor|by apply survives_is_JSON]).
Qed.

Lemma formatResponse_BigInt (data : jsvalue) (format : option OutputFormat) :
  hasBigInt data = true ->
  formatResponse numberToString data format = Throw bigIntError.
Proof.
  intros Hbig.
  assert (forall space,
             JSON_stringify numberToString data space = Throw bigIntError)
    as Hstringify.
  { intros space. unfold JSON_stringify.
    pose proof (SerializeJSONProperty_BigInt
                  match space with
                  | None => []
                  | Some n => replicate (Nat.min 10 n) 32%N
                  end data []) as Hthrow.
    by rewrite Hbig in Hthrow. }
  unfold formatResponse. destruct format as [[]|]; by rewrite !Hstringify.
Qed.



(** X12. The compact format is one line: the text [formatResponse] writes
    for "compact-json" holds no code unit below the space, so no line
    break, tab or other control character, whatever strings the data
    holds. *)
Theorem compact_text_is_one_line
  (stringToNumber : jsstring -> option number) (inDomain : Q -> Prop) (data : jsvalue) :
  numberSyntax numberToString stringToNumber inDomain ->
  Serializable inDomain data -> data <> VUndefined ->
  exists text,
    formatResponse numberToString data (Some compact_json) = Return (Some text)
    /\ Forall (fun c => (32 <= c)%N) text
    /\ 10%N ∉ text.
Proof.
  intros Hsyntax Hser Hdefined.
  exists (jsonText numberToString [] [] (survives data)).
  assert (Forall (fun c => (32 <= c)%N)
            (jsonText numberToString [] [] (survives data))) as Hprintable.
  { eapply compact_jsonText_printable; [exact Hsyntax|by apply survives_is_JSON]. }
  split_and!.
  - unfold formatResponse, JSON_stringify.
    rewrite (SerializeJSONProperty_survives inDomain) by done.
    by destruct data.
  - exact Hprintable.
  - intros Hin. rewrite Forall_forall in Hprintable.
    apply Hprintable in Hin. lia.
Qed.

End FormatterMore.

Section FormatterMoreWitnesses.
Import JS Formatter JSONParse Spec.

Lemma undefined_data_is_Serializable :
  Serializable safeInteger
    (VObject [ (lit "limit", VNumber (ofZ 2));
               (lit "filter", VUndefined);
               (lit "scores", VArray [VUndefined; VNumber NaN; VString (lit "a
b")]) ]).
Proof.
  apply Ser_object.
  - apply (bool_decide_unpack _). by vm_compute.
  - repeat apply Forall_cons_2; try apply Forall_nil_2; cbn [snd].
    + apply Ser_number; [|done]. intros q [= <-]. split; [done|]. by vm_compute.
    + apply Ser_undefined.
    + apply Ser_array. repeat apply Forall_cons_2; try apply Forall_nil_2.
      * apply Ser_undefined.
      * by apply Ser_number.
      * apply Ser_string.
Qed.


Lemma compact_text_is_one_line_witness :
  let data := VObject [ (lit "limit", VNumber (ofZ 2));
                        (lit "filter", VUndefined);
                        (lit "scores", VArray [VUndefined; VNumber NaN;
                                               VString (lit "a
b")]) ] in
  exists text,
    formatResponse integerToString data (Some compact_json) = Return (Some text)
    /\ Forall (fun c => (32 <= c)%N) text
    /\ 10%N ∉ text.
Proof.
  intros data.
  exact (compact_text_is_one_line integerToString integerOfString safeInteger data
           integer_numberSyntax undefined_data_is_Serializable
           ltac:(discriminate)).
Defined.

End FormatterMoreWitnesses.

(** ** The [get_data] handler end to end *)

Section GetDataEndToEnd.
Import JS ExampleTools Formatter JSONParse Server Spec.

Variable toLowerCase : jsstring -> jsstring.
Variable clock : nat -> jsstring.
Variable numberToString : Q -> jsstring.
Variable stringToNumber : jsstring -> option number.
Variable inDomain : Q -> Prop.

Lemma Serializable_item (include : bool) (i : nat) (base : ExampleItem) :
  base ∈ allItems ->
  Serializable inDomain (VObject (withMetadata clock include i base)).
Proof.
  unfold allItems. rewrite !elem_of_cons, elem_of_nil.
  intros [-> | [-> | [-> | []]]]; destruct include;
    (apply Ser_object;
     [apply (bool_decide_unpack _); by vm_compute
     |repeat first
        [ apply Forall_nil_2
        | apply Forall_cons_2; cbn [snd]
        | apply Ser_string
        | apply Ser_undefined
        | apply Ser_array
        | apply Ser_object; [apply (bool_decide_unpack _); by vm_compute|] ]]).
Qed.

Lemma length_filteredItems (f : option jsstring) :
  (length (filteredItems toLowerCase f) <= 3)%nat.
Proof.
  change 3%nat with (length allItems).
  apply sublist_length, filteredItems_sublist.
Qed.

Lemma Serializable_result (input : DataOperationInput) (r : OperationResult) :
  (forall n : nat, (n <= 3)%nat -> inDomain (inject_Z (Z.of_nat n))) ->
  (forall q, ExampleTools.limit input = Finite q -> inDomain q) ->
  exampleDataOperation toLowerCase clock input = Return r ->
  Serializable inDomain (resultValue r).
Proof.
  intros Hsmall Hlimit. rewrite exampleDataOperation_returns. intros [= <-].
  unfold resultValue, inputValue.
  cbn [items totalFound filters ExampleTools.limit ExampleTools.filter
         ExampleTools.includeMetadata].
  apply Ser_object; [apply (bool_decide_unpack _); by vm_compute|].
  repeat apply Forall_cons_2; try apply Forall_nil_2; cbn [snd].
  - apply Ser_array. apply Forall_forall. intros v Hv.
    apply list_elem_of_fmap in Hv as (item & -> & Hitem).
    apply elem_of_items in Hitem as (i & base & Hbase & ->).
    eapply Serializable_item, filteredItems_fixture, Hbase.
  - apply Ser_number; [|done]. intros q [= <-]. apply Hsmall, length_filteredItems.
  - apply Ser_object; [apply (bool_decide_unpack _); by vm_compute|].
    repeat apply Forall_cons_2; try apply Forall_nil_2; cbn [snd].
    + apply Ser_number; [done|]. intros _. apply (Hsmall 0%nat). lia.
    + destruct (ExampleTools.filter input); constructor.
    + constructor.
Qed.

Lemma length_slice_le_limit {A} (l : list A) (q : Q) :
  (0 <= q)%Q ->
  (inject_Z (Z.of_nat (length (slice l (ofZ 0) (Some (Finite q))))) <= q)%Q.
Proof.
  intros Hq. rewrite slice_0_nonneg, length_take by done.
  pose proof (truncate_nonneg q Hq) as Ht.
  eapply Qle_trans; [|by apply truncate_le].
  rewrite <- Zle_Qle. lia.
Qed.

(** X13. A [get_data] call with validated arguments answers with one text
    block that is JSON: it reads back as an object whose [items] is an
    array of at most [limit] elements, one per item the operation returned,
    whose [totalFound] is the number of matches, and whose [filters] echoes
    the limit, the metadata flag and the filter as the handler received
    them; an absent filter is absent from the echo as well. This holds for
    both output modes; the error text of the catch block never appears. *)
Theorem get_data_answers_with_JSON (args : object) (input : GetDataInput) :
  numberSyntax numberToString stringToNumber inDomain ->
  (forall n : nat, (n <= 3)%nat -> inDomain (inject_Z (Z.of_nat n))) ->
  getDataSchema args = Some input ->
  (forall q, limit input = Finite q -> inDomain q) ->
  exists text r props its fs q,
    get_data toLowerCase clock numberToString input
    = Return (textEnvelope (Some text))
    /\ exampleDataOperation toLowerCase clock
         {| ExampleTools.limit := limit input;
            ExampleTools.filter := filter input;
            ExampleTools.includeMetadata := includeMetadata input |} = Return r
    /\ JSON_parse stringToNumber text = Some (VObject props)
    /\ VObject props = survives (resultValue r)
    /\ Get props (lit "items") = VArray its
    /\ length its = length (items r)
    /\ limit input = Finite q
    /\ (inject_Z (Z.of_nat (length its)) <= q)%Q
    /\ Get props (lit "totalFound")
       = VNumber (ofZ (Z.of_nat (length (filteredItems toLowerCase (filter input)))))
    /\ Get props (lit "filters") = VObject fs
    /\ Get fs (lit "limit") = VNumber (Finite q)
    /\ Get fs (lit "includeMetadata") = VBool (includeMetadata input)
    /\ Get fs (lit "filter") = match filter input with
                               | Some s => VString s
                               | None => VUndefined
                               end.
Proof.
  intros Hsyntax Hsmall Hschema Hlimit.
  apply getDataSchema_spec in Hschema as (Hl & _).
  assert (exists q, limit input = Finite q /\ validLimit q) as (q & Hq & Hvalid).
  { apply limitSchema_spec in Hl as [[_ ->]|(q & _ & -> & Hvalid)].
    - exists (inject_Z 10). split; [done|]. split; unfold Qle; simpl; lia.
    - by exists q. }
  set (opInput := {| ExampleTools.limit := limit input;
                     ExampleTools.filter := filter input;
                     ExampleTools.includeMetadata := includeMetadata input |}).
  destruct (exampleDataOperation toLowerCase clock opInput) as [r|e] eqn:Hrun;
    [|by rewrite exampleDataOperation_returns in Hrun].
  assert (Serializable inDomain (resultValue r)) as Hser.
  { by eapply (Serializable_result opInput). }
  destruct (formatResponse_survives numberToString stringToNumber inDomain
              (resultValue r) (Some (outputMode input)) Hsyntax Hser
              ltac:(discriminate)) as (text & Hformat & Hparse).
  assert (get_data toLowerCase clock numberToString input
          = Return (textEnvelope (Some text))) as Hanswer.
  { unfold get_data, get_data_handler, get_data_try. fold opInput.
    rewrite Hrun. cbn [mbind completion_bind]. by rewrite Hformat. }
  pose proof Hrun as Hshape.
  rewrite exampleDataOperation_returns in Hshape. injection Hshape as <-.
  exists text. eexists. eexists. eexists. eexists. exists q.
  split_and!.
  - exact Hanswer.
  - reflexivity.
  - rewrite Hparse. unfold resultValue, inputValue.
    cbn [items totalFound filters opInput ExampleTools.limit ExampleTools.filter
           ExampleTools.includeMetadata survives ofZ].
    rewrite Hq. reflexivity.
  - unfold resultValue, inputValue.
    cbn [items totalFound filters opInput ExampleTools.limit ExampleTools.filter
           ExampleTools.includeMetadata survives ofZ].
    rewrite Hq. reflexivity.
  - reflexivity.
  - cbn [items]. by rewrite Hq, length_map, length_fmap.
  - exact Hq.
  - rewrite length_map, length_fmap, mapi_length.
    apply length_slice_le_limit. destruct Hvalid as [Hone _].
    eapply Qle_trans; [|exact Hone]. by unfold Qle.
  - reflexivity.
  - reflexivity.
  - reflexivity.
  - by destruct (filter input).
  - by destruct (filter input).
Qed.

(** X14. When the result of the operation holds a BigInt, the handler
    answers with the text "Error: Do not know how to serialize a BigInt"
    in a text block: the throw of [formatResponse] is caught like a throw
    of the operation, whatever the output mode. *)
Theorem formatting_failure_becomes_error_text
  (operation : DataOperationInput -> completion OperationResult)
  (input : GetDataInput) (r : OperationResult) :
  operation {| ExampleTools.limit := limit input;
               ExampleTools.filter := filter input;
               ExampleTools.includeMetadata := includeMetadata input |} = Return r ->
  hasBigInt (resultValue r) = true ->
  get_data_handler numberToString operation input
  = Return (textEnvelope
              (Some (lit "Error: Do not know how to serialize a BigInt"))).
Proof.
  intros Hrun Hbig. unfold get_data_handler, get_data_try.
  rewrite Hrun. cbn [mbind completion_bind].
  by rewrite formatResponse_BigInt.
Qed.

End GetDataEndToEnd.

Section GetDataEndToEndWitnesses.
Import JS ExampleTools Formatter JSONParse Server Spec.

Lemma small_safeInteger (n : nat) :
  (n <= 3)%nat -> safeInteger (inject_Z (Z.of_nat n)).
Proof.
  intros Hn. split; [done|]. cbn [inject_Z Qnum].
  etrans; [|by apply (Z.pow_le_mono_r 2 2 53)]. lia.
Qed.

Lemma get_data_answers_with_JSON_witness :
  let args := [ (lit "limit", VNumber (ofZ 2));
                (lit "filter", VString (lit "sample"));
                (lit "includeMetadata", VBool true) ] in
  let input := {| limit := ofZ 2; filter := Some (lit "sample");
                  includeMetadata := true; outputMode := json |} in
  getDataSchema args = Some input
  /\ exists text r props its fs q,
      get_data toLowerCaseASCII noon integerToString input
      = Return (textEnvelope (Some text))
      /\ exampleDataOperation toLowerCaseASCII noon
           {| ExampleTools.limit := limit input;
              ExampleTools.filter := filter input;
              ExampleTools.includeMetadata := includeMetadata input |} = Return r
      /\ JSON_parse integerOfString text = Some (VObject props)
      /\ VObject props = survives (resultValue r)
      /\ Get props (lit "items") = VArray its
      /\ length its = length (items r)
      /\ limit input = Finite q
      /\ (inject_Z (Z.of_nat (length its)) <= q)%Q
      /\ Get props (lit "totalFound")
         = VNumber (ofZ (Z.of_nat (length (filteredItems toLowerCaseASCII
                                             (filter input)))))
      /\ Get props (lit "filters") = VObject fs
      /\ Get fs (lit "limit") = VNumber (Finite q)
      /\ Get fs (lit "includeMetadata") = VBool (includeMetadata input)
      /\ Get fs (lit "filter") = match filter input with
                                 | Some s => VString s
                                 | None => VUndefined
                                 end.
Proof.
  intros args input.
  assert (getDataSchema args = Some input) as Hschema by reflexivity.
  split; [exact Hschema|].
  apply (get_data_answers_with_JSON toLowerCaseASCII noon integerToString
           integerOfString safeInteger args input
           integer_numberSyntax small_safeInteger Hschema).
  intros q [= <-]. apply (small_safeInteger 2). lia.
Defined.

Lemma formatting_failure_becomes_error_text_witness :
  let operation : DataOperationInput -> completion OperationResult :=
    fun input => Return {| items := [[(lit "id", VBigInt 1)]];
                           totalFound := 1;
                           filters := input |} in
  let input := {| limit := ofZ 10; filter := None;
                  includeMetadata := false; outputMode := compact_json |} in
  get_data_handler integerToString operation input
  = Return (textEnvelope
              (Some (lit "Error: Do not know how to serialize a BigInt"))).
Proof.
  intros operation input.
  apply (formatting_failure_becomes_error_text integerToString operation input
           {| items := [[(lit "id", VBigInt 1)]];
              totalFound := 1;
              filters := {| ExampleTools.limit := ofZ 10;
                            ExampleTools.filter := None;
                            ExampleTools.includeMetadata := false |} |});
    reflexivity.
Defined.

End GetDataEndToEndWitnesses.

(** ** Sharing between the result and the fixture *)

Section StoreSharing.
Import JS Store.

Variable toLowerCase : jsstring -> jsstring.
Variable clock : nat -> jsstring.

Lemma bind_inv {A B} (m : M A) (k : A -> M B) h b h' :
  (m ≫= k) h = Some (b, h') ->
  exists a h1, m h = Some (a, h1) /\ k a h1 = Some (b, h').
Proof.
  unfold mbind, M_bind. destruct (m h) as [[a h1]|]; [|done].
  intros Hk. by exists a, h1.
Qed.

Lemma alloc_inv c h l h' :
  alloc c h = Some (l, h') -> h !! l = None /\ h' = <[l := c]> h.
Proof.
  unfold alloc. intros [= <- <-]. split; [|done].
  apply not_elem_of_dom, is_fresh.
Qed.

Lemma newObject_inv ps h w h' :
  newObject ps h = Some (w, h') ->
  exists l, w = SRef l /\ h !! l = None /\ h' = <[l := CObject ps]> h.
Proof.
  unfold newObject. intros (l & h1 & Hl & [= <- <-])%bind_inv.
  apply alloc_inv in Hl as [Hfresh ->]. by exists l.
Qed.

Lemma newArray_inv vs h w h' :
  newArray vs h = Some (w, h') ->
  exists l, w = SRef l /\ h !! l = None /\ h' = <[l := CArray vs]> h.
Proof.
  unfold newArray. intros (l & h1 & Hl & [= <- <-])%bind_inv.
  apply alloc_inv in Hl as [Hfresh ->]. by exists l.
Qed.

Lemma read_inv l h c h' : read l h = Some (c, h') -> h !! l = Some c /\ h' = h.
Proof. unfold read. destruct (h !! l); [|done]. by intros [= <- <-]. Qed.

Lemma elements_inv v h vs h' :
  elements v h = Some (vs, h') ->
  exists l, v = SRef l /\ h !! l = Some (CArray vs) /\ h' = h.
Proof.
  destruct v as [| | | | | |l]; try done. unfold elements.
  intros (c & h1 & [Hl ->]%read_inv & Hc)%bind_inv.
  destruct c; [done|]. injection Hc as <- <-. by exists l.
Qed.

Lemma getProperty_inv v k h w h' :
  getProperty v k h = Some (w, h') ->
  exists l ps, v = SRef l /\ h !! l = Some (CObject ps)
               /\ w = lookupProperty k ps /\ h' = h.
Proof.
  destruct v as [| | | | | |l]; try done. unfold getProperty.
  intros (c & h1 & [Hl ->]%read_inv & Hc)%bind_inv.
  destruct c; [|done]. injection Hc as <- <-. by exists l, props.
Qed.

Lemma spread_inv v h ps h' :
  Store.spread v h = Some (ps, h') ->
  h' = h
  /\ forall l, v = SRef l ->
       exists c, h !! l = Some c /\ forall ps0, c = CObject ps0 -> ps = ps0.
Proof.
  destruct v as [| | | | |s|l]; cbn [Store.spread];
    try (intros [= <- <-]; by split).
  intros (c & h1 & [Hl ->]%read_inv & Hc)%bind_inv.
  assert (h' = h) as -> by (destruct c; by injection Hc).
  split; [done|]. intros l' [= <-]. exists c. split; [done|].
  intros ps0 ->. by injection Hc.
Qed.

Lemma lookupProperty_define_eq k v ps :
  lookupProperty k (Store.defineProperty k v ps) = v.
Proof.
  unfold lookupProperty. induction ps as [|[k' v'] ps IH]; simpl.
  - by rewrite str_eqb_refl.
  - destruct (str_eqb k k') eqn:Hk; simpl.
    + by rewrite str_eqb_refl.
    + by rewrite Hk.
Qed.

Lemma lookupProperty_define_ne k k' v ps :
  k <> k' -> lookupProperty k (Store.defineProperty k' v ps) = lookupProperty k ps.
Proof.
  intros Hne. unfold lookupProperty. induction ps as [|[k'' v''] ps IH]; simpl.
  - by rewrite str_eqb_neq.
  - destruct (str_eqb k' k'') eqn:Hk; simpl.
    + apply str_eqb_eq in Hk as <-. by rewrite !str_eqb_neq.
    + destruct (str_eqb k k''); [done|exact IH].
Qed.

Lemma lookup_None_weaken (h h' : heap) (l : loc) :
  h ⊆ h' -> h' !! l = None -> h !! l = None.
Proof.
  intros Hsub Hl. destruct (h !! l) as [c|] eqn:Hc; [|done].
  pose proof (lookup_weaken _ _ _ _ Hc Hsub) as Hc'.
  unfold heap, loc in *. by rewrite Hl in Hc'.
Qed.

Lemma shallowCopy_mono include j h0 h0' h1' h1 v w :
  h0 ⊆ h0' -> h1' ⊆ h1 ->
  Spec.shallowCopy clock include j h0' h1' v w ->
  Spec.shallowCopy clock include j h0 h1 v w.
Proof.
  intros Hbefore Hafter (l & ps & l0 & ps0 & -> & Hl0 & -> & Hfresh & Hl & Hkeep & Hmeta).
  exists l, ps, l0, ps0. split_and!; try done.
  - by eapply lookup_weaken.
  - by eapply lookup_None_weaken.
  - by eapply lookup_weaken.
  - destruct include; [|done].
    destruct Hmeta as (lm & pm & Hlm & Hmfresh & Hpm & Htime & Hsource & Hinherit).
    exists lm, pm. split_and!; try done.
    + by eapply lookup_None_weaken.
    + by eapply lookup_weaken.
    + intros lm0 Hlm0. destruct (Hinherit lm0 Hlm0) as (c & Hc & Hprops).
      exists c. split; [by eapply lookup_weaken|done].
Qed.

Lemma withMetadata_shallowCopy include i v h w h' :
  Store.withMetadata clock include i v h = Some (w, h') ->
  h ⊆ h' /\ Spec.shallowCopy clock include i h h' v w.
Proof.
  unfold Store.withMetadata.
  intros (copied & h1 & Hcopied & Hrest)%bind_inv.
  apply spread_inv in Hcopied as [-> Hcopied].
  apply bind_inv in Hrest as (metadata & h2 & Hmeta & Hnew).
  apply newObject_inv in Hnew as (l & -> & Hfresh & ->).
  destruct include.
  - apply bind_inv in Hmeta as (old & h3 & Hold & Hmeta).
    apply getProperty_inv in Hold as (l0 & ps0 & -> & Hl0 & -> & ->).
    apply bind_inv in Hmeta as (inherited & h4 & Hinherited & Hmeta).
    apply spread_inv in Hinherited as [-> Hinherited].
    apply newObject_inv in Hmeta as (lm & -> & Hmfresh & ->).
    destruct (Hcopied l0 eq_refl) as (c0 & Hc0 & Hps0).
    unfold heap, loc in *. rewrite Hl0 in Hc0. injection Hc0 as <-.
    rewrite (Hps0 ps0 eq_refl) in *. clear Hps0 Hcopied.
    assert (l <> lm) as Hne.
    { intros ->. by rewrite lookup_insert_eq in Hfresh. }
    rewrite lookup_insert_ne in Hfresh by done.
    assert (l0 <> l) as Hne0 by (intros ->; congruence).
    assert (l0 <> lm) as Hnem by (intros ->; congruence).
    split.
    { etrans; [apply (insert_subseteq h lm); done|].
      apply insert_subseteq. by rewrite lookup_insert_ne. }
    exists l, (Store.defineProperty (lit "metadata") (SRef lm) ps0), l0, ps0.
    unfold heap, loc in *. split_and!; try done.
    + by rewrite !lookup_insert_ne.
    + by rewrite lookup_insert_eq.
    + intros k Hk. by rewrite lookupProperty_define_ne.
    + eexists lm, _. split_and!.
      * by rewrite lookupProperty_define_eq.
      * done.
      * rewrite lookup_insert_ne by done. by rewrite lookup_insert_eq.
      * rewrite lookupProperty_define_ne by done.
        by rewrite lookupProperty_define_eq.
      * by rewrite lookupProperty_define_eq.
      * intros lm0 Hlm0.
        destruct (Hinherited lm0 Hlm0) as (c & Hc & Hprops).
        exists c. split.
        -- rewrite !lookup_insert_ne; [done| |]; intros ->; congruence.
        -- intros pm0 -> k Htime Hsource.
           rewrite !lookupProperty_define_ne by done.
           by rewrite (Hprops pm0 eq_refl).
  - apply getProperty_inv in Hmeta as (l0 & ps0 & -> & Hl0 & -> & ->).
    destruct (Hcopied l0 eq_refl) as (c0 & Hc0 & Hps0).
    unfold heap, loc in *. rewrite Hl0 in Hc0. injection Hc0 as <-.
    rewrite (Hps0 ps0 eq_refl) in *. clear Hps0 Hcopied.
    assert (l0 <> l) as Hne0 by (intros ->; congruence).
    split; [by apply insert_subseteq|].
    exists l, (Store.defineProperty (lit "metadata")
                 (lookupProperty (lit "metadata") ps0) ps0), l0, ps0.
    unfold heap, loc in *. split_and!; try done.
    + by rewrite lookup_insert_ne.
    + by rewrite lookup_insert_eq.
    + intros k Hk. by rewrite lookupProperty_define_ne.
    + by rewrite lookupProperty_define_eq.
Qed.

Lemma mapiM_shallowCopy include vs :
  forall i h ws h',
    mapiM_from i (Store.withMetadata clock include) vs h = Some (ws, h') ->
    h ⊆ h'
    /\ forall j w, ws !! j = Some w ->
         exists v, vs !! j = Some v
                   /\ Spec.shallowCopy clock include (i + j) h h' v w.
Proof.
  induction vs as [|x vs IH]; intros i h ws h'; cbn [mapiM_from].
  - unfold mret, M_ret. intros [= <- <-]. split; [done|].
    intros j w Hj. by rewrite lookup_nil in Hj.
  - intros (y & h1 & Hy & Hrest)%bind_inv.
    apply bind_inv in Hrest as (ys & h2 & Hys & Hret).
    unfold mret, M_ret in Hret. injection Hret as <- <-.
    apply withMetadata_shallowCopy in Hy as [Hsub1 Hcopy].
    apply IH in Hys as [Hsub2 Hcopies].
    split; [by etrans|].
    intros [|j] w Hj; simpl in Hj.
    + injection Hj as <-. exists x. split; [done|]. rewrite Nat.add_0_r.
      eapply shallowCopy_mono; [reflexivity|exact Hsub2|exact Hcopy].
    + destruct (Hcopies j w Hj) as (v & Hv & Hcopy'). exists v. split; [done|].
      replace (i + S j)%nat with (S i + j)%nat by lia.
      eapply shallowCopy_mono; [exact Hsub1|reflexivity|exact Hcopy'].
Qed.

Lemma fieldIncludes_heap item k f h b h' :
  Store.fieldIncludes toLowerCase item k f h = Some (b, h') -> h' = h.
Proof.
  unfold Store.fieldIncludes.
  intros (v & h1 & Hv & Hrest)%bind_inv.
  apply getProperty_inv in Hv as (l & ps & _ & _ & _ & ->).
  destruct v; try done. unfold mret, M_ret in Hrest. by injection Hrest.
Qed.

Lemma matchesFilter_heap f item h b h' :
  Store.matchesFilter toLowerCase f item h = Some (b, h') -> h' = h.
Proof.
  unfold Store.matchesFilter.
  intros (t & h1 & ->%fieldIncludes_heap & Hrest)%bind_inv.
  destruct t; [unfold mret, M_ret in Hrest; by injection Hrest|].
  apply bind_inv in Hrest as (d & h2 & ->%fieldIncludes_heap & Hrest).
  destruct d; [unfold mret, M_ret in Hrest; by injection Hrest|].
  by apply fieldIncludes_heap in Hrest.
Qed.

Lemma filterM_heap f vs :
  forall h kept h',
    filterM (Store.matchesFilter toLowerCase f) vs h = Some (kept, h') ->
    h' = h /\ kept ⊆ vs.
Proof.
  induction vs as [|x vs IH]; intros h kept h'; cbn [filterM].
  - unfold mret, M_ret. by intros [= <- <-].
  - intros (keep & h1 & ->%matchesFilter_heap & Hrest)%bind_inv.
    apply bind_inv in Hrest as (kept' & h2 & [-> Hkept]%IH & Hret).
    unfold mret, M_ret in Hret. injection Hret as <- <-.
    split; [done|]. intros y Hy. destruct keep; [|right; by apply Hkept].
    apply elem_of_cons in Hy as [-> | Hy]; [left|right; by apply Hkept].
Qed.

Lemma operationOn_shallowCopy lf fs input h res h' :
  h !! lf = Some (CArray fs) ->
  operationOn toLowerCase clock (SRef lf) input h = Some (res, h') ->
  exists lr ws,
    items res = SRef lr /\ h !! lr = None /\ h' !! lr = Some (CArray ws)
    /\ forall j w, ws !! j = Some w ->
         exists v, v ∈ fs
           /\ Spec.shallowCopy clock (ExampleTools.includeMetadata input) j h h' v w.
Proof.
  intros Hlf. unfold operationOn, heap, loc in *.
  intros (fa & ha & Hfilter & Hrest)%bind_inv.
  assert (exists la kept, fa = SRef la /\ ha !! la = Some (CArray kept)
                          /\ kept ⊆ fs /\ h ⊆ ha) as (la & kept & -> & Hla & Hkept & Hsuba).
  { destruct (ExampleTools.truthy _) as [text|].
    - unfold Array_filter in Hfilter.
      apply bind_inv in Hfilter as (elems & h1 & Helems & Hfilter).
      apply elements_inv in Helems as (l & [= <-] & Hl & ->).
      unfold heap, loc in *. rewrite Hlf in Hl. injection Hl as <-.
      apply bind_inv in Hfilter as (kept & h1 & [-> Hkept]%filterM_heap & Hnew).
      apply newArray_inv in Hnew as (la & -> & Hfresh & ->).
      exists la, kept. split_and!; [done| |done|by apply insert_subseteq].
      apply lookup_insert_eq.
    - unfold mret, M_ret in Hfilter. injection Hfilter as <- <-.
      by exists lf, fs. }
  apply bind_inv in Hrest as (limited & hs & Hslice & Hrest).
  unfold Array_slice in Hslice.
  apply bind_inv in Hslice as (elems & h1 & Helems & Hnew).
  apply elements_inv in Helems as (l & [= <-] & Hl & ->).
  unfold heap, loc in *. rewrite Hla in Hl. injection Hl as <-.
  apply newArray_inv in Hnew as (ls & -> & Hsfresh & ->).
  apply bind_inv in Hrest as (final & hr & Hmap & Hrest).
  unfold Array_map in Hmap.
  apply bind_inv in Hmap as (elems & h1 & Helems & Hmap).
  apply elements_inv in Helems as (l & [= <-] & Hl & ->).
  unfold heap, loc in *. rewrite lookup_insert_eq in Hl. injection Hl as <-.
  apply bind_inv in Hmap as (mapped & hm & Hmapped & Hnew).
  apply mapiM_shallowCopy in Hmapped as [Hsubm Hcopies].
  apply newArray_inv in Hnew as (lr & -> & Hrfresh & ->).
  apply bind_inv in Hrest as (found & h1 & Hfound & Hret).
  unfold Array_length in Hfound.
  apply bind_inv in Hfound as (elems & h2 & Helems & Hfound).
  apply elements_inv in Helems as (l & _ & _ & ->).
  unfold mret, M_ret in Hfound, Hret. injection Hfound as <- <-.
  injection Hret as <- <-. cbn [items].
  assert (h ⊆ <[ls:=CArray (slice kept (ofZ 0) (Some (ExampleTools.limit input)))]> ha)
    as Hsubs by (etrans; [exact Hsuba|by apply insert_subseteq]).
  exists lr, mapped. split_and!.
  - done.
  - eapply lookup_None_weaken; [|exact Hrfresh]. by etrans.
  - apply lookup_insert_eq.
  - intros j w Hj. destruct (Hcopies j w Hj) as (v & Hv & Hcopy).
    exists v. split.
    + apply Hkept. eapply slice_0_subseteq, list_elem_of_lookup_2, Hv.
    + eapply shallowCopy_mono; [exact Hsubs|by apply insert_subseteq|exact Hcopy].
Qed.

(** X16. The items of the result are shallow copies of fixture objects.
    Whatever the heap the call starts from, every element of the returned
    array is an object that did not exist before the operation ran; it is
    built from one of the fixture objects and holds the same values and
    the same references under every key other than metadata. Without
    includeMetadata its metadata is the very reference the fixture object
    holds, so the metadata object of item 3 is shared with the fixture.
    With includeMetadata its metadata is another new object, with the clock
    reading of its index, and with the old metadata properties as they
    are, so the tags array of item 3 is still shared. *)
Theorem result_items_are_shallow_copies (input : ExampleTools.DataOperationInput)
  (h : heap) :
  exists lf fs h1 res h2 lr ws,
    Store.allItems h = Some (SRef lf, h1)
    /\ h1 !! lf = Some (CArray fs)
    /\ Store.exampleDataOperation toLowerCase clock input h = Some (res, h2)
    /\ items res = SRef lr
    /\ h1 !! lr = None
    /\ h2 !! lr = Some (CArray ws)
    /\ forall j w, ws !! j = Some w ->
         exists v, v ∈ fs
           /\ (exists l0 ps0, v = SRef l0 /\ h1 !! l0 = Some (CObject ps0))
           /\ Spec.shallowCopy clock (ExampleTools.includeMetadata input) j h1 h2 v w.
Proof.
  destruct (returns_allItems h) as (fixture & h1 & Hfix & Hsub1 & Hrep1).
  destruct (returns_operationOn toLowerCase clock h1 fixture input Hrep1)
    as (res & h2 & Hop & Hsub2 & _).
  apply represents_array in Hrep1 as (lf & fs & -> & Hlf & Hitems).
  destruct (operationOn_shallowCopy lf fs input h1 res h2 Hlf Hop)
    as (lr & ws & Hres & Hrfresh & Hws & Hcopies).
  exists lf, fs, h1, res, h2, lr, ws. split_and!; try done.
  - unfold Store.exampleDataOperation, mbind, M_bind. by rewrite Hfix.
  - intros j w Hj. destruct (Hcopies j w Hj) as (v & Hv & Hcopy).
    exists v. split_and!; [done| |done].
    apply list_elem_of_lookup_1 in Hv as [n Hn].
    destruct (Forall2_lookup_r _ _ _ _ _ Hitems Hn) as (V & HV & Hrep).
    apply list_lookup_fmap_Some in HV as (o & -> & _).
    apply represents_object in Hrep as (l0 & ps0 & -> & Hl0 & _).
    by exists l0, ps0.
Qed.

End StoreSharing.

(** ** The request helpers of the integration tests *)

Section HarnessProperties.
Import JS Formatter JSONParse Harness Spec.

Variable ToNumber : jsvalue -> number.
Variable ToString : jsvalue -> jsstring.
Variable numberToString : Q -> jsstring.

Local Abbreviation send := (sendRequest ToNumber ToString numberToString).
Local Abbreviation respond := (mockServerResponse ToNumber ToString numberToString).
Local Abbreviation call := (mockToolCall ToNumber ToString numberToString).

Lemma respond_toolsCall (name : jsstring) (args : jsvalue) :
  respond (toolsCall name args)
  = call (VObject [(lit "name", VString name); (lit "arguments", args)]).
Proof. reflexivity. Qed.

Lemma call_get_data (args : jsvalue) :
  call (VObject [(lit "name", VString (lit "get_data")); (lit "arguments", args)])
  = mockGetData ToNumber numberToString args.
Proof. reflexivity. Qed.

Lemma hasBigInt_mockData (args : jsvalue) :
  hasBigInt args = false -> hasBigInt (mockData args) = false.
Proof.
  intros Hargs. unfold mockData. cbn [hasBigInt existsb snd].
  destruct (ToBoolean args); [by rewrite Hargs|done].
Qed.

Lemma stringify_mockData (args : jsvalue) :
  hasBigInt args = false ->
  exists text,
    JSON_stringify numberToString (mockData args) (Some 2%nat) = Return (Some text).
Proof.
  intros Hargs. unfold JSON_stringify.
  pose proof (SerializeJSONProperty_BigInt numberToString
                (replicate (Nat.min 10 2) 32%N) (mockData args) []) as Hser.
  rewrite hasBigInt_mockData in Hser by done.
  destruct Hser as ([text|] & Hser & Hnone); [by exists text|].
  by destruct Hnone as [Hnone _]; specialize (Hnone eq_refl).
Qed.

(** X17. The only check the helper makes on a [get_data] call is on the
    limit: the call is answered with the error of code -32603 when a limit
    is given that is below 1, and with a result in every other case (the
    arguments hold no BigInt). So a limit of 0 or -1 fails, and a limit of
    1000, a fractional limit or NaN passes. *)
Theorem helper_checks_only_the_lower_bound (id : jsstring) (args : jsvalue) :
  hasBigInt args = false ->
  (forall q, optionalRead args (lit "limit") = VNumber (Finite q) ->
     ((q < 1)%Q -> send id (toolsCall (lit "get_data") args) = internalError id)
     /\ ((1 <= q)%Q ->
         exists text, send id (toolsCall (lit "get_data") args)
                      = resultResponse id (toolResult (Some text))))
  /\ (optionalRead args (lit "limit") = VUndefined
      \/ optionalRead args (lit "limit") = VNumber NaN
      \/ optionalRead args (lit "limit") = VNumber PosInfinity ->
      exists text, send id (toolsCall (lit "get_data") args)
                   = resultResponse id (toolResult (Some text)))
  /\ (send id (toolsCall (lit "get_data") args) = internalError id
      <-> optionalRead args (lit "limit") <> VUndefined
          /\ lessThanOne ToNumber (optionalRead args (lit "limit")) = true).
Proof.
  intros Hargs.
  destruct (stringify_mockData args Hargs) as (text & Htext).
  assert (forall limit, optionalRead args (lit "limit") = limit ->
            if negb (isUndefined limit) && lessThanOne ToNumber limit
            then send id (toolsCall (lit "get_data") args) = internalError id
            else send id (toolsCall (lit "get_data") args)
                 = resultResponse id (toolResult (Some text))) as Hcases.
  { intros limit Hlimit. unfold sendRequest.
    rewrite respond_toolsCall, call_get_data. unfold mockGetData.
    rewrite Hlimit. destruct (negb (isUndefined limit) && lessThanOne ToNumber limit);
      [done|]. by rewrite Htext. }
  split_and!.
  - intros q Hq. specialize (Hcases _ Hq). cbn in Hcases. split.
    + intros Hlt. destruct (Qle_bool 1 q) eqn:Hle; [|done].
      apply Qle_bool_iff in Hle. by apply Qle_not_lt in Hle.
    + intros Hle. apply Qle_bool_iff in Hle. rewrite Hle in Hcases. by exists text.
  - intros [Hl|[Hl|Hl]]; specialize (Hcases _ Hl); by exists text.
  - specialize (Hcases _ eq_refl).
    destruct (optionalRead args (lit "limit")) eqn:Hl;
      cbn [isUndefined negb andb] in Hcases;
      try (destruct (lessThanOne ToNumber _) eqn:Hlt);
      rewrite Hcases; split; try done; try (by intros [? ?]); by intros [= ].
Qed.

Lemma Serializable_hasBigInt inDomain v :
  Serializable inDomain v -> hasBigInt v = false.
Proof.
  induction v as [| |b|n|z|s|elems IHelems|props IHprops]
    using jsvalue_nested_ind; intros Hser;
    inversion Hser as [| | |n' Hn Hzero| |elems' Helems|props' Hkeys Hprops]; subst;
    try reflexivity; cbn [hasBigInt].
  - clear Hser. induction elems as [|e elems IH]; [done|].
    apply Forall_cons in IHelems as [IHe IHelems].
    apply Forall_cons in Helems as [He Helems].
    cbn [existsb]. by rewrite IHe, IH.
  - clear Hser Hkeys. induction props as [|[k e] props IH]; [done|].
    apply Forall_cons in IHprops as [IHe IHprops].
    apply Forall_cons in Hprops as [He Hprops].
    cbn [existsb snd] in *. by rewrite IHe, IH.
Qed.

Lemma send_get_data_accepted (id : jsstring) (args : jsvalue) (text : jsstring) :
  negb (isUndefined (optionalRead args (lit "limit")))
  && lessThanOne ToNumber (optionalRead args (lit "limit")) = false ->
  JSON_stringify numberToString (mockData args) (Some 2%nat) = Return (Some text) ->
  send id (toolsCall (lit "get_data") args)
  = resultResponse id (toolResult (Some text)).
Proof.
  intros Hlimit Htext. unfold sendRequest.
  rewrite respond_toolsCall, call_get_data. unfold mockGetData.
  by rewrite Hlimit, Htext.
Qed.


(** X19. Whatever goes wrong, the helper answers with the same error: code
    -32603 and the message "Internal error", under the id of the request.
    This is the answer to a request that is undefined or null, to a method
    other than initialize, tools/list and tools/call, to a tools/call
    without params, and to a tool name other than get_data and
    get_system_info; the message of the error that was thrown is not in
    the response. *)
Theorem every_failure_is_the_same_internal_error (id : jsstring) :
  (forall request e, respond request = Throw e -> send id request = internalError id)
  /\ send id VUndefined = internalError id
  /\ send id VNull = internalError id
  /\ (forall props,
      Get props (lit "method") ∉ [ VString (lit "initialize");
                                   VString (lit "tools/list");
                                   VString (lit "tools/call") ] ->
      send id (VObject props) = internalError id)
  /\ (forall props,
      Get props (lit "method") = VString (lit "tools/call") ->
      Get props (lit "params") = VUndefined \/ Get props (lit "params") = VNull ->
      send id (VObject props) = internalError id)
  /\ (forall name args,
      name <> lit "get_data" -> name <> lit "get_system_info" ->
      send id (toolsCall name args) = internalError id).
Proof.
  split_and!.
  - intros request e Hthrow. unfold sendRequest. by rewrite Hthrow.
  - reflexivity.
  - reflexivity.
  - intros props Hmethod. unfold sendRequest, mockServerResponse.
    cbn [readProperty optionalRead mbind completion_bind].
    rewrite !not_elem_of_cons in Hmethod. destruct Hmethod as (H1 & H2 & H3 & _).
    assert (forall text, Get props (lit "method") <> VString text ->
                         isString (Get props (lit "method")) text = false) as Hno.
    { intros text Hne. destruct (Get props (lit "method")); try done.
      cbn. apply str_eqb_neq. congruence. }
    by rewrite !Hno.
  - intros props Hmethod Hparams. unfold sendRequest, mockServerResponse.
    cbn [readProperty optionalRead mbind completion_bind]. rewrite Hmethod.
    cbn [isString]. change (str_eqb (lit "tools/call") (lit "initialize")) with false.
    change (str_eqb (lit "tools/call") (lit "tools/list")) with false.
    change (str_eqb (lit "tools/call") (lit "tools/call")) with true.
    cbv iota. by destruct Hparams as [-> | ->].
  - intros name args Hdata Hinfo. unfold sendRequest.
    rewrite respond_toolsCall. unfold mockToolCall. cbn [optionalRead].
    change (Get [(lit "name", VString name); (lit "arguments", args)] (lit "name"))
      with (VString name).
    cbn [isString]. by rewrite !str_eqb_neq.
Qed.

(** X20. The data the helper returns for [get_data] is canned: the text of
    every result reads back as an object with the one item of id 1 and
    with totalFound 1, whatever filter, limit and metadata flag the call
    names; the arguments only come back as [filters]. *)
Theorem helper_data_is_canned (stringToNumber : jsstring -> option number)
  (inDomain : Q -> Prop) (id : jsstring) (args : jsvalue) :
  numberSyntax numberToString stringToNumber inDomain ->
  inDomain (inject_Z 1) ->
  Serializable inDomain args ->
  negb (isUndefined (optionalRead args (lit "limit")))
  && lessThanOne ToNumber (optionalRead args (lit "limit")) = false ->
  exists text props,
    send id (toolsCall (lit "get_data") args)
    = resultResponse id (toolResult (Some text))
    /\ JSON_parse stringToNumber text = Some (VObject props)
    /\ Get props (lit "items") = VArray [mockItem]
    /\ Get props (lit "totalFound") = VNumber (ofZ 1)
    /\ Get props (lit "filters")
       = survives (if ToBoolean args then args else VObject []).
Proof.
  intros Hsyntax Hone Hargs Hlimit.
  assert (Serializable inDomain (mockData args)) as Hdata.
  { apply Ser_object; [apply (bool_decide_unpack _); by vm_compute|].
    repeat apply Forall_cons_2; try apply Forall_nil_2; cbn [snd].
    - apply Ser_array. apply Forall_cons_2; [|apply Forall_nil_2].
      apply Ser_object; [apply (bool_decide_unpack _); by vm_compute|].
      repeat apply Forall_cons_2; try apply Forall_nil_2; apply Ser_string.
    - apply Ser_number; [|done]. by intros q [= <-].
    - destruct (ToBoolean args); [done|]. apply Ser_object; constructor. }
  assert (JSON_stringify numberToString (mockData args) (Some 2%nat)
          = Return (Some (jsonText numberToString (replicate 2 32%N) []
                            (survives (mockData args))))) as Htext.
  { unfold JSON_stringify.
    by rewrite (SerializeJSONProperty_survives numberToString inDomain). }
  eexists. eexists. split_and!.
  - by apply send_get_data_accepted.
  - rewrite (JSON_parse_jsonText numberToString stringToNumber inDomain);
      [|done|by repeat constructor|by apply survives_is_JSON].
    unfold mockData. cbn [survives ofZ]. reflexivity.
  - reflexivity.
  - reflexivity.
  - destruct (ToBoolean args) eqn:Htruthy; [|reflexivity].
    destruct args; try discriminate Htruthy; reflexivity.
Qed.

Lemma call_get_system_info (args : jsvalue) :
  call (VObject [(lit "name", VString (lit "get_system_info"));
                 (lit "arguments", args)])
  = Return (mockSystemInfo args).
Proof. reflexivity. Qed.

Lemma isString_other (v : jsvalue) (text : jsstring) :
  v <> VString text -> isString v text = false.
Proof.
  intros Hne. destruct v; try done. cbn. apply str_eqb_neq. congruence.
Qed.

(** X21. A [get_system_info] call to the helper never fails, whatever the
    arguments. Without a selector, or with one that is falsy, the text is
    the full canned report; the selector "date" gives the date line alone;
    a selector that is none of the four names gives the empty text rather
    than an error. No text of the helper has a "Current time:" line, which
    the full report of the server always has. *)
Theorem helper_system_info_is_canned (id : jsstring) (args : jsvalue) :
  exists text,
    send id (toolsCall (lit "get_system_info") args)
    = resultResponse id (toolResult (Some text))
    /\ includes text (lit "Current time:") = false
    /\ (ToBoolean (optionalRead args (lit "info")) = false ->
        text = lit "Current date: 2024-01-01" ++ [10%N]
               ++ lit "Timezone: UTC" ++ [10%N]
               ++ lit "Server version: 0.1.0" ++ [10%N; 10%N]
               ++ lit "Use this information for date filtering and context.")
    /\ (optionalRead args (lit "info") = VString (lit "date") ->
        text = lit "Current date: 2024-01-01")
    /\ (ToBoolean (optionalRead args (lit "info")) = true ->
        optionalRead args (lit "info")
          ∉ [ VString (lit "date"); VString (lit "timezone");
              VString (lit "version"); VString (lit "all") ] ->
        text = [])
    /\ forall iso tz, exists report,
         Server.get_system_info (Return iso) (Return tz) Server.InfoAll
         = Return (Server.textEnvelope (Some report))
         /\ includes report (lit "Current time:") = true.
Proof.
  eexists. split_and!.
  - unfold sendRequest. rewrite respond_toolsCall, call_get_system_info.
    unfold mockSystemInfo. reflexivity.
  - generalize (if ToBoolean (optionalRead args (lit "info"))
                then optionalRead args (lit "info") else VString (lit "all")).
    intros info.
    generalize (isString info (lit "date")), (isString info (lit "timezone")),
      (isString info (lit "version")), (isString info (lit "all")).
    by intros [] [] [] [].
  - by intros ->.
  - by intros ->.
  - intros -> Hother. rewrite !not_elem_of_cons in Hother.
    destruct Hother as (H1 & H2 & H3 & H4 & _).
    by rewrite !isString_other.
  - intros iso tz. eexists. split; [reflexivity|].
    apply includes_spec.
    exists (lit "Current date: " ++ Server.firstPart (split 84 iso) ++ [10%N]),
      (lit " " ++ iso ++ [10%N] ++ lit "Timezone: " ++ tz ++ [10%N]
         ++ lit "Server version: 0.1.0" ++ [10%N; 10%N]
         ++ lit "Use this information for date filtering and context.").
    cbn [join]. by rewrite <- !app_assoc.
Qed.

End HarnessProperties.

Section HarnessWitnesses.
Import JS Formatter JSONParse Harness Spec.

Lemma helper_checks_only_the_lower_bound_witness :
  let args := VObject [ (lit "limit", VNumber (ofZ 1000));
                        (lit "filter", VString (lit "zzz")) ] in
  hasBigInt args = false
  /\ exists text,
      sendRequest (fun _ => NaN) (fun _ => []) integerToString (lit "k3x9")
        (toolsCall (lit "get_data") args)
      = resultResponse (lit "k3x9") (toolResult (Some text)).
Proof.
  intros args.
  assert (hasBigInt args = false) as Hargs by reflexivity.
  split; [exact Hargs|].
  destruct (helper_checks_only_the_lower_bound (fun _ => NaN) (fun _ => [])
              integerToString (lit "k3x9") args Hargs) as (Hnumber & _).
  apply (Hnumber (inject_Z 1000)); [reflexivity|]. by unfold Qle.
Defined.

Lemma helper_data_is_canned_witness :
  let args := VObject [ (lit "limit", VNumber (ofZ 2));
                        (lit "filter", VString (lit "zzz")) ] in
  exists text props,
    sendRequest (fun _ => NaN) (fun _ => []) integerToString (lit "k3x9")
      (toolsCall (lit "get_data") args)
    = resultResponse (lit "k3x9") (toolResult (Some text))
    /\ JSON_parse integerOfString text = Some (VObject props)
    /\ Get props (lit "items") = VArray [mockItem]
    /\ Get props (lit "totalFound") = VNumber (ofZ 1)
    /\ Get props (lit "filters") = args.
Proof.
  intros args.
  apply (helper_data_is_canned (fun _ => NaN) (fun _ => []) integerToString
           integerOfString safeInteger (lit "k3x9") args integer_numberSyntax).
  - apply (small_safeInteger 1). lia.
  - apply Ser_object; [apply (bool_decide_unpack _); by vm_compute|].
    repeat apply Forall_cons_2; try apply Forall_nil_2; cbn [snd].
    + apply Ser_number; [|done]. intros q [= <-]. apply (small_safeInteger 2). lia.
    + apply Ser_string.
  - reflexivity.
Defined.

End HarnessWitnesses.

(** ** More on [get_system_info] *)

Section SystemInfoMore.
Import JS Server Spec.

Lemma firstPart_split_prefix (sep : N) (s : jsstring) :
  s = firstPart (split sep s)
  \/ exists rest, s = firstPart (split sep s) ++ sep :: rest.
Proof.
  induction s as [|c s IH]; [by left|].
  cbn [split]. destruct (N.eqb_spec c sep) as [->|Hne].
  - right. by exists s.
  - pose proof (split_nonempty sep s) as Hsplit.
    destruct (split sep s) as [|piece pieces]; [done|].
    cbn [firstPart] in *. destruct IH as [IH|(rest & IH)].
    + left. by rewrite <- IH.
    + right. exists rest. by rewrite IH at 1.
Qed.

(** X15. The date that [get_system_info] reports is the timestamp up to
    its first "T": it holds no "T", and the timestamp is that date alone
    or the date, a "T" and the rest. The full report is made of the three
    single reports as they are, with the full timestamp on a line of its
    own after the date and the hint at the end. *)
Theorem system_info_date_is_the_timestamp_up_to_T (iso tz : jsstring) :
  exists date,
    get_system_info (Return iso) (Return tz) InfoDate
    = Return (textEnvelope (Some (lit "Current date: " ++ date)))
    /\ (84%N ∉ date)
    /\ (iso = date \/ exists time, iso = date ++ lit "T" ++ time)
    /\ get_system_info (Return iso) (Return tz) InfoTimezone
       = Return (textEnvelope (Some (lit "Timezone: " ++ tz)))
    /\ get_system_info (Return iso) (Return tz) InfoVersion
       = Return (textEnvelope (Some (lit "Server version: 0.1.0")))
    /\ get_system_info (Return iso) (Return tz) InfoAll
       = Return (textEnvelope (Some (
           lit "Current date: " ++ date ++ [10%N]
           ++ lit "Current time: " ++ iso ++ [10%N]
           ++ lit "Timezone: " ++ tz ++ [10%N]
           ++ lit "Server version: 0.1.0" ++ [10%N; 10%N]
           ++ lit "Use this information for date filtering and context."))).
Proof.
  exists (firstPart (split 84 iso)). split_and!.
  - reflexivity.
  - apply split_first_no_sep.
  - apply firstPart_split_prefix.
  - reflexivity.
  - reflexivity.
  - unfold get_system_info. cbn [mbind completion_bind join].
    by rewrite <- !app_assoc.
Qed.

End SystemInfoMore.

(** ** Paging through the matches *)

Section Paging.
Import JS ExampleTools Spec.

Variable toLowerCase : jsstring -> jsstring.
Variable clock : nat -> jsstring.

Local Abbreviation run := (exampleDataOperation toLowerCase clock).

Lemma truncate_mono (q q' : Q) :
  (0 <= q)%Q -> (q <= q')%Q -> truncate q <= truncate q'.
Proof.
  intros Hq Hle.
  assert (0 <= q')%Q as Hq' by (by eapply Qle_trans).
  unfold truncate. unfold Qle in *. simpl in Hq, Hq'.
  rewrite !Z.quot_div_nonneg by lia.
  rewrite <- (Z.div_mul_cancel_r (Qnum q) (Zpos (Qden q)) (Zpos (Qden q'))) by lia.
  rewrite <- (Z.div_mul_cancel_l (Qnum q') (Zpos (Qden q')) (Zpos (Qden q))) by lia.
  apply Z.div_le_mono; [lia|].
  rewrite (Z.mul_comm (Zpos (Qden q)) (Qnum q')). exact Hle.
Qed.

Lemma mapi_from_take {A B} (f : nat -> A -> B) (l : list A) (n i : nat) :
  mapi_from i f (take n l) = take n (mapi_from i f l).
Proof.
  revert n i. induction l as [|x l IH]; intros [|n] i; simpl; try done.
  by rewrite IH.
Qed.

(** X22. An empty filter text is no filter: the test [if (input.filter)]
    is false for it, so the call returns what it returns without a filter
    (under the same clock readings), with a totalFound of 3; only the echo
    of the input differs. *)
Theorem empty_filter_is_no_filter (L : number) (include : bool) :
  exists r r',
    run {| limit := L; filter := Some []; includeMetadata := include |} = Return r
    /\ run {| limit := L; filter := None; includeMetadata := include |} = Return r'
    /\ items r = items r'
    /\ totalFound r = 3%nat /\ totalFound r' = 3%nat
    /\ filter (filters r) = Some [] /\ filter (filters r') = None.
Proof.
  rewrite !exampleDataOperation_returns. by do 2 eexists.
Qed.

(** X23. Raising the limit only appends: for limits 0 <= q <= q' the items
    returned for q are the first items returned for q', one for one. With
    includeMetadata this is for two calls with the same clock readings: the
    reading an item gets depends on its index alone. *)
Theorem raising_the_limit_only_appends (q q' : Q) (f : option jsstring)
  (include : bool) :
  (0 <= q)%Q -> (q <= q')%Q ->
  exists r r',
    run {| limit := Finite q; filter := f; includeMetadata := include |} = Return r
    /\ run {| limit := Finite q'; filter := f; includeMetadata := include |}
       = Return r'
    /\ items r = take (length (items r)) (items r')
    /\ (length (items r) <= length (items r'))%nat
    /\ totalFound r = totalFound r'.
Proof.
  intros Hq Hle. rewrite !exampleDataOperation_returns. do 2 eexists.
  split; [done|]. split; [done|].
  cbn [items totalFound limit filter includeMetadata].
  assert (0 <= q')%Q as Hq' by (by eapply Qle_trans).
  pose proof (truncate_mono q q' Hq Hle) as Hmono.
  pose proof (truncate_nonneg q Hq) as Hnonneg.
  rewrite !slice_0_nonneg by done. unfold mapi.
  rewrite !mapi_from_take, !length_take, mapi_from_length.
  set (all := mapi_from 0 (withMetadata clock include)
                (filteredItems toLowerCase f)).
  replace (length (filteredItems toLowerCase f)) with (length all)
    by apply mapi_from_length.
  clearbody all.
  assert (Z.to_nat (truncate q) <= Z.to_nat (truncate q'))%nat as Hnat by lia.
  split_and!; [|lia|done]. rewrite take_take.
  destruct (Nat.le_gt_cases (Z.to_nat (truncate q)) (length all)).
  - f_equal. lia.
  - by rewrite !take_ge by lia.
Qed.

End Paging.

Section PagingWitness.
Import JS ExampleTools Spec.

Lemma raising_the_limit_only_appends_witness :
  (0 <= 1)%Q /\ (1 <= 5 # 2)%Q
  /\ exists r r',
      exampleDataOperation toLowerCaseASCII noon
        {| limit := Finite 1; filter := Some (lit "sample");
           includeMetadata := true |} = Return r
      /\ exampleDataOperation toLowerCaseASCII noon
           {| limit := Finite (5 # 2); filter := Some (lit "sample");
              includeMetadata := true |} = Return r'
      /\ items r = take (length (items r)) (items r')
      /\ (length (items r) <= length (items r'))%nat
      /\ totalFound r = totalFound r'.
Proof.
  assert (0 <= 1)%Q as Hq by (by unfold Qle).
  assert (1 <= 5 # 2)%Q as Hle by (unfold Qle; simpl; lia).
  split; [exact Hq|]. split; [exact Hle|].
  exact (raising_the_limit_only_appends toLowerCaseASCII noon 1 (5 # 2)
           (Some (lit "sample")) true Hq Hle).
Defined.

End PagingWitness.

(** ** What a call builds is its own *)

Section StoreIsolation.
Import JS Store.

Variable toLowerCase : jsstring -> jsstring.
Variable clock : nat -> jsstring.

Local Abbreviation fresh_in h v := (forall l, l ∈ Spec.refsOf v -> h !! l = None).

Lemma grows_refl (h : heap) : Spec.grows h h.
Proof.
  split; [done|]. intros l c Hnone Hsome. unfold heap, loc in *. congruence.
Qed.

Lemma grows_alloc (h0 h : heap) (l : loc) (c : cell) :
  Spec.grows h0 h -> h !! l = None ->
  (forall l', l' ∈ Spec.cellRefs c -> h0 !! l' = None) ->
  Spec.grows h0 (<[l := c]> h).
Proof.
  intros [Hsub Hnew] Hl Hc. split.
  - etrans; [exact Hsub|by apply insert_subseteq].
  - intros l1 c1 Hnone Hsome. unfold heap, loc in *.
    destruct (decide (l1 = l)) as [->|Hne].
    + rewrite lookup_insert_eq in Hsome. by injection Hsome as <-.
    + rewrite lookup_insert_ne in Hsome by done. by eapply Hnew.
Qed.

Lemma grows_fresh (h0 h : heap) (l : loc) :
  Spec.grows h0 h -> h !! l = None -> h0 !! l = None.
Proof. intros [Hsub _]. by apply lookup_None_weaken. Qed.

Lemma refs_lookupProperty k ps l :
  l ∈ Spec.refsOf (lookupProperty k ps) -> l ∈ Spec.cellRefs (CObject ps).
Proof.
  unfold lookupProperty. cbn [Spec.cellRefs].
  induction ps as [|[k' v'] ps IH]; cbn [List.find flat_map fst snd].
  - by intros ?%elem_of_nil.
  - rewrite elem_of_app. destruct (str_eqb k k'); [by left|]. right. by apply IH.
Qed.

Lemma refs_defineProperty k v ps l :
  l ∈ Spec.cellRefs (CObject (Store.defineProperty k v ps)) ->
  l ∈ Spec.refsOf v \/ l ∈ Spec.cellRefs (CObject ps).
Proof.
  cbn [Spec.cellRefs].
  induction ps as [|[k' v'] ps IH]; cbn [Store.defineProperty flat_map snd].
  - rewrite app_nil_r. by left.
  - destruct (str_eqb k k'); cbn [flat_map snd]; rewrite !elem_of_app.
    + intros [?|?]; auto.
    + intros [?|?]; [by right; left|]. destruct IH as [?|?]; auto.
Qed.

Lemma refs_mapi_indexKey (vs : list svalue) (i : nat) (l : loc) :
  l ∈ Spec.cellRefs (CObject (mapi_from i (fun j e => (indexKey j, e)) vs)) ->
  l ∈ Spec.cellRefs (CArray vs).
Proof.
  cbn [Spec.cellRefs]. revert i.
  induction vs as [|v vs IH]; intros i; cbn [mapi_from flat_map snd]; [done|].
  rewrite !elem_of_app. intros [?|?]; [by left|right; by eapply IH].
Qed.

Lemma refs_mapi_chars (s : jsstring) (i : nat) (l : loc) :
  l ∉ Spec.cellRefs (CObject (mapi_from i (fun j c => (indexKey j, SString [c])) s)).
Proof.
  cbn [Spec.cellRefs]. revert i.
  induction s as [|c s IH]; intros i; cbn [mapi_from flat_map snd app Spec.refsOf].
  - apply not_elem_of_nil.
  - apply IH.
Qed.

Lemma spread_refs (h0 h : heap) v ps h' :
  Spec.grows h0 h -> fresh_in h0 v ->
  Store.spread v h = Some (ps, h') ->
  h' = h /\ forall l, l ∈ Spec.cellRefs (CObject ps) -> h0 !! l = None.
Proof.
  intros [Hsub Hnew] Hv.
  destruct v as [| | | | |s|l0]; cbn [Store.spread];
    try (unfold mret, M_ret; intros [= <- <-]; split; [done|];
         by intros l ?%elem_of_nil).
  - unfold mret, M_ret. intros [= <- <-]. split; [done|].
    intros l Hl. by apply refs_mapi_chars in Hl.
  - intros (c & h1 & [Hl0 ->]%read_inv & Hc)%bind_inv.
    assert (h0 !! l0 = None) as Hfresh by (apply Hv; cbn; by left).
    destruct c as [props|elems]; unfold mret, M_ret in Hc; injection Hc as <- <-;
      (split; [done|]); intros l Hl.
    + by eapply Hnew.
    + eapply Hnew; [exact Hfresh|exact Hl0|]. by eapply refs_mapi_indexKey.
Qed.

Lemma getProperty_refs (h0 h : heap) v k w h' :
  Spec.grows h0 h -> fresh_in h0 v ->
  getProperty v k h = Some (w, h') -> h' = h /\ fresh_in h0 w.
Proof.
  intros [Hsub Hnew] Hv (l0 & ps & -> & Hl0 & -> & ->)%getProperty_inv.
  split; [done|]. intros l Hl.
  eapply Hnew; [|exact Hl0|by apply refs_lookupProperty in Hl].
  apply Hv. cbn. by left.
Qed.

Lemma newObject_grows (h0 h : heap) ps w h' :
  Spec.grows h0 h ->
  (forall l, l ∈ Spec.cellRefs (CObject ps) -> h0 !! l = None) ->
  newObject ps h = Some (w, h') -> Spec.grows h0 h' /\ fresh_in h0 w.
Proof.
  intros Hgrows Hps (l & -> & Hfresh & ->)%newObject_inv. split.
  - by apply grows_alloc.
  - intros l' [->|[]%elem_of_nil]%elem_of_cons. by eapply grows_fresh.
Qed.

Lemma newArray_grows (h0 h : heap) vs w h' :
  Spec.grows h0 h ->
  (forall l, l ∈ Spec.cellRefs (CArray vs) -> h0 !! l = None) ->
  newArray vs h = Some (w, h') -> Spec.grows h0 h' /\ fresh_in h0 w.
Proof.
  intros Hgrows Hvs (l & -> & Hfresh & ->)%newArray_inv. split.
  - by apply grows_alloc.
  - intros l' [->|[]%elem_of_nil]%elem_of_cons. by eapply grows_fresh.
Qed.

Lemma withMetadata_grows (h0 h : heap) include i v w h' :
  Spec.grows h0 h -> fresh_in h0 v ->
  Store.withMetadata clock include i v h = Some (w, h') ->
  Spec.grows h0 h' /\ fresh_in h0 w.
Proof.
  intros Hgrows Hv. unfold Store.withMetadata.
  intros (copied & h1 & Hcopied & Hrest)%bind_inv.
  eapply spread_refs in Hcopied as [-> Hcopied]; [|done..].
  apply bind_inv in Hrest as (metadata & h2 & Hmeta & Hnew).
  assert (Spec.grows h0 h2 /\ fresh_in h0 metadata) as [Hgrows2 Hmetadata].
  { destruct include.
    - apply bind_inv in Hmeta as (old & h3 & Hold & Hmeta).
      eapply getProperty_refs in Hold as [-> Hold]; [|done..].
      apply bind_inv in Hmeta as (inherited & h4 & Hinherited & Hmeta).
      eapply spread_refs in Hinherited as [-> Hinherited]; [|done..].
      eapply newObject_grows; [done| |exact Hmeta].
      intros l [Hl|[Hl|Hl]%refs_defineProperty]%refs_defineProperty;
        [by apply elem_of_nil in Hl|by apply elem_of_nil in Hl|by apply Hinherited].
    - eapply getProperty_refs in Hmeta as [-> Hmeta]; [|done..]. done. }
  eapply newObject_grows; [done| |exact Hnew].
  intros l [Hl|Hl]%refs_defineProperty; [by apply Hmetadata|by apply Hcopied].
Qed.

Lemma mapiM_grows (h0 : heap) include vs :
  forall i h ws h',
    Spec.grows h0 h -> Forall (fun v => fresh_in h0 v) vs ->
    mapiM_from i (Store.withMetadata clock include) vs h = Some (ws, h') ->
    Spec.grows h0 h' /\ Forall (fun w => fresh_in h0 w) ws.
Proof.
  induction vs as [|x vs IH]; intros i h ws h' Hgrows Hvs; cbn [mapiM_from].
  - unfold mret, M_ret. by intros [= <- <-].
  - apply Forall_cons in Hvs as [Hx Hvs].
    intros (y & h1 & Hy & Hrest)%bind_inv.
    apply bind_inv in Hrest as (ys & h2 & Hys & Hret).
    unfold mret, M_ret in Hret. injection Hret as <- <-.
    eapply withMetadata_grows in Hy as [Hgrows1 Hy]; [|done..].
    eapply IH in Hys as [Hgrows2 Hys]; [|done..].
    split; [done|]. by constructor.
Qed.

Lemma fresh_elements (h0 : heap) (vs : list svalue) :
  Forall (fun v => fresh_in h0 v) vs <->
  forall l, l ∈ Spec.cellRefs (CArray vs) -> h0 !! l = None.
Proof.
  cbn [Spec.cellRefs]. induction vs as [|v vs IH]; cbn [flat_map].
  - split; [by intros _ l ?%elem_of_nil|constructor].
  - rewrite Forall_cons, IH. setoid_rewrite elem_of_app. split.
    + intros [Hv Hvs] l [Hl|Hl]; auto.
    + intros Hall. split; intros l Hl; apply Hall; auto.
Qed.

Lemma elements_fresh (h0 h : heap) arr vs h' :
  Spec.grows h0 h -> fresh_in h0 arr ->
  elements arr h = Some (vs, h') ->
  h' = h /\ Forall (fun v => fresh_in h0 v) vs.
Proof.
  intros [Hsub Hnew] Harr (l & -> & Hl & ->)%elements_inv. split; [done|].
  apply fresh_elements. intros l' Hl'.
  eapply Hnew; [|exact Hl|exact Hl']. apply Harr. cbn. by left.
Qed.

Lemma operationOn_grows (h0 h : heap) arr input res h' :
  Spec.grows h0 h -> fresh_in h0 arr ->
  operationOn toLowerCase clock arr input h = Some (res, h') ->
  Spec.grows h0 h' /\ fresh_in h0 (items res).
Proof.
  intros Hgrows Harr. unfold operationOn.
  intros (fa & ha & Hfilter & Hrest)%bind_inv.
  assert (Spec.grows h0 ha /\ fresh_in h0 fa) as [Hgrowsa Hfa].
  { destruct (ExampleTools.truthy _) as [text|].
    - unfold Array_filter in Hfilter.
      apply bind_inv in Hfilter as (elems & h1 & Helems & Hfilter).
      eapply elements_fresh in Helems as [-> Helems]; [|done..].
      apply bind_inv in Hfilter as (kept & h1 & [-> Hkept]%filterM_heap & Hnew).
      eapply newArray_grows; [done| |exact Hnew].
      apply fresh_elements. rewrite Forall_forall in *.
      intros v Hv. by apply Helems, Hkept.
    - unfold mret, M_ret in Hfilter. by injection Hfilter as <- <-. }
  apply bind_inv in Hrest as (limited & hs & Hslice & Hrest).
  unfold Array_slice in Hslice.
  apply bind_inv in Hslice as (elems & h1 & Helems & Hnew).
  eapply elements_fresh in Helems as [-> Helems]; [|done..].
  eapply newArray_grows in Hnew as [Hgrowss Hlimited]; [|done|].
  2:{ apply fresh_elements. rewrite Forall_forall in *.
      intros v Hv. by eapply Helems, slice_0_subseteq. }
  apply bind_inv in Hrest as (final & hr & Hmap & Hrest).
  unfold Array_map in Hmap.
  apply bind_inv in Hmap as (elems' & h1 & Helems' & Hmap).
  eapply elements_fresh in Helems' as [-> Helems']; [|done..].
  apply bind_inv in Hmap as (mapped & hm & Hmapped & Hnew).
  eapply mapiM_grows in Hmapped as [Hgrowsm Hmapped]; [|done..].
  eapply newArray_grows in Hnew as [Hgrowsr Hfinal];
    [|done|by apply fresh_elements].
  apply bind_inv in Hrest as (found & h1 & Hfound & Hret).
  unfold Array_length in Hfound.
  apply bind_inv in Hfound as (elems'' & h2 & Helems'' & Hfound).
  apply elements_inv in Helems'' as (l & _ & _ & ->).
  unfold mret, M_ret in Hfound, Hret. injection Hfound as <- <-.
  by injection Hret as <- <-.
Qed.

Lemma allItems_grows (h : heap) arr h' :
  Store.allItems h = Some (arr, h') -> Spec.grows h h' /\ fresh_in h arr.
Proof.
  unfold Store.allItems.
  intros (item1 & h1 & Hitem1 & Hrest)%bind_inv.
  eapply newObject_grows in Hitem1 as [Hgrows1 Hfresh1];
    [|apply grows_refl|by intros l ?%elem_of_nil].
  apply bind_inv in Hrest as (item2 & h2 & Hitem2 & Hrest).
  eapply newObject_grows in Hitem2 as [Hgrows2 Hfresh2];
    [|done|by intros l ?%elem_of_nil].
  apply bind_inv in Hrest as (tags & h3 & Htags & Hrest).
  eapply newArray_grows in Htags as [Hgrows3 Hfresh3];
    [|done|by intros l ?%elem_of_nil].
  apply bind_inv in Hrest as (metadata & h4 & Hmetadata & Hrest).
  eapply newObject_grows in Hmetadata as [Hgrows4 Hfresh4]; [|done|].
  2:{ cbn [Spec.cellRefs flat_map snd]. rewrite app_nil_r. exact Hfresh3. }
  apply bind_inv in Hrest as (item3 & h5 & Hitem3 & Hrest).
  eapply newObject_grows in Hitem3 as [Hgrows5 Hfresh5]; [|done|].
  2:{ cbn [Spec.cellRefs flat_map snd Spec.refsOf app].
      rewrite app_nil_r. exact Hfresh4. }
  eapply newArray_grows; [done| |exact Hrest].
  apply fresh_elements. by repeat constructor.
Qed.

(** X24. Every call builds its own objects: from any heap, nothing that can
    be reached from the returned items array (the array, its items, their
    metadata objects, the tags array) existed before the call, since the
    fixture is built anew in each call. So a call returns no object that an
    earlier call returned. *)
Theorem a_call_returns_objects_of_its_own (input : ExampleTools.DataOperationInput)
  (h : heap) :
  exists res h',
    Store.exampleDataOperation toLowerCase clock input h = Some (res, h')
    /\ (exists l, items res = SRef l /\ is_Some (h' !! l))
    /\ forall l, Spec.reachable h' (items res) l -> h !! l = None.
Proof.
  destruct (returns_allItems h) as (fixture & h1 & Hfix & Hsub1 & Hrep1).
  destruct (returns_operationOn toLowerCase clock h1 fixture input Hrep1)
    as (res & h2 & Hop & Hsub2 & Hitems & _).
  exists res, h2.
  apply allItems_grows in Hfix as Hbuilt. destruct Hbuilt as [Hgrows1 Hfixture].
  destruct (operationOn_grows h h1 fixture input res h2 Hgrows1 Hfixture Hop)
    as [[Hsub Hnew] Hres].
  split_and!.
  - unfold Store.exampleDataOperation, mbind, M_bind. by rewrite Hfix.
  - apply represents_array in Hitems as (l & ws & -> & Hl & _). by exists l.
  - intros l. induction 1 as [l Hroot|l c l' _ IH Hc Hl'].
    + apply Hres. rewrite Hroot. cbn. by left.
    + by eapply Hnew.
Qed.

End StoreIsolation.
